(** * whisper_streaming_web: the streaming transcription stabilisation engine

    A shallow embedding of [src/whisper_streaming/online_asr.py] (hypothesis
    buffer, sentence segmenter, online ASR processor) and of the translation
    fan-out of [src/translation/translation.py], with the properties the
    specification states about them.

    Timestamps are Python floats: they are embedded as the kernel's IEEE-754
    binary64 numbers ([PrimFloat.float]), so every comparison and addition below
    is the one Python performs.  Word texts are Python [str] values, embedded
    as the [string] of their UTF-8 bytes. *)

From Stdlib Require Import List String Ascii Bool NArith ZArith Lia.
From Stdlib Require Import PrimFloat FloatOps SpecFloat.
From Stdlib Require FloatAxioms Uint63.
Import ListNotations.

(* Decimal literals such as 0.1 denote the nearest binary64 value, as in Python. *)
Set Warnings "-inexact-float".

Local Open Scope string_scope.
Local Open Scope list_scope.

(** ** Python values and primitives *)

Module Py.

(** The exceptions the embedded code can raise. *)
Inductive exn : Set :=
| TypeError
| UnboundLocalError
| ValueError
| OverflowError
| AssertionError
| NotImplementedError.

(** Outcome of a Python call: a value, or a raised exception. *)
Inductive result (A : Type) : Type :=
| Ok (a : A)
| Raise (e : exn).
Arguments Ok {A} a.
Arguments Raise {A} e.

Definition bind {A B} (r : result A) (k : A -> result B) : result B :=
  match r with
  | Ok a => k a
  | Raise e => Raise e
  end.

(** [sep.join(xs)] *)
Fixpoint join (sep : string) (xs : list string) : string :=
  match xs with
  | [] => ""
  | [x] => x
  | x :: rest => x ++ sep ++ join sep rest
  end.

(** [len(xs)], an integer. *)
Definition len {A} (xs : list A) : Z := Z.of_nat (List.length xs).

(** [xs[k:]] for any integer [k]: a negative [k] counts from the end, and an
    index outside the sequence is clamped. *)
Definition slice_from {A} (k : Z) (xs : list A) : list A :=
  let n := len xs in
  let start := if (k <? 0)%Z then Z.max (n + k) 0 else Z.min k n in
  skipn (Z.to_nat start) xs.

(** [xs[:k]] for a natural [k]. *)
Definition slice_to {A} (k : nat) (xs : list A) : list A := firstn k xs.

(** [xs[-j]] for [1 <= j <= len(xs)], with [d] standing for the IndexError
    that the callers below never reach. *)
Definition index_from_end {A} (d : A) (xs : list A) (j : nat) : A :=
  nth (List.length xs - j) xs d.

(** The float of an integer [0 <= n < 2^63], as [n / d] and [n < x] convert
    their integer operand. *)
Definition float_of_int (n : Z) : float :=
  PrimFloat.of_uint63 (Uint63.of_Z n).

(** [int(x)]: truncation toward zero; [ValueError] on NaN and
    [OverflowError] on an infinity. *)
Definition int (x : float) : result Z :=
  match Prim2SF x with
  | S754_nan => Raise ValueError
  | S754_infinity _ => Raise OverflowError
  | S754_zero _ => Ok 0%Z
  | S754_finite s m e =>
      let mag := match e with
                 | Z0 => Z.pos m
                 | Zpos p => Z.shiftl (Z.pos m) (Z.pos p)
                 | Zneg p => Z.shiftr (Z.pos m) (Z.pos p)
                 end in
      Ok (if s then Z.opp mag else mag)
  end.

(** *** Text

    A [str] is a sequence of characters (code points); it is embedded as the
    [string] of its UTF-8 bytes.  [chars s] is the sequence of the characters
    of [s], each one as the bytes that encode it, and what the code does
    character by character (slices, [re], [replace]) is written over it. *)

(** The number of bytes of the character that starts with the byte [a]: one
    for an ASCII byte, two to four after the lead bytes [110xxxxx],
    [1110xxxx] and [11110xxx]. *)
Definition char_width (a : ascii) : nat :=
  let b := N_of_ascii a in
  if (b <? 192)%N then 1
  else if (b <? 224)%N then 2
  else if (b <? 240)%N then 3
  else 4.

(** [chars_aux k s]: the [k] bytes that complete the character being read
    (fewer when [s] ends before), and the characters behind it. *)
Fixpoint chars_aux (k : nat) (s : string) : string * list string :=
  match s with
  | EmptyString => (EmptyString, [])
  | String a s' =>
      match k with
      | S k' => let (cur, rest) := chars_aux k' s' in (String a cur, rest)
      | O => let (cur, rest) := chars_aux (char_width a - 1) s' in
             (EmptyString, String a cur :: rest)
      end
  end.

Definition chars (s : string) : list string := snd (chars_aux 0 s).

(** [len(s)] *)
Definition str_len (s : string) : Z := len (chars s).

(** [s[k:]] *)
Definition str_slice_from (k : Z) (s : string) : string :=
  join "" (slice_from k (chars s)).

(** [ord(c)]: the code point that the bytes of a character encode, [None]
    when they are not the UTF-8 form of a code point. *)
Definition ord (ch : string) : option N :=
  let byte := N_of_ascii in
  let cont (c : ascii) := (128 <=? byte c)%N && (byte c <? 192)%N in
  let low (c : ascii) := N.land (byte c) 63 in
  match ch with
  | String a EmptyString =>
      if (byte a <? 128)%N then Some (byte a) else None
  | String a (String b EmptyString) =>
      let n := (N.land (byte a) 31 * 64 + low b)%N in
      if (192 <=? byte a)%N && (byte a <? 224)%N && cont b && (128 <=? n)%N
      then Some n else None
  | String a (String b (String c EmptyString)) =>
      let n := (N.land (byte a) 15 * 4096 + low b * 64 + low c)%N in
      if (224 <=? byte a)%N && (byte a <? 240)%N && cont b && cont c
         && (2048 <=? n)%N && ((n <? 55296)%N || (57343 <? n)%N)
      then Some n else None
  | String a (String b (String c (String d EmptyString))) =>
      let n := (N.land (byte a) 7 * 262144 + low b * 4096
                + low c * 64 + low d)%N in
      if (240 <=? byte a)%N && (byte a <? 248)%N && cont b && cont c && cont d
         && (65536 <=? n)%N && (n <? 1114112)%N
      then Some n else None
  | _ => None
  end.

(** The patterns of the [re] calls in the code are sequences of character
    classes: [re_match p s] is [re.match], anchored at the start of [s], and
    [re_search p s] is [re.search], at any position. *)
Fixpoint match_here (p : list (string -> bool)) (cs : list string) : bool :=
  match p with
  | [] => true
  | c :: p' =>
      match cs with
      | [] => false
      | a :: cs' => c a && match_here p' cs'
      end
  end.

Fixpoint search_from (p : list (string -> bool)) (cs : list string) : bool :=
  match_here p cs ||
  match cs with
  | [] => false
  | _ :: cs' => search_from p cs'
  end.

Definition re_match (p : list (string -> bool)) (s : string) : bool :=
  match_here p (chars s).

Definition re_search (p : list (string -> bool)) (s : string) : bool :=
  search_from p (chars s).

(** [r"\."] *)
Definition dot (c : string) : bool := String.eqb c ".".

(** [r"[.?!]"] *)
Definition stop_mark (c : string) : bool :=
  String.eqb c "." || String.eqb c "?" || String.eqb c "!".

(** The runs of decimal digits (category Nd) of Unicode 14.0, the character
    database of Python 3.11, by code point. *)
Definition decimal_digits : list (N * N) :=
  [(48, 57); (1632, 1641); (1776, 1785); (1984, 1993); (2406, 2415);
   (2534, 2543); (2662, 2671); (2790, 2799); (2918, 2927); (3046, 3055);
   (3174, 3183); (3302, 3311); (3430, 3439); (3558, 3567); (3664, 3673);
   (3792, 3801); (3872, 3881); (4160, 4169); (4240, 4249); (6112, 6121);
   (6160, 6169); (6470, 6479); (6608, 6617); (6784, 6793); (6800, 6809);
   (6992, 7001); (7088, 7097); (7232, 7241); (7248, 7257); (42528, 42537);
   (43216, 43225); (43264, 43273); (43472, 43481); (43504, 43513);
   (43600, 43609); (44016, 44025); (65296, 65305); (66720, 66729);
   (68912, 68921); (69734, 69743); (69872, 69881); (69942, 69951);
   (70096, 70105); (70384, 70393); (70736, 70745); (70864, 70873);
   (71248, 71257); (71360, 71369); (71472, 71481); (71904, 71913);
   (72016, 72025); (72784, 72793); (73040, 73049); (73120, 73129);
   (92768, 92777); (92864, 92873); (93008, 93017); (120782, 120831);
   (123200, 123209); (123632, 123641); (125264, 125273);
   (130032, 130041)]%N.

(** [r"\d"]: in a [str] pattern, any Unicode decimal digit. *)
Definition digit (c : string) : bool :=
  match ord c with
  | Some n =>
      existsb (fun r => (fst r <=? n)%N && (n <=? snd r)%N) decimal_digits
  | None => false
  end.

(** [needle in s] *)
Definition contains (needle s : string) : bool :=
  re_search (map String.eqb (chars needle)) s.

(** [s.replace(old, new)] for a one-character [old]. *)
Definition replace_char (old new s : string) : string :=
  join "" (map (fun c => if String.eqb c old then new else c) (chars s)).

(** The line feed and the no-break space U+00A0, bytes [C2 A0]. *)
Definition newline : string := String "010" EmptyString.
Definition nbsp : string := String "194" (String "160" EmptyString).

End Py.
Import Py.

Notation "x <- r ;; k" := (Py.bind r (fun x => k))
  (at level 61, r at next level, right associativity).

(** A timestamped word, the tuple [(beg, end, text)]. *)
Definition TimedWord : Type := float * float * string.

Definition w_beg (w : TimedWord) : float := fst (fst w).
Definition w_end (w : TimedWord) : float := snd (fst w).
Definition w_text (w : TimedWord) : string := snd w.

(** ** HypothesisBuffer *)

Module HypothesisBuffer.

Record t : Type := mk {
  commited_in_buffer : list TimedWord;
  buffer : list TimedWord;
  new : list TimedWord;
  last_commited_time : float;
  last_commited_word : option string
}.

(** [__init__] *)
Definition init : t :=
  {| commited_in_buffer := [];
     buffer := [];
     new := [];
     last_commited_time := 0%float;
     last_commited_word := None |}.

Definition dummy : TimedWord := (0%float, 0%float, "").

(** The text [c] built from the last [i] committed words. *)
Definition ngram_commited (commited : list TimedWord) (i : nat) : string :=
  join " " (rev (map (fun j => w_text (index_from_end dummy commited j))
                     (seq 1 i))).

(** The text [tail] built from the first [i] new words. *)
Definition ngram_new (nw : list TimedWord) (i : nat) : string :=
  join " " (map (fun j => w_text (nth (j - 1) nw dummy)) (seq 1 i)).

(** The [for i in range(1, min(min(cn, nn), 5) + 1)] loop of [insert], over
    the remaining values [idxs] of [i]: at the first [i] whose two texts are
    equal, [i] words are popped from the front of [new] and the loop is
    left with [break]. *)
Fixpoint ngram_loop (commited nw : list TimedWord) (idxs : list nat)
  : list TimedWord :=
  match idxs with
  | [] => nw
  | i :: rest =>
      if String.eqb (ngram_commited commited i) (ngram_new nw i)
      then skipn i nw
      else ngram_loop commited nw rest
  end.

Definition shift (offset : float) (w : TimedWord) : TimedWord :=
  let '(a, b, t) := w in ((a + offset)%float, (b + offset)%float, t).

Definition after_commited (self : t) (w : TimedWord) : bool :=
  let '(a, _, _) := w in
  ((last_commited_time self - 0.1) <? a)%float.

Definition with_new (self : t) (nw : list TimedWord) : t :=
  {| commited_in_buffer := commited_in_buffer self;
     buffer := buffer self;
     new := nw;
     last_commited_time := last_commited_time self;
     last_commited_word := last_commited_word self |}.

(** [insert(new, offset)] *)
Definition insert (self : t) (new0 : list TimedWord) (offset : float) : t :=
  let new1 := map (shift offset) new0 in
  let new2 := filter (after_commited self) new1 in
  match new2 with
  | [] => with_new self new2
  | (a, _, _) :: _ =>
      if (abs (a - last_commited_time self) <? 1)%float then
        match commited_in_buffer self with
        | [] => with_new self new2
        | _ :: _ =>
            let cn := List.length (commited_in_buffer self) in
            let nn := List.length new2 in
            with_new self
              (ngram_loop (commited_in_buffer self) new2
                          (seq 1 (Nat.min (Nat.min cn nn) 5)))
        end
      else with_new self new2
  end.

(** State of the [while self.new] loop of [flush]. *)
Record flush_state : Type := mk_fs {
  fs_new : list TimedWord;
  fs_buffer : list TimedWord;
  fs_commit : list TimedWord;
  fs_time : float;
  fs_word : option string
}.

(** The loop of [flush], by recursion on [self.new]. *)
Fixpoint flush_loop (nw buf commit : list TimedWord)
         (time : float) (word : option string) : flush_state :=
  match nw with
  | [] => mk_fs nw buf commit time word
  | (na, nb, nt) :: nw' =>
      match buf with
      | [] => mk_fs nw buf commit time word
      | b0 :: buf' =>
          if String.eqb nt (w_text b0)
          then flush_loop nw' buf' (commit ++ [(na, nb, nt)]) nb (Some nt)
          else mk_fs nw buf commit time word
      end
  end.

(** [flush()]: the new state and the returned [commit]. *)
Definition flush (self : t) : t * list TimedWord :=
  let st := flush_loop (new self) (buffer self) []
                       (last_commited_time self) (last_commited_word self) in
  ({| commited_in_buffer := commited_in_buffer self ++ fs_commit st;
      buffer := fs_new st;
      new := [];
      last_commited_time := fs_time st;
      last_commited_word := fs_word st |},
   fs_commit st).

(** The loop of [pop_commited(time)]. *)
Fixpoint pop_commited_loop (commited : list TimedWord) (time : float)
  : list TimedWord :=
  match commited with
  | [] => []
  | w :: rest =>
      if (w_end w <=? time)%float then pop_commited_loop rest time
      else commited
  end.

(** [pop_commited(time)] *)
Definition pop_commited (self : t) (time : float) : t :=
  {| commited_in_buffer := pop_commited_loop (commited_in_buffer self) time;
     buffer := buffer self;
     new := new self;
     last_commited_time := last_commited_time self;
     last_commited_word := last_commited_word self |}.

(** [complete()] *)
Definition complete (self : t) : list TimedWord := buffer self.

End HypothesisBuffer.

(** ** Word lists: sanity filter, concatenation, sentence segmentation *)

(** A segment, the tuple [(beg, end, text)] whose timestamps may be [None]. *)
Definition TimedSegment : Type := option float * option float * string.

Definition s_beg (s : TimedSegment) : option float := fst (fst s).
Definition s_end (s : TimedSegment) : option float := snd (fst s).
Definition s_text (s : TimedSegment) : string := snd s.

Definition seg_of_word (w : TimedWord) : TimedSegment :=
  let '(a, b, t) := w in (Some a, Some b, t).

Definition empty_segment : TimedSegment := (None, None, "").

(** [word_freq[key] += 1] on the [defaultdict(int)] of [check_words]. *)
Fixpoint freq_incr (key : string) (word_freq : list (string * nat))
  : list (string * nat) :=
  match word_freq with
  | [] => [(key, 1)]
  | (k, n) :: rest =>
      if String.eqb k key then (k, S n) :: rest
      else (k, n) :: freq_incr key rest
  end.

(** [check_words(words)] *)
Definition check_words (words : list TimedWord) : list TimedWord :=
  if (5 <? List.length words)%nat then
    let word_freq :=
      fold_left (fun d w => freq_incr (w_text w) d) words [] in
    let max_freq :=
      (float_of_int (Z.of_nat (fold_right Nat.max 0%nat (map snd word_freq)))
       / float_of_int (len words))%float in
    if (0.5 <? max_freq)%float then [] else words
  else words.

(** [concatenate_tsw(tsw, sep, offset)]; adding the offset to a [None]
    timestamp is a [TypeError]. *)
Definition concatenate_tsw (tsw : list TimedSegment) (sep : option string)
           (offset : float) : result TimedSegment :=
  let sep := match sep with None => "" | Some s => s end in
  let t := join sep (map s_text tsw) in
  match tsw with
  | [] => Ok (None, None, t)
  | first :: _ =>
      match s_beg first, s_end (last tsw first) with
      | Some b0, Some e0 => Ok (Some (offset + b0)%float,
                                Some (offset + e0)%float, t)
      | _, _ => Raise TypeError
      end
  end.

(** [concatenate_tsw(words)] with the default [sep] and [offset], on words. *)
Definition concatenate_words (words : list TimedWord) : result TimedSegment :=
  concatenate_tsw (map seg_of_word words) None 0%float.

(** The body of the [for w in words] loop of [words_to_sentences] up to
    [sentence.append(w)]: the word that is appended and the value of
    [break_sentence].  [mutable] tells whether the word objects are lists
    (item assignment works) or tuples, as [HypothesisBuffer] builds them
    (item assignment raises [TypeError]).  The value of
    [w[2].replace("...", ...)] is dropped by the code, so the word is
    unchanged in that branch. *)
Definition sentence_step (mutable : bool) (w : TimedWord)
  : result (TimedWord * bool) :=
  let t := w_text w in
  if re_search [stop_mark] t then
    if negb (re_search [dot] t) then Ok (w, true)
    else if re_match [dot] t then
      if mutable
      then Ok ((w_beg w, w_end w, str_slice_from 1 (w_text w)), false)
      else Raise TypeError
    else if re_search [dot; dot; dot] t then Ok (w, false)
    else if re_search [digit; dot] t then Ok (w, false)
    else Ok (w, true)
  else Ok (w, false).

(** The loop of [words_to_sentences]; [break_sentence] is [None] while the
    local variable is unbound. *)
Fixpoint sentences_loop (mutable : bool) (words : list TimedWord)
         (all_sentences : list TimedSegment) (sentence : list TimedWord)
         (break_sentence : option bool)
  : result (list TimedSegment * list TimedWord * option bool) :=
  match words with
  | [] => Ok (all_sentences, sentence, break_sentence)
  | w :: rest =>
      r <- sentence_step mutable w ;;
      let sentence := sentence ++ [fst r] in
      if snd r then
        s <- concatenate_words sentence ;;
        sentences_loop mutable rest (all_sentences ++ [s]) [] (Some true)
      else
        sentences_loop mutable rest all_sentences sentence (Some false)
  end.

(** [words_to_sentences(words)] *)
Definition words_to_sentences (mutable : bool) (words : list TimedWord)
  : result (list TimedSegment * list TimedWord) :=
  r <- sentences_loop mutable words [] [] None ;;
  let '(all_sentences, sentence, break_sentence) := r in
  match break_sentence with
  | None => Raise UnboundLocalError
  | Some true => Ok (all_sentences, [])
  | Some false => Ok (all_sentences, sentence)
  end.

(** [concat_two_segments(first, second)] *)
Definition concat_two_segments (first second : TimedSegment)
  : result TimedSegment :=
  match s_end first with
  | None => Ok second
  | Some _ =>
      match s_end second with
      | None => Ok first
      | Some _ => concatenate_tsw [first; second] None 0%float
      end
  end.

(** ** OnlineASRProcessor

    The processor is embedded with [output_folder = None], its default: the
    transcript files and the log messages are left out, they do not feed back
    into the state.  The external ASR is a function from the audio buffer and
    the prompt to the words of [asr.ts_words(asr.transcribe(...))]. *)

Module OnlineASRProcessor.

Definition ASR : Type := list float -> string -> list TimedWord.

Record t : Type := mk {
  audio_buffer : list float;
  len_audio_buffer_last_transcribed : nat;
  transcript_buffer : HypothesisBuffer.t;
  buffer_time_offset : float;
  promt : string;
  final_transcript : list TimedSegment;
  commited_not_final : list TimedWord;
  buffer_trimming_way : string;
  buffer_trimming_sec : float
}.

Definition SAMPLING_RATE : float := 16000%float.

(** A method: it runs on the object and leaves it in a new state, also when
    it raises. *)
Definition M (A : Type) : Type := t -> result A * t.

Definition ret {A} (a : A) : M A := fun self => (Ok a, self).

Definition mbind {A B} (m : M A) (k : A -> M B) : M B :=
  fun self =>
    match m self with
    | (Ok a, self') => k a self'
    | (Raise e, self') => (Raise e, self')
    end.

Definition lift {A} (r : result A) : M A := fun self => (r, self).

Definition get : M t := fun self => (Ok self, self).

Definition modify (f : t -> t) : M unit := fun self => (Ok tt, f self).

Declare Scope method_scope.
Delimit Scope method_scope with method.
Notation "x <-- m ;; k" := (mbind m (fun x => k))
  (at level 61, m at next level, right associativity) : method_scope.
Notation "m ;;; k" := (mbind m (fun _ => k))
  (at level 61, right associativity) : method_scope.
Local Open Scope method_scope.

(** Field updates. *)
Definition set_audio_buffer (v : list float) (s : t) : t :=
  mk v (len_audio_buffer_last_transcribed s) (transcript_buffer s)
     (buffer_time_offset s) (promt s) (final_transcript s)
     (commited_not_final s) (buffer_trimming_way s) (buffer_trimming_sec s).
Definition set_len_last (v : nat) (s : t) : t :=
  mk (audio_buffer s) v (transcript_buffer s)
     (buffer_time_offset s) (promt s) (final_transcript s)
     (commited_not_final s) (buffer_trimming_way s) (buffer_trimming_sec s).
Definition set_transcript_buffer (v : HypothesisBuffer.t) (s : t) : t :=
  mk (audio_buffer s) (len_audio_buffer_last_transcribed s) v
     (buffer_time_offset s) (promt s) (final_transcript s)
     (commited_not_final s) (buffer_trimming_way s) (buffer_trimming_sec s).
Definition set_buffer_time_offset (v : float) (s : t) : t :=
  mk (audio_buffer s) (len_audio_buffer_last_transcribed s)
     (transcript_buffer s) v (promt s) (final_transcript s)
     (commited_not_final s) (buffer_trimming_way s) (buffer_trimming_sec s).
Definition set_promt (v : string) (s : t) : t :=
  mk (audio_buffer s) (len_audio_buffer_last_transcribed s)
     (transcript_buffer s) (buffer_time_offset s) v (final_transcript s)
     (commited_not_final s) (buffer_trimming_way s) (buffer_trimming_sec s).
Definition set_final_transcript (v : list TimedSegment) (s : t) : t :=
  mk (audio_buffer s) (len_audio_buffer_last_transcribed s)
     (transcript_buffer s) (buffer_time_offset s) (promt s) v
     (commited_not_final s) (buffer_trimming_way s) (buffer_trimming_sec s).
Definition set_commited_not_final (v : list TimedWord) (s : t) : t :=
  mk (audio_buffer s) (len_audio_buffer_last_transcribed s)
     (transcript_buffer s) (buffer_time_offset s) (promt s)
     (final_transcript s) v (buffer_trimming_way s) (buffer_trimming_sec s).

(** [init(offset)] on an object whose trimming options are the given ones. *)
Definition init (way : string) (sec : float) (offset : option float) : t :=
  let buffer_time_offset :=
    match offset with None => 0%float | Some o => o end in
  {| audio_buffer := [];
     len_audio_buffer_last_transcribed := 0;
     transcript_buffer :=
       HypothesisBuffer.mk [] [] [] buffer_time_offset None;
     buffer_time_offset := buffer_time_offset;
     promt := "";
     final_transcript := [];
     commited_not_final := [];
     buffer_trimming_way := way;
     buffer_trimming_sec := sec |}.

(** [__init__(asr, buffer_trimming=(way, sec))] *)
Definition create (way : string) (sec : float) : result t :=
  if negb (String.eqb way "sentence" || String.eqb way "segment")
  then Raise ValueError
  else if (sec <=? 0)%float then Raise ValueError
  else if (30 <? sec)%float then Raise ValueError
  else Ok (init way sec None).

(** [insert_audio_chunk(audio)] *)
Definition insert_audio_chunk (audio : list float) : M unit :=
  modify (fun s => set_audio_buffer (audio_buffer s ++ audio) s).

(** [transcribe_audio_buffer()] *)
Definition transcribe_audio_buffer (asr : ASR) : M (list TimedWord) :=
  self <-- get ;;
  let len_audio_buffer_now := List.length (audio_buffer self) in
  if Nat.eqb len_audio_buffer_now (len_audio_buffer_last_transcribed self)
  then ret []
  else
    modify (set_len_last len_audio_buffer_now) ;;;
    let tsw := asr (audio_buffer self) (promt self) in
    ret (map (HypothesisBuffer.shift (buffer_time_offset self)) tsw).

(** [chunk_at(time)] *)
Definition chunk_at (time : float) : M unit :=
  modify (fun s => set_transcript_buffer
                     (HypothesisBuffer.pop_commited (transcript_buffer s) time)
                     s) ;;;
  self <-- get ;;
  let cut_seconds := (time - buffer_time_offset self)%float in
  k <-- lift (Py.int (cut_seconds * SAMPLING_RATE)%float) ;;
  modify (fun s => set_audio_buffer (slice_from k (audio_buffer s)) s) ;;;
  modify (set_buffer_time_offset time).

(** The [while len(ends) > 2 and e > t] loop of [chunk_completed_segment];
    each turn removes one element of [ends], so [fuel = len(ends)] turns
    are more than the loop can take. *)
Fixpoint pop_ends (fuel : nat) (ends : list float) (e t : float)
  : list float * float :=
  match fuel with
  | O => (ends, e)
  | S fuel' =>
      if (2 <? List.length ends)%nat && (t <? e)%float then
        let ends' := removelast ends in
        pop_ends fuel' ends' (index_from_end 0%float ends' 2) t
      else (ends, e)
  end.

(** [chunk_completed_segment(ts_words)] *)
Definition chunk_completed_segment (ts_words : list TimedWord)
  : M (list TimedWord) :=
  if (List.length ts_words <=? 1)%nat then ret []
  else
    let ends := map w_end ts_words in
    let t := w_end (index_from_end HypothesisBuffer.dummy ts_words 1) in
    let e := index_from_end 0%float ends 2 in
    let '(ends, e) := pop_ends (List.length ends) ends e t in
    if (e <=? t)%float then
      chunk_at e ;;;
      let n_commited_words := List.length ends - 1 in
      let words_to_commit := slice_to n_commited_words ts_words in
      modify (fun s => set_final_transcript
                (final_transcript s ++ map seg_of_word words_to_commit) s) ;;;
      modify (set_commited_not_final (skipn n_commited_words ts_words)) ;;;
      ret words_to_commit
    else ret [].

(** The part of [get_completed_words] after the sentence branch. *)
Definition trim_by_length : M (list TimedSegment) :=
  self <-- get ;;
  if (float_of_int (len (audio_buffer self)) / SAMPLING_RATE
      <? buffer_trimming_sec self)%float
  then ret []
  else
    completed_words <-- chunk_completed_segment (commited_not_final self) ;;
    if String.eqb (buffer_trimming_way self) "sentence" then
      s <-- lift (concatenate_words completed_words) ;;
      ret [s]
    else ret (map seg_of_word completed_words).

(** [get_completed_words()]; the words of [commited_not_final] are the
    tuples returned by [HypothesisBuffer.flush]. *)
Definition get_completed_words : M (list TimedSegment) :=
  self <-- get ;;
  if String.eqb (buffer_trimming_way self) "sentence" then
    r <-- lift (words_to_sentences false (commited_not_final self)) ;;
    let '(sentences, tailing_words) := r in
    match sentences with
    | first :: _ =>
        match s_end (last sentences first) with
        | Some time =>
            chunk_at time ;;;
            modify (set_commited_not_final tailing_words) ;;;
            ret sentences
        | None => lift (Raise TypeError)
        end
    | [] => trim_by_length
    end
  else trim_by_length.

(** [process_iter()] *)
Definition process_iter (asr : ASR) : M (TimedSegment * TimedSegment) :=
  tsw <-- transcribe_audio_buffer asr ;;
  let tsw := check_words tsw in
  if Nat.eqb (List.length tsw) 0 then ret (empty_segment, empty_segment)
  else
    modify (fun s => set_transcript_buffer
              (HypothesisBuffer.insert (transcript_buffer s) tsw 0%float) s) ;;;
    self <-- get ;;
    let '(hb, commited_tsw) := HypothesisBuffer.flush (transcript_buffer self) in
    modify (set_transcript_buffer hb) ;;;
    completed <--
      (if (0 <? List.length commited_tsw)%nat then
         modify (fun s => set_commited_not_final
                            (commited_not_final s ++ commited_tsw) s) ;;;
         completed_words <-- get_completed_words ;;
         if (0 <? List.length completed_words)%nat then
           modify (fun s => set_final_transcript
                              (final_transcript s ++ completed_words) s) ;;;
           completed <-- lift (concatenate_tsw completed_words None 0%float) ;;
           modify (fun s => set_promt
                     (str_slice_from (-200) (promt s ++ s_text completed)) s) ;;;
           ret completed
         else ret empty_segment
       else ret empty_segment) ;;
    self <-- get ;;
    commited_but_not_final <--
      lift (concatenate_words (commited_not_final self)) ;;
    let incomplete_words := HypothesisBuffer.complete (transcript_buffer self) in
    incomplete <-- lift (concatenate_words incomplete_words) ;;
    uncommitted <-- lift (concat_two_segments commited_but_not_final incomplete) ;;
    ret (completed, uncommitted).

(** [finish()] *)
Definition finish (asr : ASR) : M (TimedSegment * TimedSegment) :=
  tsw <-- transcribe_audio_buffer asr ;;
  finish_words <-- lift (concatenate_words tsw) ;;
  modify (set_commited_not_final []) ;;;
  modify (set_audio_buffer []) ;;;
  ret (finish_words, empty_segment).

End OnlineASRProcessor.

(** ** Translation fan-out

    The machine-translation model is external: a call to it either returns a
    text or raises an exception (an instance of [Exception], with its
    message).  The worker thread is embedded as the sequence of its loop
    turns on the queue. *)

Module Translation.

(** Outcome of a call into the external model. *)
Inductive mt_outcome : Type :=
| Returns (text : string)
| Throws (message : string).

(** The shared model: [generate] followed by [batch_decode(...)[0]] for an
    m2m100 model (arguments: target language, tokenized text), and
    [translate_text(...).text] for the hosted client (arguments: text,
    target and source language codes). *)
Record MTModel : Type := {
  generate_decode : string -> string -> mt_outcome;
  translate_text : string -> string -> string -> mt_outcome
}.

(** What [TranslationPipeline.prepare] hands to the translators: the
    tokenizer's tensors for an m2m100 model, the text itself otherwise. *)
Inductive prepared_text : Type :=
| Tokenized (text : string)
| Plain (text : string).

(** The output streams, with what each has written so far. *)
Inductive OutputStream : Type :=
| ConsoleOutputStream (language : string) (shown : list (string * bool))
| FileOutputStream (language : string) (outfile : string)
| WebOutputStream (language : string) (queue buffer : list string)
                  (incomplete_buffer : string).

(** [WebOutputStream.modify_for_web(text)] *)
Definition modify_for_web (text : string) : string :=
  replace_char nbsp "&nbsp;" (replace_char newline "<br>" text).

(** [write(translated_text, is_complete)] of each stream class. *)
Definition write (o : OutputStream) (translated_text : string)
           (is_complete : bool) : OutputStream :=
  match o with
  | ConsoleOutputStream l shown =>
      ConsoleOutputStream l (shown ++ [(translated_text, is_complete)])
  | FileOutputStream l outfile =>
      if is_complete
      then FileOutputStream l (outfile ++ translated_text ++ " ")%string
      else o
  | WebOutputStream l queue buffer incomplete_buffer =>
      let text_for_web := modify_for_web translated_text in
      if is_complete
      then WebOutputStream l (queue ++ [text_for_web])
                           (buffer ++ [text_for_web]) incomplete_buffer
      else WebOutputStream l queue buffer text_for_web
  end.

(** A new [FileOutputStream]: the file starts with its front matter. *)
Definition new_file_stream (language : string) : OutputStream :=
  FileOutputStream
    language
    ("---" ++ String "010" "language: " ++ language
           ++ String "010" "---" ++ String "010" (String "010" "")).

Definition translation_error : string := "[ Translation Error ]".

(** [translate_language_code_for_deepl(lang)], with [upper] on ASCII. *)
Definition upper_char (c : ascii) : ascii :=
  let n := nat_of_ascii c in
  if (97 <=? n)%nat && (n <=? 122)%nat then ascii_of_nat (n - 32) else c.

Definition translate_language_code_for_deepl (lang : string) : string :=
  if String.eqb lang "en" then "EN-US"
  else string_of_list_ascii (map upper_char (list_ascii_of_string lang)).

Module OnlineTranslator.

Record t : Type := mk {
  src_lang : string;
  tgt_lang : string;
  model_name : string;
  log_file : list string;
  output_streams : list OutputStream
}.

(** [__init__(model, src_lang, tgt_lang, model_name, output_file,
    log_to_console, write_to_web)]; [output_file] tells whether a file was
    given. *)
Definition create (src tgt name : string)
           (output_file log_to_console write_to_web : bool) : result t :=
  let output_streams :=
    (if output_file then [new_file_stream tgt] else [])
      ++ (if log_to_console then [ConsoleOutputStream tgt []] else [])
      ++ (if write_to_web then [WebOutputStream tgt [] [] ""] else []) in
  if Nat.eqb (List.length output_streams) 0 then Raise AssertionError
  else if contains "m2m100" name || String.eqb name "deepl"
  then Ok (mk src tgt name [] output_streams)
  else Raise NotImplementedError.

(** [_translate_with_deepl(text)]: the two [assert]s are outside the
    [try]; inside it, any exception gives the error text. *)
Definition _translate_with_deepl (model : MTModel) (self : t)
           (text : prepared_text) : result string :=
  if negb (String.eqb "deepl" (model_name self)) then Raise AssertionError
  else
    match text with
    | Tokenized _ => Raise AssertionError
    | Plain text =>
        match translate_text model text
                (translate_language_code_for_deepl (tgt_lang self))
                (translate_language_code_for_deepl (src_lang self)) with
        | Returns translated => Ok translated
        | Throws _ => Ok translation_error
        end
    end.

(** [_translate_tokenized_text(tokenized_text)]: unpacking a text that
    was not tokenized raises inside the [try] as well. *)
Definition _translate_tokenized_text (model : MTModel) (self : t)
           (tokenized_text : prepared_text) : result string :=
  if negb (contains "m2m100" (model_name self)) then Raise AssertionError
  else
    match tokenized_text with
    | Plain _ => Ok translation_error
    | Tokenized tokens =>
        match generate_decode model (tgt_lang self) tokens with
        | Returns translated_text => Ok translated_text
        | Throws _ => Ok translation_error
        end
    end.

(** [translate_prepared_text(prepared_text)] *)
Definition translate_prepared_text (model : MTModel) (self : t)
           (prepared : prepared_text) : result string :=
  if contains "m2m100" (model_name self)
  then _translate_tokenized_text model self prepared
  else if String.eqb (model_name self) "deepl"
  then _translate_with_deepl model self prepared
  else Raise NotImplementedError.

(** [translate_to_output(prepared_text, is_complete)] *)
Definition translate_to_output (model : MTModel) (self : t)
           (prepared : prepared_text) (is_complete : bool) : result t :=
  translation <- translate_prepared_text model self prepared ;;
  let prefix := if is_complete then "[ Complete ] " else "[Incomplete] " in
  Ok (mk (src_lang self) (tgt_lang self) (model_name self)
         (log_file self ++ [(prefix ++ translation)%string])
         (map (fun o => write o translation is_complete)
              (output_streams self))).

End OnlineTranslator.

Module TranslationPipeline.

Record t : Type := mk {
  model_name : string;
  model : MTModel;
  log_file : list string;
  original_output_streams : list OutputStream;
  translators : list OnlineTranslator.t;
  translation_queue : list (TimedSegment * bool);
  skipped : list nat
}.

Definition set_queue (q : list (TimedSegment * bool)) (self : t) : t :=
  mk (model_name self) (model self) (log_file self)
     (original_output_streams self) (translators self) q (skipped self).

(** The [for lang in target_languages] loop of [__init__]. *)
Fixpoint create_translators (src name : string) (target_languages : list string)
         (output_folder log_to_console log_to_web : bool)
  : result (list OnlineTranslator.t) :=
  match target_languages with
  | [] => Ok []
  | lang :: langs =>
      T <- OnlineTranslator.create src lang name
             output_folder log_to_console log_to_web ;;
      Ts <- create_translators src name langs
              output_folder log_to_console log_to_web ;;
      Ok (T :: Ts)
  end.

(** [__init__(src_lang, target_languages, model, output_folder,
    log_to_console, log_to_web)], given the loaded model [m];
    [output_folder] tells whether a folder was given. *)
Definition create (m : MTModel) (src : string) (target_languages : list string)
           (name : string) (output_folder log_to_console log_to_web : bool)
  : result t :=
  if negb (contains "m2m100" name || String.eqb name "deepl")
  then Raise NotImplementedError
  else
    let original_output_streams :=
      (if log_to_console then [ConsoleOutputStream src []] else [])
        ++ (if log_to_web then [WebOutputStream src [] [] ""] else [])
        ++ (if output_folder then [new_file_stream src] else []) in
    Ts <- create_translators src name target_languages
            output_folder log_to_console log_to_web ;;
    Ok (mk name m [] original_output_streams Ts [] []).

(** [prepare(text)] *)
Definition prepare (self : t) (text : string) : prepared_text :=
  if contains "m2m100" (model_name self) then Tokenized text
  else Plain text.

(** [put_text(transcription_segment, is_complete)] *)
Definition put_text (self : t) (transcription_segment : TimedSegment)
           (is_complete : bool) : result t :=
  if String.eqb (s_text transcription_segment) "" then Raise AssertionError
  else
    Ok (mk (model_name self) (model self) (log_file self)
           (map (fun o => write o (s_text transcription_segment) is_complete)
                (original_output_streams self))
           (translators self)
           (translation_queue self ++ [(transcription_segment, is_complete)])
           (skipped self)).

(** The [for T in self.translators] loop; an exception leaves the
    translators served so far updated. *)
Fixpoint dispatch (m : MTModel) (ts : list OnlineTranslator.t)
         (prepared : prepared_text) (is_complete : bool)
  : result unit * list OnlineTranslator.t :=
  match ts with
  | [] => (Ok tt, [])
  | T :: rest =>
      match OnlineTranslator.translate_to_output m T prepared is_complete with
      | Raise e => (Raise e, T :: rest)
      | Ok T' =>
          let '(r, rest') := dispatch m rest prepared is_complete in
          (r, T' :: rest')
      end
  end.

(** One turn of the [while self.should_run] loop of [_translation_thread]
    whose [get] returned an item; [skipped] collects the queue sizes of
    the "Skipping incomplete translation" warnings. *)
Definition worker_turn (self : t) : result unit * t :=
  match translation_queue self with
  | [] => (Ok tt, self)
  | (text_segment, is_complete) :: rest =>
      let prefix := if is_complete then "[ Complete ] " else "[Incomplete] " in
      let log := log_file self ++ [(prefix ++ s_text text_segment)%string] in
      let queue_size := List.length rest in
      if is_complete || Nat.eqb queue_size 0 then
        let prepared := prepare self (s_text text_segment) in
        let '(r, ts) := dispatch (model self) (translators self)
                                 prepared is_complete in
        (r, mk (model_name self) (model self) log
               (original_output_streams self) ts rest (skipped self))
      else
        (Ok tt, mk (model_name self) (model self) log
                   (original_output_streams self) (translators self) rest
                   (skipped self ++ [queue_size]))
  end.

(** The worker thread on a queue that no producer touches meanwhile: it
    takes turns until the queue is empty (then [get] times out and the
    loop idles) or a turn raises (then the thread ends). *)
Fixpoint worker (turns : nat) (self : t) : result unit * t :=
  match turns with
  | O => (Ok tt, self)
  | S turns' =>
      match translation_queue self with
      | [] => (Ok tt, self)
      | _ :: _ =>
          match worker_turn self with
          | (Ok _, self') => worker turns' self'
          | (Raise e, self') => (Raise e, self')
          end
      end
  end.

Definition run_worker (self : t) : result unit * t :=
  worker (List.length (translation_queue self)) self.

End TranslationPipeline.

End Translation.

(** ** VACOnlineASRProcessor

    The wrapper that feeds the online processor according to a voice
    activity detector.  The detector is external: its answer for a chunk is
    an argument of [insert_audio_chunk], [None] or a dict from event names
    to sample positions. *)

(** [xs[:k]] for any integer [k]: a negative [k] counts from the end, and an
    index outside the sequence is clamped. *)
Definition slice_upto {A} (k : Z) (xs : list A) : list A :=
  let n := len xs in
  let stop := if (k <? 0)%Z then Z.max (n + k) 0 else Z.min k n in
  firstn (Z.to_nat stop) xs.

(** The float of an integer of magnitude below [2^63]. *)
Definition float_of_Z (n : Z) : float :=
  if (n <? 0)%Z then (- float_of_int (- n))%float else float_of_int n.

Module VACOnlineASRProcessor.

Record t : Type := mk {
  online_chunk_size : float;
  online : OnlineASRProcessor.t;
  current_online_chunk_buffer_size : Z;
  is_currently_final : bool;
  status : option string;
  audio_buffer : list float;
  buffer_offset : Z
}.

(** [init()]; resetting the detector is left to the environment. *)
Definition init (self : t) : t :=
  mk (online_chunk_size self)
     (OnlineASRProcessor.init
        (OnlineASRProcessor.buffer_trimming_way (online self))
        (OnlineASRProcessor.buffer_trimming_sec (online self)) None)
     0 false None [] 0.

(** [__init__(online_chunk_size, buffer_trimming=(way, sec))] *)
Definition create (online_chunk_size : float) (way : string) (sec : float)
  : result t :=
  o <- OnlineASRProcessor.create way sec ;;
  Ok (init (mk online_chunk_size o 0 false None [] 0)).

(** [clear_buffer()] *)
Definition clear_buffer (self : t) : t :=
  mk (online_chunk_size self) (online self)
     (current_online_chunk_buffer_size self) (is_currently_final self)
     (status self) [] (buffer_offset self + len (audio_buffer self)).

(** [self.online.insert_audio_chunk(send_audio)] followed by
    [self.current_online_chunk_buffer_size += len(send_audio)]. *)
Definition forward (send_audio : list float) (self : t) : t :=
  mk (online_chunk_size self)
     (snd (OnlineASRProcessor.insert_audio_chunk send_audio (online self)))
     (current_online_chunk_buffer_size self + len send_audio)
     (is_currently_final self) (status self) (audio_buffer self)
     (buffer_offset self).

Definition set_audio_buffer (v : list float) (self : t) : t :=
  mk (online_chunk_size self) (online self)
     (current_online_chunk_buffer_size self) (is_currently_final self)
     (status self) v (buffer_offset self).

(** [insert_audio_chunk(audio)], [res] being what [self.vac(audio)]
    returned.  An exception leaves the object as it is at that point. *)
Definition insert_audio_chunk (res : option (list (string * Z)))
           (audio : list float) (self : t) : result unit * t :=
  let self := set_audio_buffer (audio_buffer self ++ audio) self in
  match res with
  | None =>
      if match status self with
         | Some st => String.eqb st "voice"
         | None => false
         end
      then (Ok tt, clear_buffer (forward (audio_buffer self) self))
      else (Ok tt, clear_buffer self)
  | Some items =>
      match items with
      | [(vac_key, vac_time)] =>
          let frame := (vac_time - buffer_offset self + len audio)%Z in
          if String.eqb vac_key "start" then
            let send_audio := slice_from frame (audio_buffer self) in
            let self :=
              mk (online_chunk_size self)
                 (OnlineASRProcessor.init
                    (OnlineASRProcessor.buffer_trimming_way (online self))
                    (OnlineASRProcessor.buffer_trimming_sec (online self))
                    (Some (float_of_Z vac_time
                           / OnlineASRProcessor.SAMPLING_RATE)%float))
                 (current_online_chunk_buffer_size self)
                 (is_currently_final self) (Some "voice")
                 (audio_buffer self) (buffer_offset self) in
            (Ok tt, clear_buffer (forward send_audio self))
          else if String.eqb vac_key "end" then
            let send_audio := slice_upto frame (audio_buffer self) in
            let self :=
              mk (online_chunk_size self) (online self)
                 (current_online_chunk_buffer_size self)
                 true (Some "nonvoice")
                 (audio_buffer self) (buffer_offset self) in
            (Ok tt, clear_buffer (forward send_audio self))
          else (Raise UnboundLocalError, self)
      | _ => (Raise AssertionError, self)
      end
  end.

(** [finish()] *)
Definition finish (asr : OnlineASRProcessor.ASR) (self : t)
  : result (TimedSegment * TimedSegment) * t :=
  match OnlineASRProcessor.finish asr (online self) with
  | (Ok result, online') =>
      (Ok result,
       mk (online_chunk_size self) online' 0 false (status self)
          (audio_buffer self) (buffer_offset self))
  | (Raise e, online') =>
      (Raise e,
       mk (online_chunk_size self) online'
          (current_online_chunk_buffer_size self) (is_currently_final self)
          (status self) (audio_buffer self) (buffer_offset self))
  end.

(** [process_iter()] *)
Definition process_iter (asr : OnlineASRProcessor.ASR) (self : t)
  : result (TimedSegment * TimedSegment) * t :=
  if is_currently_final self then finish asr self
  else if (OnlineASRProcessor.SAMPLING_RATE * online_chunk_size self
           <? float_of_Z (current_online_chunk_buffer_size self))%float
  then
    let '(r, online') := OnlineASRProcessor.process_iter asr (online self) in
    (r, mk (online_chunk_size self) online' 0 (is_currently_final self)
           (status self) (audio_buffer self) (buffer_offset self))
  else (Ok (empty_segment, empty_segment), self).

End VACOnlineASRProcessor.

(** ** WebOutputStream: reading what was written

    The streams are created with the default separator, a space. *)

Module WebOutputStream.

(** [get_new_content()] on a web stream: the texts queued since the last
    call, joined, with the incomplete text; the queue is emptied. *)
Definition get_new_content (o : Translation.OutputStream)
  : option (string * string) * Translation.OutputStream :=
  match o with
  | Translation.WebOutputStream l queue buffer incomplete_buffer =>
      (Some (join " " queue, incomplete_buffer),
       Translation.WebOutputStream l [] buffer incomplete_buffer)
  | _ => (None, o)
  end.

(** [get_full_content()] *)
Definition get_full_content (o : Translation.OutputStream)
  : option (string * string) :=
  match o with
  | Translation.WebOutputStream _ _ buffer incomplete_buffer =>
      Some (join " " buffer, incomplete_buffer)
  | _ => None
  end.

(** [get_incomplete_content()] *)
Definition get_incomplete_content (o : Translation.OutputStream)
  : option string :=
  match o with
  | Translation.WebOutputStream _ _ _ incomplete_buffer =>
      Some incomplete_buffer
  | _ => None
  end.

End WebOutputStream.

(** ** Notions the properties are stated with *)

(** Length of the longest common prefix, by word text, of the previous
    hypothesis and the current one. *)
Fixpoint common_prefix_len (pending incoming : list TimedWord) : nat :=
  match pending, incoming with
  | p :: pending', n :: incoming' =>
      if String.eqb (w_text n) (w_text p)
      then S (common_prefix_len pending' incoming')
      else 0
  | _, _ => 0
  end.

(** The last [n] words of a list. *)
Definition lastn {A} (n : nat) (xs : list A) : list A :=
  skipn (List.length xs - n) xs.

(** [n] words overlap when the last [n] committed texts and the first [n]
    incoming texts, each joined with single spaces, are the same string. *)
Definition ngram_overlap (commited incoming : list TimedWord) (n : nat) : Prop :=
  join " " (map w_text (lastn n commited))
  = join " " (map w_text (firstn n incoming)).

(** What [insert] does about overlaps, [bound] being [min(cn, nn, 5)]: the
    smallest overlapping [n] in [1 .. bound] is dropped from the front of
    [incoming], and nothing is dropped when there is none. *)
Definition smallest_overlap_dropped
           (commited incoming : list TimedWord) (bound : nat)
           (result : list TimedWord) : Prop :=
  (exists n, 1 <= n <= bound /\
             ngram_overlap commited incoming n /\
             (forall m, 1 <= m < n -> ~ ngram_overlap commited incoming m) /\
             result = skipn n incoming)
  \/
  ((forall m, 1 <= m <= bound -> ~ ngram_overlap commited incoming m) /\
   result = incoming).

(** A word text without a space. *)
Definition spaceless (t : string) : Prop :=
  ~ In " "%char (list_ascii_of_string t).

(** Operations on a hypothesis buffer, and the run of a sequence of them:
    the final buffer and the words returned by the flushes, in order. *)
Inductive buffer_op : Type :=
| Insert (new : list TimedWord) (offset : float)
| Flush.

Fixpoint run_ops (ops : list buffer_op) (self : HypothesisBuffer.t)
  : HypothesisBuffer.t * list TimedWord :=
  match ops with
  | [] => (self, [])
  | Insert new offset :: ops' =>
      run_ops ops' (HypothesisBuffer.insert self new offset)
  | Flush :: ops' =>
      let '(self', commit) := HypothesisBuffer.flush self in
      let '(final, commits) := run_ops ops' self' in
      (final, commit ++ commits)
  end.

(** A sequence of floats that never steps down. *)
Fixpoint nondecreasing (xs : list float) : bool :=
  match xs with
  | x :: (y :: _) as rest => (x <=? y)%float && nondecreasing rest
  | _ => true
  end.

(** The states an [OnlineASRProcessor] goes through: construction, then any
    calls of its methods, each call of the external ASR answering as it
    likes. *)
Inductive reachable : OnlineASRProcessor.t -> Prop :=
| reach_create way sec s :
    OnlineASRProcessor.create way sec = Ok s -> reachable s
| reach_init s offset :
    reachable s ->
    reachable (OnlineASRProcessor.init
                 (OnlineASRProcessor.buffer_trimming_way s)
                 (OnlineASRProcessor.buffer_trimming_sec s) offset)
| reach_insert_audio_chunk s audio :
    reachable s ->
    reachable (snd (OnlineASRProcessor.insert_audio_chunk audio s))
| reach_process_iter s asr :
    reachable s -> reachable (snd (OnlineASRProcessor.process_iter asr s))
| reach_chunk_at s time :
    reachable s -> reachable (snd (OnlineASRProcessor.chunk_at time s))
| reach_finish s asr :
    reachable s -> reachable (snd (OnlineASRProcessor.finish asr s)).

(** The two successive hypotheses of the specification's first scenario. *)
Definition hello_world : list TimedWord :=
  [(0.0, 0.5, "hello"); (0.5, 1.0, "world")]%float.

Definition hello_world_today : list TimedWord :=
  [(0.0, 0.5, "hello"); (0.5, 1.0, "world"); (1.0, 1.5, "today")]%float.

(** Start above [last_commited_time - 0.1], the test of [insert]. *)
Definition within_tolerance (self : HypothesisBuffer.t) (w : TimedWord) : Prop :=
  ((HypothesisBuffer.last_commited_time self - 0.1) <? w_beg w)%float = true.

(** What holds of every buffer between the calls: the words of [new] passed
    the test of [insert] against the current [last_commited_time], which is
    the end of the last committed word. *)
Definition buffer_invariant (self : HypothesisBuffer.t) : Prop :=
  Forall (within_tolerance self) (HypothesisBuffer.new self) /\
  HypothesisBuffer.last_commited_time self
  = last (map w_end (HypothesisBuffer.commited_in_buffer self)) 0%float.

(** The specification's segment-mode scenario: four committed words, still
    in the hypothesis buffer, over an audio buffer [audio], and the
    trimming option [("segment", 10)]. *)
Definition abcd : list TimedWord :=
  [(0, 1, "a"); (1, 2, "b"); (9.5, 10, "c"); (10, 10.5, "d")]%float.

Definition segment_example (audio : list float) : OnlineASRProcessor.t :=
  OnlineASRProcessor.mk
    audio (List.length audio)
    (HypothesisBuffer.mk abcd [] [] 10.5%float (Some "d"))
    0%float "" [] abcd "segment" 10%float.

(** A method that leaves the prompt as it finds it, whatever it returns. *)
Definition keeps_promt {A} (m : OnlineASRProcessor.M A) : Prop :=
  forall s, OnlineASRProcessor.promt (snd (m s)) = OnlineASRProcessor.promt s.

(** The prompt example: an ASR that hears the same two words in any audio,
    and a processor with the trimming option [("segment", 0.001)] that is
    given sixteen samples and iterated, once and then once more. *)
Definition hello_asr : OnlineASRProcessor.ASR :=
  fun _ _ => [(0, 0.0005, "Hello"); (0.0005, 0.001, " world.")]%float.

Definition sixteen_more (s : OnlineASRProcessor.t) : OnlineASRProcessor.t :=
  snd (OnlineASRProcessor.insert_audio_chunk (repeat 0%float 16) s).

Definition heard_once : OnlineASRProcessor.t :=
  snd (OnlineASRProcessor.process_iter
         hello_asr
         (sixteen_more (OnlineASRProcessor.init "segment" 0.001%float None))).

Definition heard_twice : OnlineASRProcessor.t :=
  snd (OnlineASRProcessor.process_iter hello_asr (sixteen_more heard_once)).

(** A pipeline as its constructor leaves it: a supported model name, shared
    by every translator. *)
Definition well_configured (p : Translation.TranslationPipeline.t) : Prop :=
  (contains "m2m100" (Translation.TranslationPipeline.model_name p)
   || String.eqb (Translation.TranslationPipeline.model_name p) "deepl") = true
  /\
  Forall (fun T => Translation.OnlineTranslator.model_name T
                   = Translation.TranslationPipeline.model_name p)
         (Translation.TranslationPipeline.translators p).

(** The text a translator gets from the model, the error text included. *)
Definition translation_of (m : Translation.MTModel)
           (T : Translation.OnlineTranslator.t)
           (prepared : Translation.prepared_text) : string :=
  match Translation.OnlineTranslator.translate_prepared_text m T prepared with
  | Ok translation => translation
  | Raise _ => ""
  end.

(** A translator after it was handed a prepared text: one more line in its
    log, and the translation written to each of its streams. *)
Definition served (m : Translation.MTModel)
           (prepared : Translation.prepared_text) (is_complete : bool)
           (T : Translation.OnlineTranslator.t) : Translation.OnlineTranslator.t :=
  let translation := translation_of m T prepared in
  let prefix := if is_complete then "[ Complete ] " else "[Incomplete] " in
  Translation.OnlineTranslator.mk
    (Translation.OnlineTranslator.src_lang T)
    (Translation.OnlineTranslator.tgt_lang T)
    (Translation.OnlineTranslator.model_name T)
    (Translation.OnlineTranslator.log_file T ++ [(prefix ++ translation)%string])
    (map (fun o => Translation.write o translation is_complete)
         (Translation.OnlineTranslator.output_streams T)).

(** A model for the examples: it marks the text with the target language,
    and fails on the text boom. *)
Definition echo_model : Translation.MTModel :=
  {| Translation.generate_decode :=
       fun lang tokens =>
         if String.eqb tokens "boom" then Translation.Throws "out of memory"
         else Translation.Returns ("<" ++ lang ++ ">" ++ tokens);
     Translation.translate_text :=
       fun text target source =>
         if String.eqb text "boom" then Translation.Throws "quota exceeded"
         else Translation.Returns ("<" ++ target ++ ">" ++ text) |}.

(** The stale-drop scenario: a pipeline from French to English and German
    on an m2m100 model, console and web output, and three segments put in
    its queue before the worker runs. *)
Definition two_language_pipeline : Translation.TranslationPipeline.t :=
  match Translation.TranslationPipeline.create
          echo_model "fr" ["en"; "de"] "facebook/m2m100_418M" false true true
  with
  | Ok p => p
  | Raise _ => Translation.TranslationPipeline.mk "" echo_model [] [] [] [] []
  end.

Definition seg1 : TimedSegment := (Some 0, Some 1, "one")%float.
Definition seg2 : TimedSegment := (Some 0, Some 2, "one two")%float.
Definition seg3 : TimedSegment := (Some 0, Some 3, "one two three.")%float.

Definition three_queued : Translation.TranslationPipeline.t :=
  match (p1 <- Translation.TranslationPipeline.put_text
                 two_language_pipeline seg1 false ;;
         p2 <- Translation.TranslationPipeline.put_text p1 seg2 false ;;
         Translation.TranslationPipeline.put_text p2 seg3 true)
  with
  | Ok p => p
  | Raise _ => two_language_pipeline
  end.

(** A translator to English on m2m100. *)
Definition m2m100_translator : Translation.OnlineTranslator.t :=
  Translation.OnlineTranslator.mk
    "fr" "en" "facebook/m2m100_418M" []
    [Translation.ConsoleOutputStream "en" []].

(** A translator to German on the hosted client. *)
Definition deepl_translator : Translation.OnlineTranslator.t :=
  Translation.OnlineTranslator.mk
    "fr" "de" "deepl" [] [Translation.ConsoleOutputStream "de" []].

(** How many words of [words] have the text [t], and the largest such count
    over the texts of [words]. *)
Definition count_text (t : string) (words : list TimedWord) : nat :=
  List.length (filter (fun w => String.eqb (w_text w) t) words).

Definition max_occurrences (words : list TimedWord) : nat :=
  list_max (map (fun w => count_text (w_text w) words) words).

(** The value of [key] in a [word_freq] dict, 0 when it is missing. *)
Fixpoint freq_get (key : string) (word_freq : list (string * nat)) : nat :=
  match word_freq with
  | [] => 0
  | (k, n) :: rest => if String.eqb k key then n else freq_get key rest
  end.

(** Five words: two sentences and a tail. *)
Definition hi_there : list TimedWord :=
  [(0, 1, "Hi"); (1, 2, " there."); (2, 3, " 3."); (3, 4, " ok!");
   (4, 5, " x")]%float.

(** A processor in sentence mode with one committed word that closes no
    sentence, over sixteen samples of audio, with the threshold at one
    millisecond. *)
Definition one_open_word : OnlineASRProcessor.t :=
  OnlineASRProcessor.mk
    (repeat 0%float 16) 16
    (HypothesisBuffer.mk [(0, 0.001, "Hi")%float] [] [] 0.001%float (Some "Hi"))
    0%float "" [] [(0, 0.001, "Hi")%float] "sentence" 0.001%float.

(** A wrapper in segment mode, as its constructor leaves it, and the same
    while a voice is heard. *)
Definition vac_example : VACOnlineASRProcessor.t :=
  VACOnlineASRProcessor.mk
    0.0005%float (OnlineASRProcessor.init "segment" 0.001%float None)
    0 false None [] 0.

Definition vac_in_voice : VACOnlineASRProcessor.t :=
  VACOnlineASRProcessor.mk
    0.0005%float (OnlineASRProcessor.init "segment" 0.001%float None)
    0 false (Some "voice") [] 0.

(** The test [self.status == "voice"] of the wrapper, and whether the
    detector's answer is the single event [key]. *)
Definition in_voice (s : VACOnlineASRProcessor.t) : bool :=
  match VACOnlineASRProcessor.status s with
  | Some st => String.eqb st "voice"
  | None => false
  end.

Definition is_event (key : string) (res : option (list (string * Z))) : bool :=
  match res with
  | Some [(k, _)] => String.eqb k key
  | _ => false
  end.

(** What happens to a web stream: writes, and polls with
    [get_new_content].  [web_run] gives the stream after the operations
    and the answers of the polls, in order. *)
Inductive web_op : Type :=
| WebWrite (text : string) (is_complete : bool)
| WebPoll.

Fixpoint web_run (ops : list web_op) (o : Translation.OutputStream)
  : Translation.OutputStream * list (option (string * string)) :=
  match ops with
  | [] => (o, [])
  | WebWrite text is_complete :: ops' =>
      web_run ops' (Translation.write o text is_complete)
  | WebPoll :: ops' =>
      let '(answer, o') := WebOutputStream.get_new_content o in
      let '(final, answers) := web_run ops' o' in
      (final, answer :: answers)
  end.

(** The complete texts among the operations, as shown on the web; the
    operations after the last poll; the last incomplete text, as shown. *)
Definition web_complete (ops : list web_op) : list string :=
  flat_map (fun op => match op with
                      | WebWrite text true => [Translation.modify_for_web text]
                      | _ => []
                      end) ops.

Fixpoint after_last_poll (ops : list web_op) : list web_op :=
  match ops with
  | [] => []
  | op :: rest =>
      if existsb (fun op => match op with WebPoll => true | _ => false end) rest
      then after_last_poll rest
      else match op with
           | WebPoll => rest
           | _ => op :: rest
           end
  end.

Definition web_incomplete (ops : list web_op) : string :=
  last (flat_map (fun op => match op with
                            | WebWrite text false =>
                                [Translation.modify_for_web text]
                            | _ => []
                            end) ops) "".

(** The items of a queue that the worker hands to the translators: the
    complete ones, and the last one. *)
Fixpoint dispatched (queue : list (TimedSegment * bool))
  : list (TimedSegment * bool) :=
  match queue with
  | [] => []
  | (seg, is_complete) :: rest =>
      if is_complete || Nat.eqb (List.length rest) 0
      then (seg, is_complete) :: dispatched rest
      else dispatched rest
  end.

(** The line the worker writes to its log for an item. *)
Definition log_line (item : TimedSegment * bool) : string :=
  ((if snd item then "[ Complete ] " else "[Incomplete] ")
     ++ s_text (fst item))%string.

Definition is_poll (op : web_op) : bool :=
  match op with WebPoll => true | _ => false end.

(** The writes a stream receives, one after the other. *)
Definition write_all (writes : list (string * bool))
           (o : Translation.OutputStream) : Translation.OutputStream :=
  fold_left (fun o w => Translation.write o (fst w) (snd w)) writes o.

(** The complete texts among the writes. *)
Definition complete_texts (writes : list (string * bool)) : list string :=
  map fst (filter snd writes).

(** The queue sizes the worker reports for the items it drops. *)
Fixpoint dropped_sizes (queue : list (TimedSegment * bool)) : list nat :=
  match queue with
  | [] => []
  | (_, is_complete) :: rest =>
      if is_complete || Nat.eqb (List.length rest) 0
      then dropped_sizes rest
      else List.length rest :: dropped_sizes rest
  end.

(** The translators after they were handed the items, one after the
    other. *)
Definition serve_all (m : Translation.MTModel) (name : string)
           (items : list (TimedSegment * bool))
           (Ts : list Translation.OnlineTranslator.t)
  : list Translation.OnlineTranslator.t :=
  fold_left
    (fun Ts item =>
       map (served m
                   (if contains "m2m100" name
                    then Translation.Tokenized (s_text (fst item))
                    else Translation.Plain (s_text (fst item)))
                   (snd item)) Ts)
    items Ts.

(** A string of ASCII characters, on which [upper] changes the letters
    [a] to [z] and nothing else. *)
Definition ascii_only (s : string) : Prop :=
  Forall (fun c => nat_of_ascii c < 128) (list_ascii_of_string s).

(** A character that has all the bytes its first byte announces, and a text
    none of whose characters is cut short, as the UTF-8 form of a [str]
    is. *)
Definition whole_char (c : string) : bool :=
  match c with
  | EmptyString => false
  | String a tail => Nat.eqb (String.length tail) (char_width a - 1)
  end.

Definition whole_chars (s : string) : Prop :=
  Forall (fun c => whole_char c = true) (chars s).

(** [s.count(c)] for a one-character [c]. *)
Definition occurrences (c s : string) : nat :=
  List.length (filter (String.eqb c) (chars s)).

(** A second prompt example, on a text that is not ASCII: the Cyrillic
    letter ya, U+044F, two bytes in UTF-8; a word made of [n] copies of a
    text; and the processor of the prompt example after it has heard such a
    word, then " world.", twice. *)
Definition ya : string := String "209" (String "143" EmptyString).

Definition times (n : nat) (text : string) : string := join "" (repeat text n).

Definition said_twice (word : string) : OnlineASRProcessor.t :=
  let asr : OnlineASRProcessor.ASR :=
    fun _ _ => [(0, 0.0005, word); (0.0005, 0.001, " world.")]%float in
  let once :=
    snd (OnlineASRProcessor.process_iter
           asr
           (sixteen_more (OnlineASRProcessor.init "segment" 0.001%float None)))
  in
  snd (OnlineASRProcessor.process_iter asr (sixteen_more once)).

(** * Properties *)

(** ** Text *)

Section Text.

Lemma append_empty_r (s : string) : (s ++ "")%string = s.
Proof. induction s as [|c s IH]; cbn; congruence. Qed.

Lemma string_app_assoc (a b c : string) :
  ((a ++ b) ++ c = a ++ b ++ c)%string.
Proof. induction a as [|x a IH]; cbn; congruence. Qed.

Lemma join_empty_cons (x : string) (l : list string) :
  join "" (x :: l) = (x ++ join "" l)%string.
Proof. destruct l; cbn [join]; [now rewrite append_empty_r | reflexivity]. Qed.

Lemma join_empty_app (l1 l2 : list string) :
  join "" (l1 ++ l2) = (join "" l1 ++ join "" l2)%string.
Proof.
  induction l1 as [|x l1 IH]; [reflexivity|].
  rewrite <- app_comm_cons, !join_empty_cons, IH.
  now rewrite string_app_assoc.
Qed.

(** The characters of a text, put together again, are the text. *)
Lemma chars_aux_join (s : string) :
  forall k,
    (fst (chars_aux k s) ++ join "" (snd (chars_aux k s)))%string = s.
Proof.
  induction s as [|a s IH]; intros k; [reflexivity|].
  cbn [chars_aux]. destruct k as [|k].
  - specialize (IH (char_width a - 1)).
    destruct (chars_aux (char_width a - 1) s) as [cur rest].
    cbn [fst snd] in *. rewrite join_empty_cons. cbn. now rewrite IH.
  - specialize (IH k). destruct (chars_aux k s) as [cur rest].
    cbn [fst snd] in *. cbn. now rewrite IH.
Qed.

Lemma chars_aux_0 (s : string) : chars_aux 0 s = (EmptyString, chars s).
Proof.
  unfold chars. destruct s as [|a s]; [reflexivity|].
  cbn [chars_aux]. now destruct (chars_aux (char_width a - 1) s).
Qed.

Lemma join_chars (s : string) : join "" (chars s) = s.
Proof.
  pose proof (chars_aux_join s 0) as H. rewrite chars_aux_0 in H. exact H.
Qed.

(** What is left of the characters of a text when some are dropped from
    the front are the characters of a text. *)
Lemma chars_aux_skipn (s : string) :
  forall k n, exists s2, skipn n (snd (chars_aux k s)) = chars s2.
Proof.
  induction s as [|a s IH]; intros k n.
  - exists EmptyString. cbn. now destruct n.
  - cbn [chars_aux]. destruct k as [|k].
    + destruct n as [|n].
      * exists (String a s). unfold chars. cbn [chars_aux skipn]. reflexivity.
      * destruct (IH (char_width a - 1) n) as [s2 H]. exists s2.
        destruct (chars_aux (char_width a - 1) s) as [cur rest].
        exact H.
    + destruct (IH k n) as [s2 H]. exists s2.
      destruct (chars_aux k s) as [cur rest]. exact H.
Qed.

Lemma chars_skipn (n : nat) (s : string) :
  chars (join "" (skipn n (chars s))) = skipn n (chars s).
Proof.
  destruct (chars_aux_skipn s 0 n) as [s2 H]. fold (chars s) in H.
  rewrite H. now rewrite join_chars.
Qed.

(** The characters of [s[k:]] are a slice of the characters of [s]. *)
Lemma chars_slice_from (k : Z) (s : string) :
  chars (str_slice_from k s) = slice_from k (chars s).
Proof. unfold str_slice_from, slice_from. apply chars_skipn. Qed.

(** A character that is read to its end is read alone. *)
Lemma chars_aux_exact (s : string) :
  forall k, String.length s = k -> chars_aux k s = (s, []).
Proof.
  induction s as [|a s IH]; intros k H; [reflexivity|].
  cbn [String.length] in H. subst k. cbn [chars_aux]. now rewrite IH.
Qed.

Lemma chars_whole_char (c : string) : whole_char c = true -> chars c = [c].
Proof.
  destruct c as [|a tail]; [discriminate|]. cbn [whole_char]. intros H.
  apply Nat.eqb_eq in H. unfold chars. cbn [chars_aux].
  now rewrite (chars_aux_exact tail _ H).
Qed.

(** Behind a text whose characters are whole, the characters of what
    follows are read as they are on their own. *)
Lemma chars_aux_app (a b : string) :
  forall k,
    String.length (fst (chars_aux k a)) = k ->
    Forall (fun c => whole_char c = true) (snd (chars_aux k a)) ->
    chars_aux k (a ++ b)
    = (fst (chars_aux k a), snd (chars_aux k a) ++ chars b).
Proof.
  induction a as [|x a IH]; intros k Hk Hall.
  - cbn in Hk. subst k. cbn [append chars_aux fst snd app].
    apply chars_aux_0.
  - cbn [append chars_aux] in *. destruct k as [|k].
    + specialize (IH (char_width x - 1)).
      destruct (chars_aux (char_width x - 1) a) as [cur rest].
      cbn [fst snd] in *. inversion Hall as [|c l Hc Hrest]; subst.
      cbn [whole_char] in Hc. apply Nat.eqb_eq in Hc.
      rewrite (IH Hc Hrest). reflexivity.
    + specialize (IH k). destruct (chars_aux k a) as [cur rest].
      cbn [fst snd String.length] in *.
      rewrite (IH (eq_add_S _ _ Hk) Hall). reflexivity.
Qed.

Lemma chars_app (a b : string) :
  whole_chars a -> chars (a ++ b) = chars a ++ chars b.
Proof.
  intros H. unfold chars at 1.
  rewrite (chars_aux_app a b 0); [reflexivity| |exact H].
  now rewrite chars_aux_0.
Qed.

Lemma chars_join (l : list string) :
  Forall whole_chars l -> chars (join "" l) = flat_map chars l.
Proof.
  induction 1 as [|x l Hx _ IH]; [reflexivity|].
  rewrite join_empty_cons, (chars_app _ _ Hx), IH. reflexivity.
Qed.

(** [replace], character by character. *)
Lemma chars_replace_char (old new s : string) :
  whole_chars s -> whole_chars new ->
  chars (replace_char old new s)
  = flat_map (fun c => if String.eqb c old then chars new else [c]) (chars s).
Proof.
  intros Hs Hnew. unfold replace_char. rewrite chars_join.
  - rewrite flat_map_concat_map, map_map, <- flat_map_concat_map.
    unfold whole_chars in Hs. induction Hs as [|c l Hc _ IH]; [reflexivity|].
    cbn [flat_map]. rewrite IH. f_equal.
    destruct (String.eqb c old); [reflexivity | now apply chars_whole_char].
  - apply Forall_map. unfold whole_chars in Hs. revert Hs.
    apply Forall_impl. intros c Hc.
    destruct (String.eqb c old); [exact Hnew|].
    unfold whole_chars. rewrite (chars_whole_char c Hc). now constructor.
Qed.

Lemma whole_replace_char (old new s : string) :
  whole_chars s -> whole_chars new -> whole_chars (replace_char old new s).
Proof.
  intros Hs Hnew. unfold whole_chars at 1.
  rewrite (chars_replace_char old new s Hs Hnew).
  unfold whole_chars in Hs. induction Hs as [|c l Hc _ IH]; [constructor|].
  cbn [flat_map]. apply Forall_app. split; [|exact IH].
  destruct (String.eqb c old); [exact Hnew | now constructor].
Qed.

(** A replaced character is gone, and any other character that the new
    text does not bring occurs as often as before. *)
Lemma occurrences_replace_char (c old new s : string) :
  whole_chars s -> whole_chars new ->
  occurrences c new = 0 ->
  occurrences c (replace_char old new s)
  = if String.eqb c old then 0 else occurrences c s.
Proof.
  intros Hs Hnew H0. unfold occurrences in *.
  rewrite (chars_replace_char old new s Hs Hnew).
  induction (chars s) as [|x l IH].
  - cbn. now destruct (String.eqb c old).
  - cbn [flat_map]. rewrite filter_app, length_app, IH.
    destruct (String.eqb x old) eqn:Ex.
    + rewrite H0. apply String.eqb_eq in Ex. subst x.
      cbn [filter]. destruct (String.eqb c old) eqn:Ec; [reflexivity|].
      reflexivity.
    + cbn [filter]. destruct (String.eqb c x) eqn:Ecx.
      * apply String.eqb_eq in Ecx. subst x. rewrite Ex. reflexivity.
      * cbn. now destruct (String.eqb c old).
Qed.

Lemma replace_char_absent (old new s : string) :
  occurrences old s = 0 -> replace_char old new s = s.
Proof.
  unfold occurrences, replace_char. intros H.
  rewrite <- (join_chars s) at 2. f_equal.
  induction (chars s) as [|x l IH]; [reflexivity|].
  cbn [filter map] in *. rewrite String.eqb_sym.
  destruct (String.eqb old x); [discriminate|]. now rewrite IH.
Qed.

End Text.

(** ** Hypothesis buffer: agreement of two successive hypotheses *)

Section Flush.

Import HypothesisBuffer.

Lemma tuple_eta (w : TimedWord) : (w_beg w, w_end w, w_text w) = w.
Proof. now destruct w as [[a b] t]. Qed.

Lemma last_cons_default {A} (x : A) (l : list A) (d : A) :
  last (x :: l) d = last l x.
Proof.
  revert x d. induction l as [|y l IH]; intros x d; [reflexivity|].
  change (last (x :: y :: l) d) with (last (y :: l) d).
  now rewrite !IH.
Qed.

(** The loop of [flush] stops after exactly [common_prefix_len] turns. *)
Lemma flush_loop_prefix (nw : list TimedWord) :
  forall buf commit time word,
    let k := common_prefix_len buf nw in
    flush_loop nw buf commit time word
    = mk_fs (skipn k nw) (skipn k buf) (commit ++ firstn k nw)
            (last (map w_end (firstn k nw)) time)
            (last (map (fun w => Some (w_text w)) (firstn k nw)) word).
Proof.
  induction nw as [|[[na nb] nt] nw IH]; intros buf commit time word k.
  - subst k. destruct buf; cbn; now rewrite app_nil_r.
  - subst k. destruct buf as [|b0 buf].
    + cbn. now rewrite app_nil_r.
    + cbn [common_prefix_len flush_loop].
      change (w_text (na, nb, nt)) with nt.
      destruct (String.eqb nt (w_text b0)) eqn:E.
      * rewrite IH. cbn [skipn firstn map].
        rewrite <- app_assoc, !last_cons_default. reflexivity.
      * cbn. now rewrite app_nil_r.
Qed.

(** [common_prefix_len] is the length of a common prefix... *)
Lemma common_prefix_len_agrees (pending incoming : list TimedWord) :
  let k := common_prefix_len pending incoming in
  k <= List.length pending /\ k <= List.length incoming /\
  map w_text (firstn k incoming) = map w_text (firstn k pending).
Proof.
  revert incoming.
  induction pending as [|p pending IH]; intros [|n incoming]; simpl;
    try (repeat split; auto with arith; fail).
  destruct (String.eqb_spec (w_text n) (w_text p)) as [E|E]; simpl.
  - destruct (IH incoming) as (H1 & H2 & H3).
    repeat split; auto with arith. now rewrite E, H3.
  - repeat split; auto with arith.
Qed.

(** ... and no common prefix is longer. *)
Lemma common_prefix_len_longest (pending incoming : list TimedWord) (j : nat) :
  j <= List.length pending -> j <= List.length incoming ->
  map w_text (firstn j incoming) = map w_text (firstn j pending) ->
  j <= common_prefix_len pending incoming.
Proof.
  revert incoming j.
  induction pending as [|p pending IH]; intros [|n incoming] [|j]; simpl;
    intros Hp Hn Heq; try lia.
  injection Heq as Ht Hrest.
  rewrite Ht, String.eqb_refl.
  apply le_n_S, IH; auto with arith.
Qed.

(** The loop stops at a mismatch, or when a side is empty. *)
Lemma common_prefix_len_stops (pending incoming : list TimedWord) :
  let k := common_prefix_len pending incoming in
  match skipn k pending, skipn k incoming with
  | p :: _, n :: _ => w_text n <> w_text p
  | _, _ => True
  end.
Proof.
  revert incoming.
  induction pending as [|p pending IH]; intros [|n incoming]; simpl; auto.
  destruct (String.eqb_spec (w_text n) (w_text p)) as [E|E]; simpl; auto.
  apply IH.
Qed.

End Flush.

(** C1. [flush] returns the longest common prefix, by word text, of the
    previous hypothesis ([buffer], the spec's pending) and the current one
    ([new], the spec's incoming): the first [k] words of [new], where the
    first [k] texts of both lists agree, no longer prefix agrees, and the
    words after the prefix differ in text unless one side is exhausted.
    The rest of [new] becomes [buffer], [new] is emptied, and the returned
    words are appended to [commited_in_buffer].  After inserting
    hello-world and then hello-world-today into an empty buffer, with a
    flush after each, the second flush returns hello and world, and
    [complete()] returns today. *)
Theorem flush_longest_common_prefix :
  (forall self : HypothesisBuffer.t,
      let pending := HypothesisBuffer.buffer self in
      let incoming := HypothesisBuffer.new self in
      let k := common_prefix_len pending incoming in
      let self' := fst (HypothesisBuffer.flush self) in
      let commit := snd (HypothesisBuffer.flush self) in
      (k <= List.length pending /\ k <= List.length incoming /\
       map w_text (firstn k incoming) = map w_text (firstn k pending)) /\
      (forall j, j <= List.length pending -> j <= List.length incoming ->
                 map w_text (firstn j incoming) = map w_text (firstn j pending) ->
                 j <= k) /\
      match skipn k pending, skipn k incoming with
      | p :: _, n :: _ => w_text n <> w_text p
      | _, _ => True
      end /\
      commit = firstn k incoming /\
      HypothesisBuffer.buffer self' = skipn k incoming /\
      HypothesisBuffer.complete self' = skipn k incoming /\
      HypothesisBuffer.new self' = [] /\
      HypothesisBuffer.commited_in_buffer self'
      = HypothesisBuffer.commited_in_buffer self ++ commit /\
      HypothesisBuffer.last_commited_time self'
      = last (map w_end commit) (HypothesisBuffer.last_commited_time self))
  /\
  (let s1 := fst (HypothesisBuffer.flush
                    (HypothesisBuffer.insert HypothesisBuffer.init
                                             hello_world 0%float)) in
   let r2 := HypothesisBuffer.flush
               (HypothesisBuffer.insert s1 hello_world_today 0%float) in
   snd r2 = [(0.0, 0.5, "hello"); (0.5, 1.0, "world")]%float /\
   HypothesisBuffer.complete (fst r2) = [(1.0, 1.5, "today")]%float).
Proof.
  split.
  - intros self pending incoming k self' commit.
    assert (Hloop := flush_loop_prefix incoming pending []
                       (HypothesisBuffer.last_commited_time self)
                       (HypothesisBuffer.last_commited_word self)).
    cbv zeta in Hloop. fold k in Hloop.
    subst self' commit. unfold HypothesisBuffer.flush, HypothesisBuffer.complete.
    fold pending incoming. rewrite Hloop. simpl.
    split; [apply common_prefix_len_agrees|].
    split; [apply common_prefix_len_longest|].
    split; [apply common_prefix_len_stops|].
    repeat split; reflexivity.
  - vm_compute. split; reflexivity.
Qed.

(** ** Hypothesis buffer: the same hypothesis twice *)

Section SameHypothesisTwice.

Import HypothesisBuffer.

Lemma common_prefix_len_same (l : list TimedWord) :
  common_prefix_len l l = List.length l.
Proof.
  induction l as [|w l IH]; [reflexivity|].
  cbn [common_prefix_len List.length]. now rewrite String.eqb_refl, IH.
Qed.

(** With nothing committed, [insert] only shifts and filters. *)
Lemma insert_nothing_commited (self : t) (h : list TimedWord) (offset : float) :
  commited_in_buffer self = [] ->
  insert self h offset
  = with_new self (filter (after_commited self) (map (shift offset) h)).
Proof.
  intros Hc. unfold insert. rewrite Hc.
  destruct (filter _ _) as [|[[a b] t] rest]; [reflexivity|].
  now destruct (abs (a - last_commited_time self) <? 1)%float.
Qed.

End SameHypothesisTwice.

(** C9, counterexample.  For the one-word hypothesis hello, the first flush
    returns nothing and the second flush returns the word: the commits come
    from the second flush, not from the first. *)
Lemma same_hypothesis_twice_counterexample :
  let h := [(0.0, 0.5, "hello")]%float in
  let r1 := HypothesisBuffer.flush
              (HypothesisBuffer.insert HypothesisBuffer.init h 0%float) in
  let r2 := HypothesisBuffer.flush
              (HypothesisBuffer.insert (fst r1) h 0%float) in
  snd r1 = [] /\ snd r2 = [(0.0, 0.5, "hello")]%float /\ snd r2 <> [].
Proof. vm_compute. repeat split; discriminate. Qed.

(** C9, as the code has it.  On a new buffer, [insert(h, 0); flush();
    insert(h, 0); flush()] commits nothing at the first flush, where no
    earlier hypothesis is there to agree with, and the second flush returns
    every word of [h] (shifted by the offset 0) whose start is above
    [last_commited_time - 0.1], that is above [-0.1]; nothing is left
    pending. *)
Theorem same_hypothesis_twice (h : list TimedWord) :
  let r1 := HypothesisBuffer.flush
              (HypothesisBuffer.insert HypothesisBuffer.init h 0%float) in
  let r2 := HypothesisBuffer.flush
              (HypothesisBuffer.insert (fst r1) h 0%float) in
  let kept := filter (fun w => ((0 - 0.1) <? w_beg w)%float)
                     (map (HypothesisBuffer.shift 0%float) h) in
  snd r1 = [] /\
  snd r2 = kept /\
  HypothesisBuffer.commited_in_buffer (fst r2) = kept /\
  HypothesisBuffer.complete (fst r2) = [].
Proof.
  intros r1 r2 kept.
  assert (Hkept : filter (HypothesisBuffer.after_commited HypothesisBuffer.init)
                         (map (HypothesisBuffer.shift 0%float) h) = kept).
  { subst kept. apply filter_ext. now intros [[a b] t]. }
  assert (H1 : r1 = (HypothesisBuffer.mk [] kept [] 0%float None, [])).
  { subst r1. rewrite insert_nothing_commited by reflexivity. rewrite Hkept.
    unfold HypothesisBuffer.flush. rewrite flush_loop_prefix. reflexivity. }
  assert (H2 : r2 = (HypothesisBuffer.mk kept [] []
                       (last (map w_end kept) 0%float)
                       (last (map (fun w => Some (w_text w)) kept) None),
                     kept)).
  { subst r2. rewrite H1. cbn [fst].
    rewrite insert_nothing_commited by reflexivity.
    change (filter _ _) with
      (filter (HypothesisBuffer.after_commited HypothesisBuffer.init)
              (map (HypothesisBuffer.shift 0%float) h)).
    rewrite Hkept.
    unfold HypothesisBuffer.flush, HypothesisBuffer.with_new.
    cbn [HypothesisBuffer.new HypothesisBuffer.buffer
         HypothesisBuffer.commited_in_buffer
         HypothesisBuffer.last_commited_time
         HypothesisBuffer.last_commited_word].
    rewrite flush_loop_prefix, common_prefix_len_same.
    rewrite firstn_all, skipn_all. reflexivity. }
  rewrite H1, H2. repeat split; reflexivity.
Qed.

(** ** Hypothesis buffer: removal of words repeated from the commit *)

Section NgramOverlap.

Import HypothesisBuffer.

Lemma skipn_nth_cons {A} (d : A) (l : list A) (n : nat) :
  n < List.length l -> skipn n l = nth n l d :: skipn (S n) l.
Proof.
  revert n. induction l as [|x l IH]; intros n Hn; [simpl in Hn; lia|].
  destruct n as [|n]; [reflexivity|].
  simpl in Hn. cbn [skipn nth]. apply IH. lia.
Qed.

Lemma firstn_snoc_nth {A} (d : A) (l : list A) (n : nat) :
  n < List.length l -> firstn (S n) l = firstn n l ++ [nth n l d].
Proof.
  revert n. induction l as [|x l IH]; intros n Hn; [simpl in Hn; lia|].
  destruct n as [|n]; [reflexivity|].
  simpl in Hn. cbn [firstn nth app]. f_equal. apply IH. lia.
Qed.

(** The text [c] of the code is the join of the last [i] committed texts. *)
Lemma ngram_commited_lastn (commited : list TimedWord) (i : nat) :
  i <= List.length commited ->
  ngram_commited commited i = join " " (map w_text (lastn i commited)).
Proof.
  intros Hi. unfold ngram_commited, lastn. f_equal.
  induction i as [|i IH]; intros.
  - rewrite Nat.sub_0_r, skipn_all. reflexivity.
  - rewrite seq_S, map_app, rev_app_distr. cbn [map rev app].
    rewrite IH by lia. unfold index_from_end. cbn [Nat.add].
    rewrite (skipn_nth_cons dummy commited (List.length commited - S i)) by lia.
    replace (S (List.length commited - S i)) with (List.length commited - i) by lia.
    reflexivity.
Qed.

(** The text [tail] of the code is the join of the first [i] new texts. *)
Lemma ngram_new_firstn (nw : list TimedWord) (i : nat) :
  i <= List.length nw ->
  ngram_new nw i = join " " (map w_text (firstn i nw)).
Proof.
  intros Hi. unfold ngram_new. f_equal.
  induction i as [|i IH]; [reflexivity|].
  rewrite seq_S, map_app, IH by lia. cbn [map].
  replace (1 + i - 1) with i by lia.
  rewrite (firstn_snoc_nth dummy) by lia.
  now rewrite map_app.
Qed.

(** The loop over [start, start+1, ...] leaves at the first index whose two
    texts are equal. *)
Lemma ngram_loop_first (commited nw : list TimedWord) (count : nat) :
  forall start,
    (exists n, start <= n < start + count /\
               String.eqb (ngram_commited commited n) (ngram_new nw n) = true /\
               (forall m, start <= m < n ->
                          String.eqb (ngram_commited commited m) (ngram_new nw m)
                          = false) /\
               ngram_loop commited nw (seq start count) = skipn n nw)
    \/
    ((forall m, start <= m < start + count ->
                String.eqb (ngram_commited commited m) (ngram_new nw m) = false) /\
     ngram_loop commited nw (seq start count) = nw).
Proof.
  induction count as [|count IH]; intros start.
  - right. split; [intros m Hm; lia | reflexivity].
  - cbn [seq ngram_loop].
    destruct (String.eqb (ngram_commited commited start) (ngram_new nw start))
      eqn:E.
    + left. exists start. split; [lia|]. split; [exact E|].
      split; [intros m Hm; lia | reflexivity].
    + destruct (IH (S start)) as [(n & Hn & Hm & Hlt & Hr) | (Hall & Hr)].
      * left. exists n. split; [lia|]. split; [exact Hm|].
        split; [|exact Hr].
        intros m Hm'. destruct (Nat.eq_dec m start) as [->|]; auto.
        apply Hlt. lia.
      * right. split; auto.
        intros m Hm'. destruct (Nat.eq_dec m start) as [->|]; auto.
        apply Hall. lia.
Qed.

(** Splitting at the first space is unambiguous. *)
Lemma append_space_inj (x y r1 r2 : string) :
  spaceless x -> spaceless y ->
  (x ++ " " ++ r1)%string = (y ++ " " ++ r2)%string -> x = y /\ r1 = r2.
Proof.
  unfold spaceless. revert y.
  induction x as [|c x IH]; intros [|c' y] Hx Hy H; cbn in *.
  - injection H as ->. auto.
  - injection H as <- _. exfalso. apply Hy. now left.
  - injection H as -> _. exfalso. apply Hx. now left.
  - injection H as -> H. destruct (IH y) as [-> ->]; auto.
Qed.

Lemma join_spaceless_inj (xs : list string) :
  forall ys, List.length xs = List.length ys ->
             Forall spaceless xs -> Forall spaceless ys ->
             join " " xs = join " " ys -> xs = ys.
Proof.
  induction xs as [|x xs IH]; intros [|y ys] Hlen Hx Hy H;
    try discriminate; [reflexivity|].
  inversion Hx as [|? ? Hx1 Hx2]; inversion Hy as [|? ? Hy1 Hy2]; subst.
  destruct xs as [|x2 xs], ys as [|y2 ys]; try discriminate.
  - cbn in H. now subst.
  - change (join " " (x :: x2 :: xs)) with (x ++ " " ++ join " " (x2 :: xs))%string in H.
    change (join " " (y :: y2 :: ys)) with (y ++ " " ++ join " " (y2 :: ys))%string in H.
    destruct (append_space_inj _ _ _ _ Hx1 Hy1 H) as [-> Hrest].
    f_equal. apply IH; auto.
Qed.

End NgramOverlap.

(** C2, counterexample.  Committed bye bye, incoming bye bye now, close in
    time.  The last two committed texts equal the first two incoming ones,
    and two is the largest count in range; the code removes one word only,
    since its loop leaves at the first match. *)
Lemma insert_overlap_counterexample :
  let self := HypothesisBuffer.mk
                [(0.0, 0.5, "bye"); (0.5, 1.0, "bye")]%float [] []
                1.0%float (Some "bye") in
  let incoming := [(1.0, 1.2, "bye"); (1.2, 1.4, "bye"); (1.4, 1.6, "now")]%float in
  let kept := filter (HypothesisBuffer.after_commited self)
                     (map (HypothesisBuffer.shift 0%float) incoming) in
  HypothesisBuffer.commited_in_buffer self <> [] /\
  kept = incoming /\
  (abs (1.0 - HypothesisBuffer.last_commited_time self) <? 1)%float = true /\
  Nat.min (Nat.min (List.length (HypothesisBuffer.commited_in_buffer self))
                   (List.length kept)) 5 = 2 /\
  map w_text (lastn 2 (HypothesisBuffer.commited_in_buffer self))
  = map w_text (firstn 2 kept) /\
  HypothesisBuffer.new (HypothesisBuffer.insert self incoming 0%float)
  = skipn 1 kept /\
  HypothesisBuffer.new (HypothesisBuffer.insert self incoming 0%float)
  <> skipn 2 kept.
Proof. vm_compute. repeat split; discriminate. Qed.

(** C2, as the code has it.  When [commited_in_buffer] is not empty, the
    filtered [new] is not empty and its first word starts less than one
    second from [last_commited_time]: among [n] in [1 .. min(cn, nn, 5)]
    such that the last [n] committed texts and the first [n] new texts,
    each joined with single spaces, are equal, the SMALLEST is taken and
    that many words are dropped from the front of [new]; when there is no
    such [n], [new] is unchanged.  Equal word lists give equal joined
    texts, and for texts without spaces the two comparisons coincide. *)
Theorem insert_drops_smallest_overlap
        (self : HypothesisBuffer.t) (hypothesis : list TimedWord)
        (offset : float) (first : TimedWord) (rest : list TimedWord) :
  HypothesisBuffer.commited_in_buffer self <> [] ->
  filter (HypothesisBuffer.after_commited self)
         (map (HypothesisBuffer.shift offset) hypothesis) = first :: rest ->
  (abs (w_beg first - HypothesisBuffer.last_commited_time self) <? 1)%float
  = true ->
  let commited := HypothesisBuffer.commited_in_buffer self in
  let incoming := first :: rest in
  let bound := Nat.min (Nat.min (List.length commited) (List.length incoming)) 5 in
  let result := HypothesisBuffer.new
                  (HypothesisBuffer.insert self hypothesis offset) in
  smallest_overlap_dropped commited incoming bound result
  /\
  (forall n, map w_text (lastn n commited) = map w_text (firstn n incoming) ->
             ngram_overlap commited incoming n)
  /\
  (Forall (fun w => spaceless (w_text w)) commited ->
   Forall (fun w => spaceless (w_text w)) incoming ->
   forall n, n <= bound ->
             ngram_overlap commited incoming n ->
             map w_text (lastn n commited) = map w_text (firstn n incoming)).
Proof.
  intros Hc Hf Hclose commited incoming bound result.
  assert (Hres : result = HypothesisBuffer.ngram_loop commited incoming (seq 1 bound)).
  { subst result. unfold HypothesisBuffer.insert. rewrite Hf.
    destruct first as [[a b] t]. cbn [w_beg fst] in Hclose. rewrite Hclose.
    fold commited. destruct commited as [|c0 commited'] eqn:Ec;
      [now elim Hc|].
    reflexivity. }
  assert (Heqb : forall m, m <= bound ->
            (String.eqb (HypothesisBuffer.ngram_commited commited m)
                        (HypothesisBuffer.ngram_new incoming m) = true
             <-> ngram_overlap commited incoming m)).
  { intros m Hm. unfold ngram_overlap.
    rewrite ngram_commited_lastn, ngram_new_firstn by (subst bound; lia).
    apply String.eqb_eq. }
  split; [|split].
  - unfold smallest_overlap_dropped. rewrite Hres.
    destruct (ngram_loop_first commited incoming bound 1)
      as [(n & Hn & Hm & Hlt & Hr) | (Hall & Hr)].
    + left. exists n. split; [lia|]. split; [apply Heqb; [lia|exact Hm]|].
      split; [|exact Hr].
      intros m Hm' Ho. apply Heqb in Ho; [|lia].
      rewrite Hlt in Ho by lia. discriminate.
    + right. split; [|exact Hr].
      intros m Hm Ho. apply Heqb in Ho; [|lia].
      rewrite Hall in Ho by lia. discriminate.
  - intros n Hn. unfold ngram_overlap. now rewrite Hn.
  - intros Hsc Hsi n Hn Ho. unfold ngram_overlap in Ho.
    apply join_spaceless_inj; auto.
    + unfold lastn. rewrite !length_map, length_skipn, length_firstn.
      subst bound. lia.
    + apply Forall_map. unfold lastn.
      apply Forall_forall. intros w Hw.
      rewrite Forall_forall in Hsc. apply Hsc.
      rewrite <- (firstn_skipn (List.length commited - n) commited).
      apply in_or_app. now right.
    + apply Forall_map. apply Forall_forall. intros w Hw.
      rewrite Forall_forall in Hsi. apply Hsi.
      rewrite <- (firstn_skipn n incoming). apply in_or_app. now left.
Qed.

(** The theorem at the buffer and hypothesis of the counterexample: one
    word is dropped, where two overlap as well. *)
Lemma insert_drops_smallest_overlap_witness :
  let self := HypothesisBuffer.mk
                [(0.0, 0.5, "bye"); (0.5, 1.0, "bye")]%float [] []
                1.0%float (Some "bye") in
  let incoming := [(1.0, 1.2, "bye"); (1.2, 1.4, "bye"); (1.4, 1.6, "now")]%float in
  smallest_overlap_dropped (HypothesisBuffer.commited_in_buffer self)
                           incoming 2
                           [(1.2, 1.4, "bye"); (1.4, 1.6, "now")]%float.
Proof.
  intros self incoming.
  assert (Hc : HypothesisBuffer.commited_in_buffer self <> []) by discriminate.
  exact (proj1 (insert_drops_smallest_overlap
                  self incoming 0%float (1.0, 1.2, "bye")%float
                  [(1.2, 1.4, "bye"); (1.4, 1.6, "now")]%float
                  Hc eq_refl eq_refl)).
Defined.

(** ** Hypothesis buffer: order of the committed end times *)

Section CommitOrder.

Import HypothesisBuffer.

Lemma Forall_skipn_keeps {A} (P : A -> Prop) (n : nat) (l : list A) :
  Forall P l -> Forall P (skipn n l).
Proof.
  revert l. induction n as [|n IH]; intros [|x l] H; cbn; auto.
  inversion H; auto.
Qed.

Lemma Forall_firstn_keeps {A} (P : A -> Prop) (n : nat) (l : list A) :
  Forall P l -> Forall P (firstn n l).
Proof.
  revert l. induction n as [|n IH]; intros [|x l] H; cbn; auto.
  inversion H; auto.
Qed.

Lemma ngram_loop_suffix (commited nw : list TimedWord) (idxs : list nat) :
  exists n, ngram_loop commited nw idxs = skipn n nw.
Proof.
  induction idxs as [|i idxs IH]; cbn.
  - now exists 0.
  - destruct (String.eqb _ _); [now exists i | exact IH].
Qed.

Lemma last_app_default {A} (l1 l2 : list A) (d : A) :
  last (l1 ++ l2) d = last l2 (last l1 d).
Proof.
  revert d. induction l1 as [|x l1 IH]; intros d; [reflexivity|].
  rewrite <- app_comm_cons, !last_cons_default. apply IH.
Qed.

(** [insert] leaves the committed side alone, and what it puts in [new] is
    a part of the filtered hypothesis. *)
Lemma insert_new_suffix (self : t) (h : list TimedWord) (offset : float) :
  commited_in_buffer (insert self h offset) = commited_in_buffer self /\
  last_commited_time (insert self h offset) = last_commited_time self /\
  exists n, new (insert self h offset)
            = skipn n (filter (after_commited self) (map (shift offset) h)).
Proof.
  unfold insert.
  destruct (filter _ _) as [|[[a b] t0] rest] eqn:Ef.
  - repeat split. now exists 0.
  - destruct (abs (a - last_commited_time self) <? 1)%float.
    + destruct (commited_in_buffer self) eqn:Ec.
      * unfold with_new; cbn [commited_in_buffer last_commited_time new].
        rewrite Ec. repeat split. now exists 0.
      * unfold with_new; cbn [commited_in_buffer last_commited_time new].
        rewrite Ec. repeat split. apply ngram_loop_suffix.
    + repeat split. now exists 0.
Qed.

Lemma insert_invariant (self : t) (h : list TimedWord) (offset : float) :
  buffer_invariant self -> buffer_invariant (insert self h offset).
Proof.
  intros [_ Htime].
  destruct (insert_new_suffix self h offset) as (Hc & Ht & n & Hn).
  split.
  - rewrite Hn. apply Forall_skipn_keeps, Forall_forall.
    intros w Hw. apply filter_In in Hw. destruct Hw as [_ Hw].
    unfold within_tolerance. rewrite Ht.
    now destruct w as [[a b] t0].
  - now rewrite Hc, Ht.
Qed.

Lemma flush_invariant (self : t) :
  buffer_invariant self ->
  buffer_invariant (fst (flush self)) /\
  Forall (within_tolerance self) (snd (flush self)) /\
  commited_in_buffer (fst (flush self))
  = commited_in_buffer self ++ snd (flush self).
Proof.
  intros [Hnew Htime].
  unfold flush. rewrite flush_loop_prefix. cbn.
  split; [split|split].
  - constructor.
  - cbn. rewrite map_app, last_app_default. now rewrite <- Htime.
  - now apply Forall_firstn_keeps.
  - reflexivity.
Qed.

Lemma run_ops_invariant (ops : list buffer_op) :
  forall self,
    buffer_invariant self ->
    buffer_invariant (fst (run_ops ops self)) /\
    commited_in_buffer (fst (run_ops ops self))
    = commited_in_buffer self ++ snd (run_ops ops self).
Proof.
  induction ops as [|[h offset|] ops IH]; intros self Hinv.
  - cbn. split; [exact Hinv | now rewrite app_nil_r].
  - cbn [run_ops].
    destruct (IH _ (insert_invariant self h offset Hinv)) as [H1 H2].
    split; [exact H1|].
    rewrite H2. f_equal. apply insert_new_suffix.
  - cbn [run_ops].
    destruct (flush_invariant self Hinv) as (Hi & _ & Hc).
    destruct (flush self) as [self' commit]. cbn [fst snd] in *.
    destruct (IH self' Hi) as [H1 H2].
    destruct (run_ops ops self') as [final commits]. cbn [fst snd] in *.
    split; [exact H1|].
    now rewrite H2, Hc, app_assoc.
Qed.

End CommitOrder.

(** C4, counterexample.  The word so (ending at 1.0) is committed by two
    agreeing hypotheses; then the word yes, from 0.95 to 0.97, passes the
    test of [insert] (0.95 is above 1.0 - 0.1) and is committed by two
    agreeing hypotheses: the end times 1.0, 0.97 step down. *)
Lemma committed_ends_counterexample :
  let h1 := [(0.0, 1.0, "so")]%float in
  let h2 := [(0.95, 0.97, "yes")]%float in
  let ops := [Insert h1 0%float; Flush; Insert h1 0%float; Flush;
              Insert h2 0%float; Flush; Insert h2 0%float; Flush] in
  let commits := snd (run_ops ops HypothesisBuffer.init) in
  commits = [(0.0, 1.0, "so"); (0.95, 0.97, "yes")]%float /\
  nondecreasing (map w_end commits) = false.
Proof. vm_compute. split; reflexivity. Qed.

(** C4, as the code has it.  After any sequence of inserts and flushes on a
    new buffer, [commited_in_buffer] holds the words the flushes returned,
    [last_commited_time] is the end of the last of them (0 when there is
    none), and every word the next flush returns starts above
    [last_commited_time - 0.1].  The end times themselves are not compared
    anywhere. *)
Theorem flush_within_tolerance (ops : list buffer_op) :
  let self := fst (run_ops ops HypothesisBuffer.init) in
  let commits := snd (run_ops ops HypothesisBuffer.init) in
  HypothesisBuffer.commited_in_buffer self = commits /\
  HypothesisBuffer.last_commited_time self = last (map w_end commits) 0%float /\
  Forall (fun w => ((last (map w_end commits) 0 - 0.1) <? w_beg w)%float = true)
         (snd (HypothesisBuffer.flush self)).
Proof.
  intros self commits.
  assert (Hinit : buffer_invariant HypothesisBuffer.init)
    by (split; [constructor | reflexivity]).
  destruct (run_ops_invariant ops _ Hinit) as [[Hnew Htime] Hc].
  fold self commits in Hnew, Htime, Hc. cbn in Hc.
  assert (Hinv : buffer_invariant self) by (split; assumption).
  split; [exact Hc|]. split; [now rewrite Htime, Hc|].
  destruct (flush_invariant self Hinv) as (_ & Hf & _).
  rewrite <- Hc, <- Htime. exact Hf.
Qed.

(** ** Sentence segmenter *)

Section Segmenter.

(** A pattern that matches at the start is found by a search. *)
Lemma match_here_search (p : list (string -> bool)) (cs : list string) :
  match_here p cs = true -> search_from p cs = true.
Proof. intros H. destruct cs; cbn [search_from]; now rewrite H. Qed.

Lemma re_match_search (p : list (string -> bool)) (s : string) :
  re_match p s = true -> re_search p s = true.
Proof. apply match_here_search. Qed.

(** Where a pattern is found, the pattern without its first class is found
    too. *)
Lemma re_search_tail (c : string -> bool) (p : list (string -> bool))
      (s : string) :
  re_search (c :: p) s = true -> re_search p s = true.
Proof.
  unfold re_search. induction (chars s) as [|a cs IH]; [discriminate|].
  cbn [search_from]. intros H. apply orb_prop in H.
  assert (Hs : search_from p cs = true).
  { destruct H as [H|H]; [|now apply IH].
    cbn [match_here] in H. apply andb_prop in H.
    now apply match_here_search. }
  rewrite Hs. apply orb_true_r.
Qed.

Lemma dot_is_stop_mark (c : string) : dot c = true -> stop_mark c = true.
Proof. unfold dot, stop_mark. now intros ->. Qed.

Lemma re_search_dot_stop_mark (s : string) :
  re_search [dot] s = true -> re_search [stop_mark] s = true.
Proof.
  unfold re_search. induction (chars s) as [|c cs IH]; [discriminate|].
  cbn [search_from match_here]. intros H. apply orb_prop in H.
  destruct H as [H|H].
  - apply andb_prop in H. destruct H as [H _].
    now rewrite (dot_is_stop_mark c H).
  - rewrite (IH H). apply orb_true_r.
Qed.

(** A word with a full stop in front: stripped when the word is a list,
    [TypeError] when it is a tuple; in neither case the end of a sentence. *)
Lemma sentence_step_leading_dot (w : TimedWord) :
  re_match [dot] (w_text w) = true ->
  sentence_step true w
  = Ok ((w_beg w, w_end w, str_slice_from 1 (w_text w)), false) /\
  sentence_step false w = Raise TypeError.
Proof.
  intros H. unfold sentence_step.
  rewrite (re_search_dot_stop_mark _ (re_match_search _ _ H)).
  rewrite (re_match_search _ _ H), H. split; reflexivity.
Qed.

(** A word with three full stops in a row, not in front: kept as it is,
    and not the end of a sentence. *)
Lemma sentence_step_ellipsis (mutable : bool) (w : TimedWord) :
  re_match [dot] (w_text w) = false ->
  re_search [dot; dot; dot] (w_text w) = true ->
  sentence_step mutable w = Ok (w, false).
Proof.
  intros H0 H. unfold sentence_step. rewrite H0, H.
  assert (Hd : re_search [dot] (w_text w) = true)
    by now apply re_search_tail, re_search_tail in H.
  rewrite Hd, (re_search_dot_stop_mark _ Hd). reflexivity.
Qed.

(** A word with a digit before a full stop, and no full stop in front: kept
    as it is, and not the end of a sentence. *)
Lemma sentence_step_digit_dot (mutable : bool) (w : TimedWord) :
  re_match [dot] (w_text w) = false ->
  re_search [digit; dot] (w_text w) = true ->
  sentence_step mutable w = Ok (w, false).
Proof.
  intros H0 H. unfold sentence_step. rewrite H0, H.
  assert (Hd : re_search [dot] (w_text w) = true)
    by now apply re_search_tail in H.
  rewrite Hd, (re_search_dot_stop_mark _ Hd). cbn.
  now destruct (re_search [dot; dot; dot] (w_text w)).
Qed.

Lemma last_seg_of_word (l : list TimedWord) (d : TimedWord) :
  last (map seg_of_word l) (seg_of_word d) = seg_of_word (last l d).
Proof.
  revert d. induction l as [|x l IH]; intros d; [reflexivity|].
  cbn [map]. rewrite !last_cons_default. apply IH.
Qed.

(** Joining words never fails: their timestamps are numbers. *)
Lemma concatenate_words_ok (words : list TimedWord) :
  exists s, concatenate_words words = Ok s.
Proof.
  unfold concatenate_words, concatenate_tsw.
  destruct words as [|w words]; [eexists; reflexivity|].
  cbn [map].
  change (seg_of_word w :: map seg_of_word words)
    with (map seg_of_word (w :: words)).
  rewrite last_seg_of_word.
  destruct w as [[a b] t], (last (_ :: words) _) as [[a' b'] t'].
  eexists. reflexivity.
Qed.

(** Once a word has gone through the loop, [break_sentence] is bound, and
    the loop raises nothing but the [TypeError] of the item assignment. *)
Lemma sentences_loop_bound (mutable : bool) (words : list TimedWord) :
  forall all_sentences sentence b,
    match sentences_loop mutable words all_sentences sentence (Some b) with
    | Ok (_, _, Some _) => True
    | Ok (_, _, None) => False
    | Raise e => e = TypeError
    end.
Proof.
  induction words as [|w words IH]; intros all_sentences sentence b;
    [exact I|].
  cbn [sentences_loop].
  assert (Hstep : sentence_step mutable w = Raise TypeError
                  \/ exists r, sentence_step mutable w = Ok r).
  { unfold sentence_step.
    repeat match goal with
           | |- context [if ?c then _ else _] => destruct c
           end; eauto. }
  destruct Hstep as [-> | [[w' brk] ->]]; [reflexivity|].
  cbn [Py.bind fst snd]. destruct brk.
  - destruct (concatenate_words_ok (sentence ++ [w'])) as [s ->].
    cbn [Py.bind]. apply IH.
  - apply IH.
Qed.

End Segmenter.

(** C10.  On the empty word list [words_to_sentences] does not return
    [([], [])]: the loop body never runs, [break_sentence] is still unbound
    at the final test, and the call ends in an [UnboundLocalError], for
    words of either representation.  With at least one word the variable
    is bound and that error cannot occur. *)
Theorem words_to_sentences_empty_unbound (mutable : bool) :
  words_to_sentences mutable [] = Raise UnboundLocalError /\
  words_to_sentences mutable [] <> Ok ([], []) /\
  (forall w words,
      words_to_sentences mutable (w :: words) <> Raise UnboundLocalError).
Proof.
  split; [reflexivity|]. split; [discriminate|].
  intros w words. unfold words_to_sentences. cbn [sentences_loop].
  assert (Hstep : sentence_step mutable w = Raise TypeError
                  \/ exists r, sentence_step mutable w = Ok r).
  { unfold sentence_step.
    repeat match goal with
           | |- context [if ?c then _ else _] => destruct c
           end; eauto. }
  destruct Hstep as [-> | [[w' brk] ->]]; [discriminate|].
  cbn [Py.bind fst snd app].
  assert (Hloop := sentences_loop_bound mutable words).
  destruct brk.
  - destruct (concatenate_words_ok [w']) as [s ->]. cbn [Py.bind].
    specialize (Hloop ([] ++ [s]) [] true).
    destruct (sentences_loop _ _ _ _ _) as [[[a s0] [[|]|]]|e]; cbn;
      try discriminate; try contradiction. now subst e.
  - specialize (Hloop [] [w'] false).
    destruct (sentences_loop _ _ _ _ _) as [[[a s0] [[|]|]]|e]; cbn;
      try discriminate; try contradiction. now subst e.
Qed.

(** C5, on the code.  A word with three full stops keeps them: the value of
    [w[2].replace("...", ...)] is dropped, so the text that comes out is the
    text that went in, with no ellipsis character.  A word with a full stop
    in front is stripped only when it is a list; for the tuples that the
    hypothesis buffer builds the item assignment raises [TypeError].  The
    word ["3."] stays and closes no sentence. *)
Theorem segmenter_keeps_three_dots :
  (forall mutable,
      words_to_sentences mutable [(0.0, 1.0, "wait...")%float]
      = Ok ([], [(0.0, 1.0, "wait...")%float])) /\
  words_to_sentences false [(0.0, 1.0, ".Hi")%float] = Raise TypeError /\
  words_to_sentences true [(0.0, 1.0, ".Hi")%float]
  = Ok ([], [(0.0, 1.0, "Hi")%float]) /\
  (forall mutable,
      words_to_sentences mutable [(0.0, 1.0, "3.")%float]
      = Ok ([], [(0.0, 1.0, "3.")%float])).
Proof.
  split; [intros []; reflexivity|].
  split; [reflexivity|].
  split; [reflexivity|].
  intros []; reflexivity.
Qed.

(** ** Online ASR processor: trimming at a word boundary (segment mode) *)

Section SegmentTrim.

Import OnlineASRProcessor.

(** Comparison of the specified floats is antisymmetric. *)
Lemma SFcompare_antisym (x y : spec_float) :
  SFcompare x y = option_map CompOpp (SFcompare y x).
Proof.
  destruct x as [sx|sx| |sx mx ex], y as [sy|sy| |sy my ey]; cbn;
    try reflexivity;
    try (destruct sx; reflexivity); try (destruct sy; reflexivity);
    try (destruct sx, sy; reflexivity).
  destruct sx, sy; try reflexivity; cbn;
    rewrite (Z.compare_antisym ey ex);
    destruct (ey ?= ex)%Z; cbn; try reflexivity;
    change (Pos.compare_cont Eq mx my) with (Pos.compare mx my);
    change (Pos.compare_cont Eq my mx) with (Pos.compare my mx);
    rewrite (Pos.compare_antisym my mx);
    destruct (my ?= mx)%positive; reflexivity.
Qed.

(** [x >= y] excludes [x < y]. *)
Lemma float_ge_not_lt (x y : float) :
  (y <=? x)%float = true -> (x <? y)%float = false.
Proof.
  rewrite FloatAxioms.leb_spec, FloatAxioms.ltb_spec. unfold SFleb, SFltb.
  rewrite (SFcompare_antisym (Prim2SF x) (Prim2SF y)).
  destruct (SFcompare (Prim2SF y) (Prim2SF x)) as [[| |]|]; cbn;
    congruence.
Qed.

(** The loop of [chunk_completed_segment] ends, within its fuel, with a
    prefix of [ends] of some length [k >= 2]: every longer prefix had its
    last but one element above [t], and the loop stopped either at two
    elements or at a last but one element not above [t]. *)
Lemma pop_ends_spec (t : float) (fuel : nat) :
  forall ends,
    2 <= List.length ends -> List.length ends <= fuel + 2 ->
    exists k,
      2 <= k <= List.length ends /\
      pop_ends fuel ends (index_from_end 0%float ends 2) t
      = (firstn k ends, nth (k - 2) ends 0%float) /\
      (forall L, k < L <= List.length ends ->
                 (t <? nth (L - 2) ends 0)%float = true) /\
      (k = 2 \/ (t <? nth (k - 2) ends 0)%float = false).
Proof.
  induction fuel as [|fuel IH]; intros ends Hlo Hhi.
  - exists (List.length ends). cbn [pop_ends]. unfold index_from_end.
    rewrite firstn_all.
    split; [lia|]. split; [do 2 f_equal; lia|].
    split; [intros L HL; lia | left; lia].
  - cbn [pop_ends].
    destruct ((2 <? List.length ends)%nat
              && (t <? index_from_end 0 ends 2)%float) eqn:Econd.
    + apply andb_prop in Econd. destruct Econd as [Hlen He].
      apply Nat.ltb_lt in Hlen.
      assert (Hrl : List.length (removelast ends) = List.length ends - 1).
      { rewrite removelast_firstn_len, length_firstn. lia. }
      destruct (IH (removelast ends)) as (k & Hk & Hpop & Hall & Hstop);
        try lia.
      exists k. rewrite Hrl in Hk.
      assert (Hnth : forall i, i < List.length ends - 1 ->
                nth i (removelast ends) 0%float = nth i ends 0%float).
      { intros i Hi. rewrite removelast_firstn_len, nth_firstn.
        destruct (Nat.ltb_spec i (Nat.pred (List.length ends))); [reflexivity|lia]. }
      split; [lia|]. split; [|split].
      * rewrite Hpop. f_equal.
        -- rewrite removelast_firstn_len, firstn_firstn. f_equal. lia.
        -- apply Hnth. lia.
      * intros L HL.
        destruct (Nat.eq_dec L (List.length ends)) as [->|Hne].
        -- exact He.
        -- rewrite <- Hnth by lia. apply Hall. lia.
      * destruct Hstop as [->|Hstop]; [now left|].
        right. rewrite <- Hnth by lia. exact Hstop.
    + exists (List.length ends). unfold index_from_end in *.
      rewrite firstn_all.
      split; [lia|]. split; [reflexivity|].
      split; [intros L HL; lia|].
      apply andb_false_iff in Econd. destruct Econd as [Hlen|He].
      * apply Nat.ltb_ge in Hlen. left; lia.
      * now right.
Qed.

(** [chunk_at] when the cut position is an integer [k]. *)
Lemma chunk_at_ok (time : float) (self : t) (k : Z) :
  Py.int ((time - buffer_time_offset self) * SAMPLING_RATE)%float = Ok k ->
  chunk_at time self
  = (Ok tt,
     mk (slice_from k (audio_buffer self))
        (len_audio_buffer_last_transcribed self)
        (HypothesisBuffer.pop_commited (transcript_buffer self) time)
        time (promt self) (final_transcript self) (commited_not_final self)
        (buffer_trimming_way self) (buffer_trimming_sec self)).
Proof.
  intros Hk. unfold chunk_at, mbind, modify, get, lift.
  cbn [set_transcript_buffer buffer_time_offset]. rewrite Hk. reflexivity.
Qed.

(** In segment mode with a buffer that is long enough,
    [get_completed_words] is [chunk_completed_segment] on
    [commited_not_final]. *)
Lemma get_completed_words_segment (self : t) :
  buffer_trimming_way self = "segment" ->
  (float_of_int (len (audio_buffer self)) / SAMPLING_RATE
   <? buffer_trimming_sec self)%float = false ->
  get_completed_words self
  = match chunk_completed_segment (commited_not_final self) self with
    | (Ok words, self') => (Ok (map seg_of_word words), self')
    | (Raise e, self') => (Raise e, self')
    end.
Proof.
  intros Hway Hlong.
  unfold get_completed_words, trim_by_length, mbind, get.
  rewrite Hway. cbn [String.eqb Ascii.eqb Bool.eqb]. rewrite Hlong.
  destruct (chunk_completed_segment _ self) as [[words|e] self'];
    [rewrite Hway|]; reflexivity.
Qed.

End SegmentTrim.

Section SegmentTrimTheorem.

Import OnlineASRProcessor.

Lemma nth_last_default {A} (l : list A) (d : A) :
  nth (List.length l - 1) l d = last l d.
Proof.
  induction l as [|x l IH]; [reflexivity|].
  destruct l as [|y l]; [reflexivity|].
  cbn [List.length Nat.sub] in *. rewrite Nat.sub_0_r in *.
  exact IH.
Qed.

(** [chunk_completed_segment] on at least two words, with the prefix length
    [k] that its loop ends on. *)
Lemma chunk_completed_segment_spec (words : list TimedWord) (self : t) :
  2 <= List.length words ->
  let t := w_end (last words HypothesisBuffer.dummy) in
  exists k,
    2 <= k <= List.length words /\
    (forall L, k < L <= List.length words ->
               (t <? w_end (nth (L - 2) words HypothesisBuffer.dummy))%float
               = true) /\
    (k = 2 \/
     (t <? w_end (nth (k - 2) words HypothesisBuffer.dummy))%float = false) /\
    let e := w_end (nth (k - 2) words HypothesisBuffer.dummy) in
    chunk_completed_segment words self
    = if (e <=? t)%float then
        match chunk_at e self with
        | (Ok _, s1) =>
            (Ok (firstn (k - 1) words),
             set_commited_not_final
               (skipn (k - 1) words)
               (set_final_transcript
                  (final_transcript s1
                   ++ map seg_of_word (firstn (k - 1) words)) s1))
        | (Raise x, s1) => (Raise x, s1)
        end
      else (Ok [], self).
Proof.
  intros Hlen t.
  assert (Hnth : forall i, nth i (map w_end words) 0%float
                           = w_end (nth i words HypothesisBuffer.dummy)).
  { intros i. change 0%float with (w_end HypothesisBuffer.dummy).
    apply map_nth. }
  destruct (pop_ends_spec t (List.length (map w_end words)) (map w_end words))
    as (k & Hk & Hpop & Hall & Hstop);
    rewrite ?length_map; try lia.
  rewrite length_map in Hk.
  exists k. split; [exact Hk|]. split; [|split].
  - intros L HL. rewrite <- Hnth. apply Hall. now rewrite length_map.
  - destruct Hstop as [->|Hstop]; [now left|]. right. now rewrite <- Hnth.
  - intros e. unfold chunk_completed_segment.
    destruct (Nat.leb_spec (List.length words) 1) as [Hle|_]; [lia|].
    unfold index_from_end in Hpop |- *. rewrite nth_last_default. fold t.
    rewrite Hpop, Hnth. fold e.
    destruct (e <=? t)%float; [|reflexivity].
    unfold mbind, modify, ret, slice_to.
    rewrite length_firstn, length_map.
    replace (Nat.min k (List.length words) - 1) with (k - 1) by lia.
    destruct (chunk_at e self) as [[[]|x] s1]; reflexivity.
Qed.

End SegmentTrimTheorem.

(** C3.  In segment mode, with [len(audio)/16000 >= buffer_trimming_sec]
    and [words = commited_not_final]: for at most one word
    [get_completed_words] returns the empty list and changes nothing.
    Otherwise, taking [t] as the end of the last word, the loop pops [ends]
    down to its first [k >= 2] elements, every popped length [L] having had
    [ends[L-2] > t], and it stops with two elements or with
    [e = ends[k-2]] not above [t].  When [e <= t] the processor chunks at
    [e] and commits [words[:k-1]] (appended to [final_transcript], removed
    from [commited_not_final], returned); when not, it returns the empty
    list.  For the words a, b, c, d of the scenario, a buffer of 12 seconds
    (192000 samples) and the threshold 10: a, b and c are committed and the
    buffers are cut at 10. *)
Theorem segment_mode_trim :
  (forall self : OnlineASRProcessor.t,
      OnlineASRProcessor.buffer_trimming_way self = "segment" ->
      (OnlineASRProcessor.buffer_trimming_sec self
       <=? float_of_int (len (OnlineASRProcessor.audio_buffer self))
           / OnlineASRProcessor.SAMPLING_RATE)%float = true ->
      let words := OnlineASRProcessor.commited_not_final self in
      let t := w_end (last words HypothesisBuffer.dummy) in
      (List.length words <= 1 ->
       OnlineASRProcessor.get_completed_words self = (Ok [], self)) /\
      (2 <= List.length words ->
       exists k,
         2 <= k <= List.length words /\
         (forall L, k < L <= List.length words ->
                    (t <? w_end (nth (L - 2) words HypothesisBuffer.dummy))%float
                    = true) /\
         (k = 2 \/
          (t <? w_end (nth (k - 2) words HypothesisBuffer.dummy))%float
          = false) /\
         let e := w_end (nth (k - 2) words HypothesisBuffer.dummy) in
         OnlineASRProcessor.get_completed_words self
         = if (e <=? t)%float then
             match OnlineASRProcessor.chunk_at e self with
             | (Ok _, s1) =>
                 (Ok (map seg_of_word (firstn (k - 1) words)),
                  OnlineASRProcessor.set_commited_not_final
                    (skipn (k - 1) words)
                    (OnlineASRProcessor.set_final_transcript
                       (OnlineASRProcessor.final_transcript s1
                        ++ map seg_of_word (firstn (k - 1) words)) s1))
             | (Raise x, s1) => (Raise x, s1)
             end
           else (Ok [], self)))
  /\
  (forall audio : list float,
      len audio = 192000%Z ->
      OnlineASRProcessor.get_completed_words (segment_example audio)
      = (Ok [(Some 0, Some 1, "a"); (Some 1, Some 2, "b");
             (Some 9.5, Some 10, "c")]%float,
         OnlineASRProcessor.mk
           (slice_from 160000 audio) (List.length audio)
           (HypothesisBuffer.mk [(10, 10.5, "d")]%float [] []
                                10.5%float (Some "d"))
           10%float ""
           [(Some 0, Some 1, "a"); (Some 1, Some 2, "b");
            (Some 9.5, Some 10, "c")]%float
           [(10, 10.5, "d")]%float "segment" 10%float)).
Proof.
  split.
  - intros self Hway Hlong words t.
    apply float_ge_not_lt in Hlong.
    rewrite (get_completed_words_segment self Hway Hlong). fold words.
    split.
    + intros Hle. unfold OnlineASRProcessor.chunk_completed_segment.
      destruct (Nat.leb_spec (List.length words) 1) as [_|Hgt]; [|lia].
      reflexivity.
    + intros Hge.
      destruct (chunk_completed_segment_spec words self Hge)
        as (k & Hk & Hall & Hstop & Heq).
      exists k. split; [exact Hk|]. split; [exact Hall|].
      split; [exact Hstop|].
      cbv zeta in Heq |- *. rewrite Heq.
      destruct (_ <=? _)%float; [|reflexivity].
      destruct (OnlineASRProcessor.chunk_at _ self) as [[[]|x] s1];
        reflexivity.
  - intros audio Hlen.
    assert (Hlong : (float_of_int (len (OnlineASRProcessor.audio_buffer
                                          (segment_example audio)))
                     / OnlineASRProcessor.SAMPLING_RATE
                     <? OnlineASRProcessor.buffer_trimming_sec
                          (segment_example audio))%float = false).
    { cbn [segment_example OnlineASRProcessor.audio_buffer
           OnlineASRProcessor.buffer_trimming_sec].
      rewrite Hlen. vm_compute. reflexivity. }
    rewrite (get_completed_words_segment (segment_example audio) eq_refl Hlong).
    cbn [segment_example OnlineASRProcessor.commited_not_final].
    unfold OnlineASRProcessor.chunk_completed_segment.
    change (List.length abcd <=? 1)%nat with false. cbv iota.
    set (p := OnlineASRProcessor.pop_ends _ _ _ _).
    vm_compute in p. subst p. cbv iota beta.
    set (c := (_ <=? _)%float). vm_compute in c. subst c. cbv iota.
    unfold OnlineASRProcessor.mbind at 1.
    rewrite (chunk_at_ok 10%float _ 160000%Z) by (vm_compute; reflexivity).
    reflexivity.
Qed.

(** The theorem on twelve seconds of silence: the scenario, and the same
    processor with the single word d left. *)
Lemma segment_mode_trim_witness :
  let silence := repeat 0%float (Z.to_nat 192000) in
  let one_word := OnlineASRProcessor.set_commited_not_final
                    [(10, 10.5, "d")%float] (segment_example silence) in
  fst (OnlineASRProcessor.get_completed_words (segment_example silence))
  = Ok [(Some 0, Some 1, "a"); (Some 1, Some 2, "b");
        (Some 9.5, Some 10, "c")]%float /\
  OnlineASRProcessor.get_completed_words one_word = (Ok [], one_word).
Proof.
  intros silence one_word.
  assert (Hlen : len silence = 192000%Z).
  { unfold len, silence. rewrite repeat_length. apply Z2Nat.id. discriminate. }
  split.
  - rewrite (proj2 segment_mode_trim silence Hlen). reflexivity.
  - apply (proj1 segment_mode_trim one_word).
    + reflexivity.
    + cbn [one_word segment_example OnlineASRProcessor.set_commited_not_final
           OnlineASRProcessor.audio_buffer
           OnlineASRProcessor.buffer_trimming_sec].
      rewrite Hlen. vm_compute. reflexivity.
    + cbn. lia.
Defined.

(** ** Online ASR processor: the prompt *)

Section Prompt.

Import OnlineASRProcessor.
Local Open Scope method_scope.

Lemma lastn_all {A} (n : nat) (l : list A) :
  List.length l <= n -> lastn n l = l.
Proof.
  intros H. unfold lastn. now replace (List.length l - n) with 0 by lia.
Qed.

Lemma slice_last_200 {A} (l : list A) : slice_from (-200) l = lastn 200 l.
Proof.
  unfold slice_from, lastn, len. change (-200 <? 0)%Z with true. cbv iota.
  f_equal. lia.
Qed.

(** The characters of [s[-200:]] are the last 200 characters of [s]. *)
Lemma str_slice_last_200 (s : string) :
  chars (str_slice_from (-200) s) = lastn 200 (chars s).
Proof. rewrite chars_slice_from. apply slice_last_200. Qed.

Lemma lastn_length {A} (n : nat) (l : list A) : List.length (lastn n l) <= n.
Proof. unfold lastn. rewrite length_skipn. lia. Qed.

Lemma keeps_ret {A} (a : A) : keeps_promt (ret a).
Proof. intros s. reflexivity. Qed.

Lemma keeps_lift {A} (r : result A) : keeps_promt (lift r).
Proof. intros s. reflexivity. Qed.

Lemma keeps_get : keeps_promt get.
Proof. intros s. reflexivity. Qed.

Lemma keeps_modify (f : t -> t) :
  (forall s, promt (f s) = promt s) -> keeps_promt (modify f).
Proof. intros H s. apply H. Qed.

Lemma keeps_bind {A B} (m : M A) (k : A -> M B) :
  keeps_promt m -> (forall a, keeps_promt (k a)) -> keeps_promt (mbind m k).
Proof.
  intros Hm Hk s. unfold mbind. specialize (Hm s).
  destruct (m s) as [[a|e] s']; cbn [snd] in *.
  - now rewrite Hk.
  - exact Hm.
Qed.

Create HintDb keeps_promt discriminated.

#[local] Hint Resolve keeps_ret keeps_lift keeps_get : keeps_promt.

Ltac keeps :=
  repeat first
    [ solve [auto with keeps_promt]
    | apply keeps_modify; intros; reflexivity
    | apply keeps_bind; [|intros]
    | match goal with
      | |- keeps_promt (if ?c then _ else _) => destruct c
      | |- keeps_promt (match ?x with _ => _ end) => destruct x
      | |- keeps_promt (let '(_, _) := ?x in _) => destruct x
      end ].

Lemma keeps_insert_audio_chunk audio : keeps_promt (insert_audio_chunk audio).
Proof. unfold insert_audio_chunk. keeps. Qed.

Lemma keeps_transcribe_audio_buffer asr : keeps_promt (transcribe_audio_buffer asr).
Proof. unfold transcribe_audio_buffer. keeps. Qed.

Lemma keeps_chunk_at time : keeps_promt (chunk_at time).
Proof. unfold chunk_at. keeps. Qed.

#[local] Hint Resolve keeps_transcribe_audio_buffer keeps_chunk_at : keeps_promt.

Lemma keeps_chunk_completed_segment words :
  keeps_promt (chunk_completed_segment words).
Proof. unfold chunk_completed_segment. keeps. Qed.

#[local] Hint Resolve keeps_chunk_completed_segment : keeps_promt.

Lemma keeps_trim_by_length : keeps_promt trim_by_length.
Proof. unfold trim_by_length. keeps. Qed.

#[local] Hint Resolve keeps_trim_by_length : keeps_promt.

Lemma keeps_get_completed_words : keeps_promt get_completed_words.
Proof. unfold get_completed_words. keeps. Qed.

Lemma keeps_finish asr : keeps_promt (finish asr).
Proof. unfold finish. keeps. Qed.

(** After [process_iter] the prompt is the old one, with the empty segment
    as the completed part of a normal return, or it is the last 200
    characters of the old prompt followed by the completed text. *)
Lemma process_iter_promt (asr : ASR) (s : t) :
  let r := process_iter asr s in
  (promt (snd r) = promt s /\
   forall c u, fst r = Ok (c, u) -> c = empty_segment)
  \/
  (exists text,
      promt (snd r) = str_slice_from (-200) (promt s ++ text) /\
      forall c u, fst r = Ok (c, u) -> s_text c = text).
Proof.
  cbv zeta. destruct (process_iter asr s) as [r s'] eqn:E. cbn [fst snd].
  unfold process_iter in E.
  unfold mbind at 1 in E.
  pose proof (keeps_transcribe_audio_buffer asr s) as H1.
  destruct (transcribe_audio_buffer asr s) as [[tsw|e] s1]; cbn [snd] in H1.
  2:{ injection E as <- <-. left. split; [exact H1 | intros; discriminate]. }
  destruct (Nat.eqb (List.length (check_words tsw)) 0).
  { injection E as <- <-. left. split; [exact H1|].
    intros c u H. now injection H as <- _. }
  cbv [mbind modify get] in E. cbn [fst snd] in E.
  destruct (HypothesisBuffer.flush _) as [hb commited_tsw].
  set (s2 := set_transcript_buffer hb _) in E.
  assert (H2 : promt s2 = promt s) by (subst s2; exact H1).
  clearbody s2.
  destruct (0 <? List.length commited_tsw)%nat.
  - pose proof (keeps_get_completed_words
                  (set_commited_not_final
                     (commited_not_final s2 ++ commited_tsw) s2)) as H3.
    destruct (get_completed_words _) as [[a|e] s3]; cbn [snd] in H3.
    + destruct (0 <? List.length a)%nat.
      * cbv [lift ret] in E.
        destruct (concatenate_tsw a None 0) as [a0|e].
        -- right. exists (s_text a0).
           repeat match type of E with
                  | context [match ?x with _ => _ end] => destruct x
                  end;
             injection E as <- <-; cbn [promt set_promt set_final_transcript];
             (split; [rewrite H3; cbn [promt set_commited_not_final];
                      now rewrite H2
                     | intros c u H; try discriminate;
                       now injection H as <- _]).
        -- left. injection E as <- <-.
           split; [|intros; discriminate].
           cbn [promt set_final_transcript]. rewrite H3.
           cbn [promt set_commited_not_final]. exact H2.
      * left. cbv [lift ret] in E.
        repeat match type of E with
               | context [match ?x with _ => _ end] => destruct x
               end;
          injection E as <- <-;
          (split; [rewrite H3; cbn [promt set_commited_not_final]; exact H2
                  | intros c u H; try discriminate; now injection H as <- _]).
    + left. injection E as <- <-.
      split; [|intros; discriminate].
      rewrite H3. cbn [promt set_commited_not_final]. exact H2.
  - left. cbv [lift ret] in E.
    repeat match type of E with
           | context [match ?x with _ => _ end] => destruct x
           end;
      injection E as <- <-;
      (split; [exact H2
              | intros c u H; try discriminate; now injection H as <- _]).
Qed.


End Prompt.

(** C6.  In every state an [OnlineASRProcessor] reaches, from its
    construction on and through any calls of [init], [insert_audio_chunk],
    [process_iter], [chunk_at] and [finish], the prompt has at most 200
    characters, [len(prompt) <= 200]; and a [process_iter] that returns
    leaves as prompt the last 200 characters of the old prompt followed by
    the text of the completed segment it returns, all of it when that has
    no more than 200 characters.  Characters, not bytes: a completed word
    of 120 Cyrillic letters, 240 bytes, is kept whole as the prompt, and of
    a word of 201 letters the last 200 are kept. *)
Theorem promt_at_most_200 :
  (forall s, reachable s ->
             (str_len (OnlineASRProcessor.promt s) <= 200)%Z) /\
  (forall s asr completed uncommitted s',
      reachable s ->
      OnlineASRProcessor.process_iter asr s
      = (Ok (completed, uncommitted), s') ->
      let joined := (OnlineASRProcessor.promt s ++ s_text completed)%string in
      chars (OnlineASRProcessor.promt s') = lastn 200 (chars joined) /\
      OnlineASRProcessor.promt s' = join "" (lastn 200 (chars joined)) /\
      ((str_len joined <= 200)%Z -> OnlineASRProcessor.promt s' = joined)) /\
  (OnlineASRProcessor.promt (said_twice (times 120 ya)) = times 120 ya /\
   String.length (times 120 ya) = 240 /\
   OnlineASRProcessor.promt (said_twice (times 201 ya)) = times 200 ya).
Proof.
  assert (Hinv : forall s, reachable s ->
                           List.length (chars (OnlineASRProcessor.promt s))
                           <= 200).
  { intros s Hs. induction Hs as [way sec s Hc|s offset _ _|s audio _ IH
                                  |s asr _ IH|s time _ IH|s asr _ IH].
    - unfold OnlineASRProcessor.create in Hc.
      repeat match type of Hc with
             | context [if ?c then _ else _] => destruct c
             end; try discriminate.
      injection Hc as <-. cbn. lia.
    - cbn. lia.
    - now rewrite keeps_insert_audio_chunk.
    - destruct (process_iter_promt asr s) as [[-> _]|(text & -> & _)];
        [exact IH|].
      rewrite str_slice_last_200. apply lastn_length.
    - now rewrite keeps_chunk_at.
    - now rewrite keeps_finish. }
  split; [intros s Hs; unfold str_len, len; specialize (Hinv s Hs); lia|].
  split; [|repeat split; vm_compute; reflexivity].
  intros s asr completed uncommitted s' Hs E joined.
  assert (Hp : OnlineASRProcessor.promt s' = str_slice_from (-200) joined).
  { subst joined.
    destruct (process_iter_promt asr s) as [[Hp Hc]|(text & Hp & Hc)];
      rewrite E in Hp, Hc; cbn [fst snd] in Hp, Hc.
    - rewrite (Hc _ _ eq_refl), Hp. cbn [s_text empty_segment snd].
      rewrite append_empty_r. unfold str_slice_from.
      rewrite slice_last_200, (lastn_all _ _ (Hinv s Hs)).
      symmetry. apply join_chars.
    - now rewrite (Hc _ _ eq_refl). }
  split; [rewrite Hp; apply str_slice_last_200|].
  split; [rewrite Hp; unfold str_slice_from; now rewrite slice_last_200|].
  intros Hlen. rewrite Hp. unfold str_slice_from.
  rewrite slice_last_200, lastn_all; [apply join_chars|].
  unfold str_len, len in Hlen. lia.
Qed.

(** The theorem on the prompt example: after the second iteration the
    prompt is the completed word. *)
Lemma promt_at_most_200_witness :
  (str_len (OnlineASRProcessor.promt heard_twice) <= 200)%Z /\
  OnlineASRProcessor.promt heard_twice = "Hello".
Proof.
  assert (H0 : reachable (OnlineASRProcessor.init "segment" 0.001%float None))
    by (apply (reach_create "segment" 0.001%float); reflexivity).
  assert (H1 : reachable (sixteen_more heard_once))
    by (apply reach_insert_audio_chunk, reach_process_iter,
          reach_insert_audio_chunk, H0).
  split.
  - apply (proj1 promt_at_most_200).
    apply reach_process_iter, H1.
  - assert (E : OnlineASRProcessor.process_iter hello_asr
                  (sixteen_more heard_once)
                = (Ok ((Some 0, Some 0.0005, "Hello")%float,
                       (Some 0.0005, Some 0.001, " world.")%float),
                   heard_twice))
      by (vm_compute; reflexivity).
    apply (proj2 (proj2 (proj1 (proj2 promt_at_most_200)
                           (sixteen_more heard_once) hello_asr _ _
                           heard_twice H1 E))).
    vm_compute. discriminate.
Defined.

(** ** Translation fan-out *)

Section FanOut.

Import Translation.

(** With a supported model name a translator always comes back with a
    text. *)
Lemma translate_prepared_text_ok (m : MTModel) (T : OnlineTranslator.t)
      (name : string) (prepared : prepared_text) :
  (contains "m2m100" name || String.eqb name "deepl") = true ->
  OnlineTranslator.model_name T = name ->
  prepared = (if contains "m2m100" name then Tokenized else Plain)
               (match prepared with Tokenized x | Plain x => x end) ->
  exists translation,
    OnlineTranslator.translate_prepared_text m T prepared = Ok translation.
Proof.
  intros Hname HT Hprep.
  unfold OnlineTranslator.translate_prepared_text,
    OnlineTranslator._translate_tokenized_text,
    OnlineTranslator._translate_with_deepl.
  rewrite HT.
  destruct (contains "m2m100" name) eqn:Em; cbn [negb].
  - rewrite Hprep. destruct (generate_decode _ _ _); eauto.
  - cbn [orb] in Hname. rewrite Hname.
    apply String.eqb_eq in Hname. subst name.
    cbn [String.eqb Ascii.eqb Bool.eqb negb].
    rewrite Hprep. destruct (translate_text _ _ _ _); eauto.
Qed.

Lemma translate_to_output_served (m : MTModel) (T : OnlineTranslator.t)
      (prepared : prepared_text) (is_complete : bool) (translation : string) :
  OnlineTranslator.translate_prepared_text m T prepared = Ok translation ->
  OnlineTranslator.translate_to_output m T prepared is_complete
  = Ok (served m prepared is_complete T).
Proof.
  intros H. unfold OnlineTranslator.translate_to_output, served, translation_of.
  rewrite H. reflexivity.
Qed.

Lemma dispatch_served (m : MTModel) (name : string)
      (Ts : list OnlineTranslator.t) (text : string) (is_complete : bool) :
  (contains "m2m100" name || String.eqb name "deepl") = true ->
  Forall (fun T => OnlineTranslator.model_name T = name) Ts ->
  let prepared := if contains "m2m100" name then Tokenized text
                  else Plain text in
  TranslationPipeline.dispatch m Ts prepared is_complete
  = (Ok tt, map (served m prepared is_complete) Ts).
Proof.
  intros Hname Hall prepared.
  induction Ts as [|T Ts IH]; [reflexivity|].
  inversion Hall as [|? ? HT HTs]; subst.
  cbn [TranslationPipeline.dispatch map].
  destruct (translate_prepared_text_ok
              m T (OnlineTranslator.model_name T) prepared Hname eq_refl)
    as [tr Htr].
  { subst prepared.
    now destruct (contains "m2m100" (OnlineTranslator.model_name T)). }
  rewrite (translate_to_output_served _ _ _ _ _ Htr).
  now rewrite (IH HTs).
Qed.

(** A served translator differs from what it was: its log is longer. *)
Lemma served_differs m prepared is_complete T :
  served m prepared is_complete T <> T.
Proof.
  intros H. apply (f_equal OnlineTranslator.log_file) in H.
  apply (f_equal (@List.length string)) in H.
  cbn in H. rewrite length_app in H. cbn in H. lia.
Qed.

End FanOut.

(** C7.  A turn of the translation worker on the item [(seg, is_complete)],
    with [queue_size] the length of the queue after the item was taken:
    when [is_complete] holds or [queue_size] is 0 every translator, in
    order, is handed the prepared text; otherwise the item is dropped, a
    warning with the queue size is all that happens and no translator
    changes.  Hence with an incomplete first, an incomplete second and a
    complete third item put in the queue before the worker runs, the
    translators get the third item only. *)
Theorem stale_incomplete_dropped :
  (forall (p : Translation.TranslationPipeline.t) seg is_complete rest,
      well_configured p ->
      Translation.TranslationPipeline.translation_queue p
      = (seg, is_complete) :: rest ->
      let queue_size := List.length rest in
      let r := Translation.TranslationPipeline.worker_turn p in
      fst r = Ok tt /\
      Translation.TranslationPipeline.translation_queue (snd r) = rest /\
      (is_complete || Nat.eqb queue_size 0 = true ->
       Translation.TranslationPipeline.translators (snd r)
       = map (served (Translation.TranslationPipeline.model p)
                     (Translation.TranslationPipeline.prepare p (s_text seg))
                     is_complete)
             (Translation.TranslationPipeline.translators p) /\
       Translation.TranslationPipeline.skipped (snd r)
       = Translation.TranslationPipeline.skipped p) /\
      (is_complete || Nat.eqb queue_size 0 = false ->
       Translation.TranslationPipeline.translators (snd r)
       = Translation.TranslationPipeline.translators p /\
       Translation.TranslationPipeline.skipped (snd r)
       = Translation.TranslationPipeline.skipped p ++ [queue_size]) /\
      (Translation.TranslationPipeline.translators p <> [] ->
       (Translation.TranslationPipeline.translators (snd r)
        <> Translation.TranslationPipeline.translators p
        <-> is_complete = true \/ queue_size = 0)))
  /\
  (forall (p : Translation.TranslationPipeline.t) seg1 seg2 seg3 p3,
      well_configured p ->
      Translation.TranslationPipeline.translation_queue p = [] ->
      (p1 <- Translation.TranslationPipeline.put_text p seg1 false ;;
       p2 <- Translation.TranslationPipeline.put_text p1 seg2 false ;;
       Translation.TranslationPipeline.put_text p2 seg3 true) = Ok p3 ->
      let r := Translation.TranslationPipeline.run_worker p3 in
      fst r = Ok tt /\
      Translation.TranslationPipeline.translators (snd r)
      = map (served (Translation.TranslationPipeline.model p)
                    (Translation.TranslationPipeline.prepare p (s_text seg3))
                    true)
            (Translation.TranslationPipeline.translators p) /\
      Translation.TranslationPipeline.skipped (snd r)
      = Translation.TranslationPipeline.skipped p ++ [2; 1] /\
      Translation.TranslationPipeline.translation_queue (snd r) = []).
Proof.
  split.
  - intros p seg is_complete rest [Hname Hall] Hq queue_size r.
    subst r. unfold Translation.TranslationPipeline.worker_turn.
    rewrite Hq. fold queue_size.
    pose proof (dispatch_served (Translation.TranslationPipeline.model p)
                  _ _ (s_text seg) is_complete Hname Hall) as Hd.
    cbv zeta in Hd. fold (Translation.TranslationPipeline.prepare p (s_text seg)) in Hd.
    destruct (is_complete || Nat.eqb queue_size 0) eqn:Ec.
    + rewrite Hd. cbn [fst snd Translation.TranslationPipeline.translators
                         Translation.TranslationPipeline.translation_queue
                         Translation.TranslationPipeline.skipped].
      split; [reflexivity|]. split; [reflexivity|].
      split; [intros _; split; reflexivity|].
      split; [discriminate|].
      intros Hne. split.
      * intros _. apply orb_prop in Ec. destruct Ec as [Ec|Ec]; [now left|].
        right. now apply Nat.eqb_eq.
      * intros _ Heq.
        destruct (Translation.TranslationPipeline.translators p) as [|T Ts];
          [now apply Hne|].
        cbn [map] in Heq. injection Heq as Heq _.
        now apply served_differs in Heq.
    + cbn [fst snd Translation.TranslationPipeline.translators
             Translation.TranslationPipeline.translation_queue
             Translation.TranslationPipeline.skipped].
      split; [reflexivity|]. split; [reflexivity|].
      split; [discriminate|].
      split; [intros _; split; reflexivity|].
      intros _. split; [intros H; now elim H|].
      apply orb_false_iff in Ec. destruct Ec as [Ec1 Ec2].
      apply Nat.eqb_neq in Ec2.
      intros [H|H]; [congruence|contradiction].
  - intros p seg1 seg2 seg3 p3 [Hname Hall] Hq Hput r. subst r.
    unfold Translation.TranslationPipeline.put_text in Hput.
    destruct (String.eqb (s_text seg1) ""); [discriminate|].
    cbn [Py.bind] in Hput.
    cbn [Translation.TranslationPipeline.model_name
           Translation.TranslationPipeline.model
           Translation.TranslationPipeline.log_file
           Translation.TranslationPipeline.original_output_streams
           Translation.TranslationPipeline.translators
           Translation.TranslationPipeline.translation_queue
           Translation.TranslationPipeline.skipped] in Hput.
    destruct (String.eqb (s_text seg2) ""); [discriminate|].
    cbn [Py.bind] in Hput.
    cbn [Translation.TranslationPipeline.model_name
           Translation.TranslationPipeline.model
           Translation.TranslationPipeline.log_file
           Translation.TranslationPipeline.original_output_streams
           Translation.TranslationPipeline.translators
           Translation.TranslationPipeline.translation_queue
           Translation.TranslationPipeline.skipped] in Hput.
    destruct (String.eqb (s_text seg3) ""); [discriminate|].
    injection Hput as <-. rewrite Hq.
    unfold Translation.TranslationPipeline.run_worker.
    cbn [app List.length Translation.TranslationPipeline.translation_queue
             Translation.TranslationPipeline.worker
             Translation.TranslationPipeline.worker_turn
             orb Nat.eqb fst snd
             Translation.TranslationPipeline.model_name
             Translation.TranslationPipeline.model
             Translation.TranslationPipeline.log_file
             Translation.TranslationPipeline.original_output_streams
             Translation.TranslationPipeline.translators
             Translation.TranslationPipeline.skipped].
    pose proof (dispatch_served (Translation.TranslationPipeline.model p)
                  _ _ (s_text seg3) true Hname Hall) as Hd.
    cbv zeta in Hd.
    unfold Translation.TranslationPipeline.prepare.
    cbn [Translation.TranslationPipeline.model_name].
    rewrite Hd.
    cbn [fst snd Translation.TranslationPipeline.translators
             Translation.TranslationPipeline.translation_queue
             Translation.TranslationPipeline.skipped
             Translation.TranslationPipeline.worker].
    split; [reflexivity|]. split; [reflexivity|].
    split; [|reflexivity].
    now rewrite <- !app_assoc.
Qed.

(** The theorem on the scenario: the worker hands the translators the third
    segment only, and its first turn, on the incomplete first segment with
    two items behind it, changes no translator. *)
Lemma stale_incomplete_dropped_witness :
  Translation.TranslationPipeline.translators
    (snd (Translation.TranslationPipeline.run_worker three_queued))
  = map (served echo_model (Translation.Tokenized "one two three.") true)
        (Translation.TranslationPipeline.translators two_language_pipeline)
  /\
  Translation.TranslationPipeline.translators
    (snd (Translation.TranslationPipeline.worker_turn three_queued))
  = Translation.TranslationPipeline.translators three_queued.
Proof.
  assert (Hwc : well_configured two_language_pipeline)
    by (split; [reflexivity | repeat constructor]).
  assert (Hwc3 : well_configured three_queued)
    by (split; [reflexivity | repeat constructor]).
  split.
  - exact (proj1 (proj2 (proj2 stale_incomplete_dropped
                           two_language_pipeline seg1 seg2 seg3 three_queued
                           Hwc eq_refl eq_refl))).
  - exact (proj1 (proj1 (proj2 (proj2 (proj2
             (proj1 stale_incomplete_dropped
                    three_queued seg1 false [(seg2, false); (seg3, true)]
                    Hwc3 eq_refl)))) eq_refl)).
Defined.

(** C8.  When the call into the model raises an exception, an m2m100
    translator and a translator on the hosted client both return the text
    ["[ Translation Error ]"] instead of raising, for any input and any
    target language; the translator then writes that text to its log and
    to each of its output streams, as it does with a translation. *)
Theorem translation_error_on_exception
        (m : Translation.MTModel) (T : Translation.OnlineTranslator.t) :
  (forall tokens message is_complete,
      contains "m2m100" (Translation.OnlineTranslator.model_name T) = true ->
      Translation.generate_decode m (Translation.OnlineTranslator.tgt_lang T)
                                  tokens
      = Translation.Throws message ->
      Translation.OnlineTranslator._translate_tokenized_text
        m T (Translation.Tokenized tokens) = Ok "[ Translation Error ]" /\
      Translation.OnlineTranslator.translate_prepared_text
        m T (Translation.Tokenized tokens) = Ok "[ Translation Error ]" /\
      exists T',
        Translation.OnlineTranslator.translate_to_output
          m T (Translation.Tokenized tokens) is_complete = Ok T' /\
        Translation.OnlineTranslator.output_streams T'
        = map (fun o => Translation.write o "[ Translation Error ]" is_complete)
              (Translation.OnlineTranslator.output_streams T))
  /\
  (forall text message is_complete,
      Translation.OnlineTranslator.model_name T = "deepl" ->
      Translation.translate_text
        m text
        (Translation.translate_language_code_for_deepl
           (Translation.OnlineTranslator.tgt_lang T))
        (Translation.translate_language_code_for_deepl
           (Translation.OnlineTranslator.src_lang T))
      = Translation.Throws message ->
      Translation.OnlineTranslator._translate_with_deepl
        m T (Translation.Plain text) = Ok "[ Translation Error ]" /\
      Translation.OnlineTranslator.translate_prepared_text
        m T (Translation.Plain text) = Ok "[ Translation Error ]" /\
      exists T',
        Translation.OnlineTranslator.translate_to_output
          m T (Translation.Plain text) is_complete = Ok T' /\
        Translation.OnlineTranslator.output_streams T'
        = map (fun o => Translation.write o "[ Translation Error ]" is_complete)
              (Translation.OnlineTranslator.output_streams T)).
Proof.
  split.
  - intros tokens message is_complete Hname Hthrow.
    assert (H1 : Translation.OnlineTranslator._translate_tokenized_text
                   m T (Translation.Tokenized tokens)
                 = Ok "[ Translation Error ]").
    { unfold Translation.OnlineTranslator._translate_tokenized_text.
      now rewrite Hname, Hthrow. }
    assert (H2 : Translation.OnlineTranslator.translate_prepared_text
                   m T (Translation.Tokenized tokens)
                 = Ok "[ Translation Error ]").
    { unfold Translation.OnlineTranslator.translate_prepared_text.
      now rewrite Hname. }
    split; [exact H1|]. split; [exact H2|].
    unfold Translation.OnlineTranslator.translate_to_output. rewrite H2.
    eexists. split; reflexivity.
  - intros text message is_complete Hname Hthrow.
    assert (H1 : Translation.OnlineTranslator._translate_with_deepl
                   m T (Translation.Plain text)
                 = Ok "[ Translation Error ]").
    { unfold Translation.OnlineTranslator._translate_with_deepl.
      now rewrite Hname, Hthrow. }
    assert (H2 : Translation.OnlineTranslator.translate_prepared_text
                   m T (Translation.Plain text)
                 = Ok "[ Translation Error ]").
    { unfold Translation.OnlineTranslator.translate_prepared_text.
      rewrite Hname. exact H1. }
    split; [exact H1|]. split; [exact H2|].
    unfold Translation.OnlineTranslator.translate_to_output. rewrite H2.
    eexists. split; reflexivity.
Qed.

(** The theorem on the failing text of the example model, for a translator
    to English on m2m100 and for one to German on the hosted client. *)
Lemma translation_error_on_exception_witness :
  Translation.OnlineTranslator.translate_prepared_text
    echo_model m2m100_translator (Translation.Tokenized "boom")
  = Ok "[ Translation Error ]" /\
  Translation.OnlineTranslator.translate_prepared_text
    echo_model deepl_translator (Translation.Plain "boom")
  = Ok "[ Translation Error ]".
Proof.
  split.
  - exact (proj1 (proj2 (proj1 (translation_error_on_exception
                                  echo_model m2m100_translator)
                           "boom" "out of memory" true eq_refl eq_refl))).
  - exact (proj1 (proj2 (proj2 (translation_error_on_exception
                                  echo_model deepl_translator)
                           "boom" "quota exceeded" true eq_refl eq_refl))).
Defined.

(** * Further properties of the code *)

(** ** Hypothesis buffer *)

Section BufferEdges.

Import HypothesisBuffer.

Lemma pop_commited_loop_split (commited : list TimedWord) (time : float) :
  exists dropped,
    commited = dropped ++ pop_commited_loop commited time /\
    Forall (fun w => (w_end w <=? time)%float = true) dropped /\
    match pop_commited_loop commited time with
    | [] => True
    | w :: _ => (w_end w <=? time)%float = false
    end.
Proof.
  induction commited as [|w commited IH].
  - exists []. repeat split. constructor.
  - cbn [pop_commited_loop]. destruct (w_end w <=? time)%float eqn:E.
    + destruct IH as (dropped & Hsplit & Hall & Hhead).
      exists (w :: dropped). split; [cbn; now rewrite <- Hsplit|].
      split; [now constructor | exact Hhead].
    + exists []. split; [reflexivity|]. split; [constructor | exact E].
Qed.

Lemma pop_commited_loop_again (commited : list TimedWord) (time : float) :
  pop_commited_loop (pop_commited_loop commited time) time
  = pop_commited_loop commited time.
Proof.
  destruct (pop_commited_loop_split commited time) as (_ & _ & _ & Hhead).
  destruct (pop_commited_loop commited time) as [|w rest]; [reflexivity|].
  cbn [pop_commited_loop]. now rewrite Hhead.
Qed.

End BufferEdges.

(** X1.  [pop_commited(time)] removes a front part of [commited_in_buffer]
    whose words all end at or before [time], stops at the first word that
    does not (words behind it stay, whatever their end), touches no other
    field ([buffer], [new], [last_commited_time], [last_commited_word]), and
    doing it again at the same [time] changes nothing. *)
Theorem pop_commited_front (self : HypothesisBuffer.t) (time : float) :
  let self' := HypothesisBuffer.pop_commited self time in
  (exists dropped,
      HypothesisBuffer.commited_in_buffer self
      = dropped ++ HypothesisBuffer.commited_in_buffer self' /\
      Forall (fun w => (w_end w <=? time)%float = true) dropped) /\
  match HypothesisBuffer.commited_in_buffer self' with
  | [] => True
  | w :: _ => (w_end w <=? time)%float = false
  end /\
  HypothesisBuffer.buffer self' = HypothesisBuffer.buffer self /\
  HypothesisBuffer.new self' = HypothesisBuffer.new self /\
  HypothesisBuffer.last_commited_time self'
  = HypothesisBuffer.last_commited_time self /\
  HypothesisBuffer.last_commited_word self'
  = HypothesisBuffer.last_commited_word self /\
  HypothesisBuffer.pop_commited self' time = self'.
Proof.
  cbv zeta.
  destruct (pop_commited_loop_split
              (HypothesisBuffer.commited_in_buffer self) time)
    as (dropped & Hsplit & Hall & Hhead).
  split; [exists dropped; split; [exact Hsplit | exact Hall]|].
  split; [exact Hhead|].
  repeat split.
  unfold HypothesisBuffer.pop_commited at 1.
  cbn [HypothesisBuffer.pop_commited HypothesisBuffer.commited_in_buffer
       HypothesisBuffer.buffer HypothesisBuffer.new
       HypothesisBuffer.last_commited_time
       HypothesisBuffer.last_commited_word].
  now rewrite pop_commited_loop_again.
Qed.

(** X2.  [insert] changes [new] only.  What it leaves in [new] is the
    shifted hypothesis, filtered on [start > last_commited_time - 0.1], less
    at most five words at its front; every word of it passed the filter. *)
Theorem insert_touches_new_only
        (self : HypothesisBuffer.t) (hypothesis : list TimedWord)
        (offset : float) :
  let self' := HypothesisBuffer.insert self hypothesis offset in
  let kept := filter (HypothesisBuffer.after_commited self)
                     (map (HypothesisBuffer.shift offset) hypothesis) in
  HypothesisBuffer.commited_in_buffer self'
  = HypothesisBuffer.commited_in_buffer self /\
  HypothesisBuffer.buffer self' = HypothesisBuffer.buffer self /\
  HypothesisBuffer.last_commited_time self'
  = HypothesisBuffer.last_commited_time self /\
  HypothesisBuffer.last_commited_word self'
  = HypothesisBuffer.last_commited_word self /\
  (exists n, n <= 5 /\ n <= List.length kept /\
             HypothesisBuffer.new self' = skipn n kept) /\
  Forall (within_tolerance self) (HypothesisBuffer.new self').
Proof.
  intros self' kept.
  assert (Hshape :
            self' = HypothesisBuffer.with_new self kept \/
            self' = HypothesisBuffer.with_new
                      self
                      (HypothesisBuffer.ngram_loop
                         (HypothesisBuffer.commited_in_buffer self) kept
                         (seq 1 (Nat.min
                                   (Nat.min
                                      (List.length
                                         (HypothesisBuffer.commited_in_buffer self))
                                      (List.length kept)) 5)))).
  { subst self'. unfold HypothesisBuffer.insert. fold kept.
    destruct kept as [|[[a b] t0] rest] eqn:Ek; [now left|].
    destruct (abs (a - HypothesisBuffer.last_commited_time self) <? 1)%float;
      [|now left].
    destruct (HypothesisBuffer.commited_in_buffer self); [now left|].
    now right. }
  assert (Hnew : exists n, n <= 5 /\ n <= List.length kept /\
                           HypothesisBuffer.new self' = skipn n kept).
  { destruct Hshape as [-> | ->]; cbn [HypothesisBuffer.new
                                         HypothesisBuffer.with_new].
    - exists 0. repeat split; lia.
    - destruct (ngram_loop_first
                  (HypothesisBuffer.commited_in_buffer self) kept
                  (Nat.min (Nat.min
                              (List.length
                                 (HypothesisBuffer.commited_in_buffer self))
                              (List.length kept)) 5) 1)
        as [(n & Hn & _ & _ & Hr) | (_ & Hr)].
      + exists n. repeat split; [lia | lia | exact Hr].
      + exists 0. repeat split; [lia | lia | exact Hr]. }
  split; [destruct Hshape as [-> | ->]; reflexivity|].
  split; [destruct Hshape as [-> | ->]; reflexivity|].
  split; [destruct Hshape as [-> | ->]; reflexivity|].
  split; [destruct Hshape as [-> | ->]; reflexivity|].
  split; [exact Hnew|].
  destruct Hnew as (n & _ & _ & ->).
  apply Forall_skipn_keeps, Forall_forall.
  intros w Hw. apply filter_In in Hw. destruct Hw as [_ Hw].
  unfold within_tolerance. now destruct w as [[a b] t0].
Qed.

(** X3.  A commit needs two hypotheses.  With nothing pending, [flush]
    returns no word and makes [new] the pending hypothesis.  And a second
    [flush] with no [insert] in between returns no word and discards what
    was pending. *)
Theorem flush_needs_two_hypotheses (self : HypothesisBuffer.t) :
  (HypothesisBuffer.buffer self = [] ->
   HypothesisBuffer.flush self
   = (HypothesisBuffer.mk
        (HypothesisBuffer.commited_in_buffer self)
        (HypothesisBuffer.new self) []
        (HypothesisBuffer.last_commited_time self)
        (HypothesisBuffer.last_commited_word self), [])) /\
  (let once := fst (HypothesisBuffer.flush self) in
   HypothesisBuffer.flush once
   = (HypothesisBuffer.mk
        (HypothesisBuffer.commited_in_buffer once) [] []
        (HypothesisBuffer.last_commited_time once)
        (HypothesisBuffer.last_commited_word once), [])).
Proof.
  split.
  - intros Hb. unfold HypothesisBuffer.flush.
    rewrite flush_loop_prefix, Hb.
    destruct (HypothesisBuffer.new self); cbn; now rewrite app_nil_r.
  - cbv zeta. unfold HypothesisBuffer.flush at 1 3.
    cbn [fst HypothesisBuffer.new HypothesisBuffer.buffer
         HypothesisBuffer.flush_loop HypothesisBuffer.fs_commit
         HypothesisBuffer.fs_new HypothesisBuffer.fs_time
         HypothesisBuffer.fs_word
         HypothesisBuffer.commited_in_buffer
         HypothesisBuffer.last_commited_time
         HypothesisBuffer.last_commited_word].
    now rewrite app_nil_r.
Qed.

(** The first part on a buffer that holds the first hello-world
    hypothesis in [new]. *)
Lemma flush_needs_two_hypotheses_witness :
  snd (HypothesisBuffer.flush
         (HypothesisBuffer.insert HypothesisBuffer.init hello_world 0%float))
  = [].
Proof.
  rewrite (proj1 (flush_needs_two_hypotheses
                    (HypothesisBuffer.insert HypothesisBuffer.init
                                             hello_world 0%float))
                 eq_refl).
  reflexivity.
Defined.

(** ** Sanity filter *)

Section WordFrequencies.

Lemma freq_get_incr (key k : string) (d : list (string * nat)) :
  freq_get k (freq_incr key d)
  = freq_get k d + (if String.eqb key k then 1 else 0).
Proof.
  induction d as [|[k0 n0] d IH]; cbn [freq_incr freq_get].
  - destruct (String.eqb key k); reflexivity.
  - destruct (String.eqb_spec k0 key) as [->|Hne]; cbn [freq_get].
    + destruct (String.eqb key k); lia.
    + destruct (String.eqb_spec k0 k) as [->|Hne'].
      * destruct (String.eqb_spec key k) as [->|_]; [congruence|lia].
      * exact IH.
Qed.

Lemma freq_incr_keys (key : string) (d : list (string * nat)) :
  (In key (map fst d) /\ map fst (freq_incr key d) = map fst d)
  \/ (~ In key (map fst d) /\ map fst (freq_incr key d) = map fst d ++ [key]).
Proof.
  induction d as [|[k0 n0] d IH]; cbn [freq_incr map fst].
  - right. split; [intros []|reflexivity].
  - destruct (String.eqb_spec k0 key) as [->|Hne].
    + left. split; [now left | reflexivity].
    + cbn [map fst]. destruct IH as [[Hin ->] | [Hnot ->]].
      * left. split; [now right | reflexivity].
      * right. split; [|reflexivity].
        intros [H|H]; [congruence|contradiction].
Qed.

Lemma freq_get_entry (d : list (string * nat)) (k : string) (n : nat) :
  NoDup (map fst d) -> In (k, n) d -> freq_get k d = n.
Proof.
  induction d as [|[k0 n0] d IH]; intros Hnd Hin; [destruct Hin|].
  cbn [map fst] in Hnd. inversion Hnd as [|? ? Hnot Hnd']; subst.
  cbn [freq_get]. destruct Hin as [Heq|Hin].
  - injection Heq as -> ->. now rewrite String.eqb_refl.
  - destruct (String.eqb_spec k0 k) as [->|_]; [|now apply IH].
    exfalso. apply Hnot. change k with (fst (k, n)). now apply in_map.
Qed.

(** The dict that [check_words] fills: its keys are distinct, they are the
    texts of the words, and each value is the number of words with that
    text. *)
Lemma word_freq_counts (words : list TimedWord) :
  let d := fold_left (fun d w => freq_incr (w_text w) d) words [] in
  NoDup (map fst d) /\
  (forall k, freq_get k d = count_text k words) /\
  (forall k, In k (map fst d) <-> In k (map w_text words)).
Proof.
  induction words as [|w words IH] using rev_ind.
  - cbn. split; [constructor|]. split; [reflexivity|]. intros k; tauto.
  - cbv zeta in *. rewrite fold_left_app. cbn [fold_left].
    destruct IH as (Hnd & Hget & Hkeys).
    set (d := fold_left _ words []) in *.
    split; [|split].
    + destruct (freq_incr_keys (w_text w) d) as [[_ ->] | [Hnot ->]];
        [exact Hnd|].
      apply NoDup_app; [exact Hnd | repeat constructor; intros [] |].
      intros k Hk [<-|[]]. contradiction.
    + intros k. rewrite freq_get_incr, Hget.
      unfold count_text. rewrite filter_app, length_app. cbn [filter].
      destruct (String.eqb (w_text w) k); reflexivity.
    + intros k. rewrite map_app, in_app_iff. cbn [map In].
      rewrite <- Hkeys.
      destruct (freq_incr_keys (w_text w) d) as [[Hin ->] | [Hnot ->]].
      * split; [tauto|]. intros [H|[<-|[]]]; assumption.
      * rewrite in_app_iff. cbn [In]. tauto.
Qed.

End WordFrequencies.

Section SanityFilter.

Lemma list_max_bounds (l : list nat) (x : nat) : In x l -> x <= list_max l.
Proof.
  intros Hin. assert (H : list_max l <= list_max l) by lia.
  apply list_max_le in H. rewrite Forall_forall in H. now apply H.
Qed.

(** The largest value of the dict is the largest number of occurrences of
    a text. *)
Lemma word_freq_max (words : list TimedWord) :
  fold_right Nat.max 0
             (map snd (fold_left (fun d w => freq_incr (w_text w) d) words []))
  = max_occurrences words.
Proof.
  destruct (word_freq_counts words) as (Hnd & Hget & Hkeys).
  cbv zeta in *. set (d := fold_left _ words []) in *.
  change (fold_right Nat.max 0 (map snd d)) with (list_max (map snd d)).
  unfold max_occurrences. apply Nat.le_antisymm.
  - apply list_max_le, Forall_forall. intros v Hv.
    apply in_map_iff in Hv. destruct Hv as ([k n] & <- & Hin). cbn [snd].
    rewrite <- (freq_get_entry d k n Hnd Hin), Hget.
    assert (Hk : In k (map w_text words)).
    { apply Hkeys. change k with (fst (k, n)). now apply in_map. }
    apply in_map_iff in Hk. destruct Hk as (w & <- & Hw).
    apply list_max_bounds.
    apply in_map_iff. now exists w.
  - apply list_max_le, Forall_forall. intros c Hc.
    apply in_map_iff in Hc. destruct Hc as (w & <- & Hw).
    rewrite <- Hget.
    assert (Hk : In (w_text w) (map fst d))
      by (apply Hkeys; now apply in_map).
    apply in_map_iff in Hk. destruct Hk as ([k n] & Hfst & Hin).
    cbn [fst] in Hfst. subst k.
    rewrite (freq_get_entry d (w_text w) n Hnd Hin).
    apply list_max_bounds.
    change n with (snd (w_text w, n)). now apply in_map.
Qed.

End SanityFilter.

(** X4.  [check_words] passes a hypothesis whole or drops it whole.  Up to
    five words always pass; a longer one is dropped exactly when the
    largest number of words sharing one text, divided by the number of
    words, is above 0.5: the dict it counts with holds, for each text, the
    number of words that have it. *)
Theorem check_words_all_or_nothing (words : list TimedWord) :
  check_words words
  = (if (5 <? List.length words)%nat
        && (0.5 <? float_of_int (Z.of_nat (max_occurrences words))
                   / float_of_int (len words))%float
     then [] else words)
  /\ (check_words words = words \/ check_words words = [])
  /\ (List.length words <= 5 -> check_words words = words).
Proof.
  assert (H : check_words words
              = (if (5 <? List.length words)%nat
                    && (0.5 <? float_of_int (Z.of_nat (max_occurrences words))
                               / float_of_int (len words))%float
                 then [] else words)).
  { unfold check_words. rewrite word_freq_max.
    destruct (5 <? List.length words)%nat; [|reflexivity].
    cbn [andb]. now destruct (_ <? _)%float. }
  split; [exact H|]. split.
  - rewrite H. destruct (_ && _); [now right | now left].
  - intros Hle. rewrite H.
    destruct (Nat.ltb_spec 5 (List.length words)) as [Hlt|_]; [lia|].
    reflexivity.
Qed.

(** The theorem on a list of three words. *)
Lemma check_words_all_or_nothing_witness :
  check_words hello_world_today = hello_world_today.
Proof.
  apply (proj2 (proj2 (check_words_all_or_nothing hello_world_today))).
  cbn. lia.
Defined.

(** ** Concatenation of words and segments *)

Section Concatenation.

Lemma s_text_seg_of_word (words : list TimedWord) :
  map s_text (map seg_of_word words) = map w_text words.
Proof.
  rewrite map_map. apply map_ext. now intros [[a b] t].
Qed.

(** [concatenate_tsw] on words, spelled out. *)
Lemma concatenate_words_cons (w : TimedWord) (ws : list TimedWord) :
  concatenate_words (w :: ws)
  = Ok (Some (0 + w_beg w)%float, Some (0 + w_end (last ws w))%float,
        join "" (map w_text (w :: ws))).
Proof.
  unfold concatenate_words, concatenate_tsw.
  rewrite s_text_seg_of_word. cbn [map].
  change (seg_of_word w :: map seg_of_word ws)
    with (map seg_of_word (w :: ws)).
  rewrite last_seg_of_word, last_cons_default.
  destruct w as [[a b] t], (last ws (a, b, t)) as [[a' b'] t'] eqn:El.
  reflexivity.
Qed.

End Concatenation.

(** X5.  [concatenate_tsw] gives the empty segment [(None, None, "")] for
    the empty list; for words it never raises and gives the start of the
    first word, the end of the last one (each added to the offset 0) and
    the texts joined without separator; on segments it raises [TypeError]
    exactly when the start of the first or the end of the last one is
    [None]. *)
Theorem concatenate_tsw_cases :
  (forall sep offset, concatenate_tsw [] sep offset = Ok empty_segment) /\
  (forall w ws,
      concatenate_tsw (map seg_of_word (w :: ws)) None 0%float
      = Ok (Some (0 + w_beg w)%float, Some (0 + w_end (last ws w))%float,
            join "" (map w_text (w :: ws)))) /\
  (forall first rest sep offset,
      concatenate_tsw (first :: rest) sep offset = Raise TypeError
      <-> s_beg first = None \/ s_end (last rest first) = None).
Proof.
  split; [intros [s|] offset; reflexivity|].
  split; [exact concatenate_words_cons|].
  intros first rest sep offset. unfold concatenate_tsw.
  rewrite last_cons_default.
  destruct (s_beg first), (s_end (last rest first)); split;
    try discriminate; try (intros [H|H]; discriminate); auto.
Qed.

(** X6.  The uncommitted segment that [process_iter] builds from two word
    lists: concatenating each and joining the two with
    [concat_two_segments] never raises; the text is the text of all the
    words in order; an empty side leaves the other segment as it is; and the
    result has no start exactly when both lists are empty. *)
Theorem concat_two_segments_of_words (ws1 ws2 : list TimedWord) :
  exists a b s,
    concatenate_words ws1 = Ok a /\
    concatenate_words ws2 = Ok b /\
    concat_two_segments a b = Ok s /\
    s_text s = join "" (map w_text (ws1 ++ ws2)) /\
    (ws1 = [] -> s = b) /\
    (ws2 = [] -> s = a) /\
    (s_beg s = None <-> ws1 = [] /\ ws2 = []).
Proof.
  destruct ws1 as [|w1 ws1], ws2 as [|w2 ws2].
  - exists empty_segment, empty_segment, empty_segment.
    repeat split; auto.
  - eexists empty_segment, _, _.
    split; [reflexivity|]. split; [apply concatenate_words_cons|].
    split; [reflexivity|]. cbn [s_text snd app].
    repeat split; auto; try discriminate.
    intros [_ H]; discriminate.
  - eexists _, empty_segment, _.
    split; [apply concatenate_words_cons|]. split; [reflexivity|].
    split; [reflexivity|]. cbn [s_text snd]. rewrite app_nil_r.
    repeat split; auto; try discriminate.
    intros [H _]; discriminate.
  - eexists _, _, _.
    split; [apply concatenate_words_cons|].
    split; [apply concatenate_words_cons|].
    split; [reflexivity|]. cbn [s_text snd join map].
    split.
    + rewrite map_app, join_empty_app.
      change (join "" [?x; ?y]) with (x ++ "" ++ y)%string.
      reflexivity.
    + repeat split; try discriminate. intros [H _]; discriminate.
Qed.

(** ** Sentence segmenter: what it keeps, and when it fails *)

Section SentenceLoop.

(** A step fails only on a tuple with a full stop in front, with
    [TypeError]. *)
Lemma sentence_step_raises (mutable : bool) (w : TimedWord) (e : exn) :
  sentence_step mutable w = Raise e ->
  mutable = false /\ e = TypeError /\ re_match [dot] (w_text w) = true.
Proof.
  unfold sentence_step.
  destruct (re_search [stop_mark] (w_text w)); [|discriminate].
  destruct (re_search [dot] (w_text w)); cbn [negb]; [|discriminate].
  destruct (re_match [dot] (w_text w)).
  - destruct mutable; [discriminate|]. intros H. injection H as <-. auto.
  - destruct (re_search [dot; dot; dot] (w_text w)); [discriminate|].
    destruct (re_search [digit; dot] (w_text w)); discriminate.
Qed.

(** A step on a tuple returns the word itself. *)
Lemma sentence_step_tuple (w w' : TimedWord) (brk : bool) :
  sentence_step false w = Ok (w', brk) -> w' = w.
Proof.
  unfold sentence_step.
  repeat match goal with
         | |- context [if ?c then _ else _] => destruct c
         end; intros H; try discriminate; now injection H as <- _.
Qed.

Lemma concatenate_words_text (words : list TimedWord) (s : TimedSegment) :
  concatenate_words words = Ok s -> s_text s = join "" (map w_text words).
Proof.
  destruct words as [|w ws].
  - intros H. now injection H as <-.
  - rewrite concatenate_words_cons. intros H. now injection H as <-.
Qed.

(** The loop on tuples loses no text. *)
Lemma sentences_loop_texts (words : list TimedWord) :
  forall all_sentences sentence b all' sentence' b',
    sentences_loop false words all_sentences sentence b
    = Ok (all', sentence', b') ->
    (join "" (map s_text all') ++ join "" (map w_text sentence'))%string
    = (join "" (map s_text all_sentences)
       ++ join "" (map w_text sentence)
       ++ join "" (map w_text words))%string.
Proof.
  induction words as [|w words IH];
    intros all_sentences sentence b all' sentence' b' H.
  - injection H as <- <- <-. cbn [map]. change (join "" []) with "".
    now rewrite append_empty_r.
  - cbn [sentences_loop] in H.
    destruct (sentence_step false w) as [[w' brk]|e] eqn:Es; [|discriminate].
    apply sentence_step_tuple in Es. subst w'.
    cbn [Py.bind fst snd] in H. destruct brk.
    + destruct (concatenate_words (sentence ++ [w])) as [s|e] eqn:Ec;
        [|discriminate].
      cbn [Py.bind] in H. apply IH in H. rewrite H.
      apply concatenate_words_text in Ec.
      rewrite map_app, join_empty_app. cbn [map].
      rewrite !join_empty_cons, Ec, map_app, join_empty_app. cbn [map].
      rewrite !join_empty_cons. change (join "" []) with "".
      rewrite !append_empty_r, !string_app_assoc. reflexivity.
    + apply IH in H. rewrite H.
      rewrite map_app, join_empty_app. cbn [map].
      rewrite !join_empty_cons. change (join "" []) with "".
      rewrite !append_empty_r, !string_app_assoc. reflexivity.
Qed.

(** The flag and the open sentence go together: after a word that closes a
    sentence the open sentence is empty, after one that does not it is
    not; and the flag is that of the last word. *)
Lemma sentences_loop_flag (mutable : bool) (words : list TimedWord) :
  forall all_sentences sentence b all' sentence' b' d,
    sentences_loop mutable words all_sentences sentence b
    = Ok (all', sentence', b') ->
    (b = Some true -> sentence = []) ->
    (b = Some false -> sentence <> []) ->
    (b' = Some true -> sentence' = []) /\
    (b' = Some false -> sentence' <> []) /\
    (words <> [] ->
     exists w' brk, sentence_step mutable (last words d) = Ok (w', brk) /\
                    b' = Some brk).
Proof.
  induction words as [|w words IH];
    intros all_sentences sentence b all' sentence' b' d H Ht Hf.
  - injection H as <- <- <-. repeat split; auto. intros Hne; now elim Hne.
  - cbn [sentences_loop] in H.
    destruct (sentence_step mutable w) as [[w' brk]|e] eqn:Es; [|discriminate].
    cbn [Py.bind fst snd] in H.
    assert (Hlast : words = [] \/ (words <> [] /\ last (w :: words) d = last words d)).
    { destruct words as [|w2 words]; [now left|]. right.
      split; [discriminate | reflexivity]. }
    destruct brk.
    + destruct (concatenate_words (sentence ++ [w'])) as [s|e]; [|discriminate].
      cbn [Py.bind] in H.
      destruct (IH _ _ _ _ _ _ d H) as (H1 & H2 & H3);
        [reflexivity | discriminate|].
      split; [exact H1|]. split; [exact H2|]. intros _.
      destruct Hlast as [-> | [Hne ->]]; [|now apply H3].
      injection H as <- <- <-. cbn [last]. eauto.
    + destruct (IH _ _ _ _ _ _ d H) as (H1 & H2 & H3);
        [discriminate | intros _; now destruct sentence |].
      split; [exact H1|]. split; [exact H2|]. intros _.
      destruct Hlast as [-> | [Hne ->]]; [|now apply H3].
      injection H as <- <- <-. cbn [last]. eauto.
Qed.

(** On tuples the loop raises exactly when a word has a full stop in
    front. *)
Lemma sentences_loop_raises (words : list TimedWord) :
  forall all_sentences sentence b,
    (exists e, sentences_loop false words all_sentences sentence b = Raise e)
    <-> Exists (fun w => re_match [dot] (w_text w) = true) words.
Proof.
  induction words as [|w words IH]; intros all_sentences sentence b.
  - split; [intros [e H]; discriminate | intros H; inversion H].
  - cbn [sentences_loop].
    destruct (sentence_step false w) as [[w' brk]|e] eqn:Es.
    + assert (Hno : re_match [dot] (w_text w) = false).
      { destruct (re_match [dot] (w_text w)) eqn:E; [|reflexivity].
        destruct (sentence_step_leading_dot w E) as [_ H]. congruence. }
      cbn [Py.bind fst snd].
      assert (Hex : Exists (fun w => re_match [dot] (w_text w) = true)
                           (w :: words)
                    <-> Exists (fun w => re_match [dot] (w_text w) = true)
                               words).
      { split; [|now apply Exists_cons_tl].
        intros H. inversion H; subst; [congruence | assumption]. }
      rewrite Hex. destruct brk.
      * destruct (concatenate_words_ok (sentence ++ [w'])) as [s ->].
        cbn [Py.bind]. apply IH.
      * apply IH.
    + apply sentence_step_raises in Es. destruct Es as (_ & _ & Hd).
      split; [intros _; now apply Exists_cons_hd|].
      intros _. exists e. reflexivity.
Qed.

End SentenceLoop.

(** X7.  When [words_to_sentences] returns, on tuple words, no text is
    lost: the texts of the sentences followed by the texts of the tail are
    the texts of the words, in order. *)
Theorem words_to_sentences_keeps_text
        (words : list TimedWord) (sentences : list TimedSegment)
        (tail : list TimedWord) :
  words_to_sentences false words = Ok (sentences, tail) ->
  (join "" (map s_text sentences) ++ join "" (map w_text tail))%string
  = join "" (map w_text words).
Proof.
  unfold words_to_sentences. intros H.
  destruct (sentences_loop false words [] [] None)
    as [[[all' sentence'] b']|e] eqn:El; [|discriminate].
  cbn [Py.bind] in H.
  pose proof (sentences_loop_texts _ _ _ _ _ _ _ El) as Ht.
  destruct (sentences_loop_flag false words _ _ _ _ _ _
                                HypothesisBuffer.dummy El)
    as (H1 & _ & _); try discriminate.
  destruct b' as [[|]|]; [| |discriminate]; injection H as <- <-.
  - rewrite (H1 eq_refl) in Ht. exact Ht.
  - exact Ht.
Qed.

(** The theorem on two sentences and a tail. *)
Lemma words_to_sentences_keeps_text_witness :
  (join "" (map s_text [(Some (0 + 0), Some (0 + 2), "Hi there.");
                        (Some (0 + 2), Some (0 + 4), " 3. ok!")]%float)
   ++ join "" (map w_text [(4, 5, " x")%float]))%string
  = join "" (map w_text hi_there).
Proof.
  apply (words_to_sentences_keeps_text hi_there). reflexivity.
Defined.

(** X8.  The final test of [words_to_sentences] on [break_sentence]
    changes nothing: when the call returns, the tail is the open sentence
    the loop ended with, and it is empty exactly when the last word closed
    a sentence. *)
Theorem words_to_sentences_tail
        (mutable : bool) (words : list TimedWord)
        (sentences : list TimedSegment) (tail : list TimedWord) :
  words_to_sentences mutable words = Ok (sentences, tail) ->
  exists w' brk,
    sentences_loop mutable words [] [] None = Ok (sentences, tail, Some brk) /\
    sentence_step mutable (last words HypothesisBuffer.dummy) = Ok (w', brk) /\
    (tail = [] <-> brk = true).
Proof.
  unfold words_to_sentences. intros H.
  destruct (sentences_loop mutable words [] [] None)
    as [[[all' sentence'] b']|e] eqn:El; [|discriminate].
  cbn [Py.bind] in H.
  destruct (sentences_loop_flag mutable words _ _ _ _ _ _
                                HypothesisBuffer.dummy El)
    as (H1 & H2 & H3); try discriminate.
  assert (Hne : words <> []).
  { intros ->. cbn in El. injection El as <- <- <-. discriminate. }
  destruct (H3 Hne) as (w' & brk & Hs & ->).
  exists w', brk. destruct brk; injection H as <- <-.
  - rewrite (H1 eq_refl). repeat split; auto.
  - repeat split; auto; [|discriminate].
    intros ->. now elim (H2 eq_refl).
Qed.

(** The theorem on the five words: the last one closes no sentence, and
    the tail is not empty. *)
Lemma words_to_sentences_tail_witness :
  exists w' brk,
    sentences_loop true hi_there [] [] None
    = Ok ([(Some (0 + 0), Some (0 + 2), "Hi there.");
           (Some (0 + 2), Some (0 + 4), " 3. ok!")]%float,
          [(4, 5, " x")%float], Some brk) /\
    sentence_step true (last hi_there HypothesisBuffer.dummy) = Ok (w', brk) /\
    ([(4, 5, " x")%float] = [] <-> brk = true).
Proof.
  apply (words_to_sentences_tail true hi_there). reflexivity.
Defined.

(** X9.  On tuple words [words_to_sentences] raises [TypeError] exactly
    when some word has a full stop in front; on list words it never does. *)
Theorem words_to_sentences_type_error (words : list TimedWord) :
  (words_to_sentences false words = Raise TypeError
   <-> Exists (fun w => re_match [dot] (w_text w) = true) words) /\
  words_to_sentences true words <> Raise TypeError.
Proof.
  split.
  - rewrite <- (sentences_loop_raises words [] [] None).
    unfold words_to_sentences. split.
    + intros H.
      destruct (sentences_loop false words [] [] None)
        as [[[a s] [[|]|]]|e] eqn:El; try discriminate.
      now exists e.
    + intros [e H]. rewrite H. cbn [Py.bind].
      destruct words as [|w words]; [discriminate|].
      assert (He : e = TypeError).
      { clear -H. revert H. generalize (@nil TimedSegment).
        generalize (@nil TimedWord). generalize (@None bool).
        induction (w :: words) as [|x l IH]; intros b s a H;
          [discriminate|].
        cbn [sentences_loop] in H.
        destruct (sentence_step false x) as [[w' brk]|e'] eqn:Es.
        - cbn [Py.bind fst snd] in H. destruct brk.
          + destruct (concatenate_words_ok (s ++ [w'])) as [sg Hsg].
            rewrite Hsg in H. cbn [Py.bind] in H. eapply IH, H.
          + eapply IH, H.
        - apply sentence_step_raises in Es. destruct Es as (_ & -> & _).
          now injection H as <-. }
      now subst e.
  - unfold words_to_sentences. intros H.
    destruct (sentences_loop true words [] [] None)
      as [[[a s] [[|]|]]|e] eqn:El; try discriminate.
    cbn [Py.bind] in H. injection H as ->.
    revert El. generalize (@nil TimedSegment).
    generalize (@nil TimedWord). generalize (@None bool).
    induction words as [|x l IH]; intros b s a H; [discriminate|].
    cbn [sentences_loop] in H.
    destruct (sentence_step true x) as [[w' brk]|e'] eqn:Es.
    + cbn [Py.bind fst snd] in H. destruct brk.
      * destruct (concatenate_words_ok (s ++ [w'])) as [sg Hsg].
        rewrite Hsg in H. cbn [Py.bind] in H. eapply IH, H.
      * eapply IH, H.
    + apply sentence_step_raises in Es. destruct Es as (Hm & _); discriminate.
Qed.

(** ** Online ASR processor: idle iterations, trimming, finishing *)

Section ProcessorSteps.

Import OnlineASRProcessor.

(** What [transcribe_audio_buffer] does, by cases. *)
Lemma transcribe_audio_buffer_cases (asr : ASR) (s : t) :
  transcribe_audio_buffer asr s
  = if Nat.eqb (List.length (audio_buffer s))
               (len_audio_buffer_last_transcribed s)
    then (Ok [], s)
    else (Ok (map (HypothesisBuffer.shift (buffer_time_offset s))
                  (asr (audio_buffer s) (promt s))),
          set_len_last (List.length (audio_buffer s)) s).
Proof.
  unfold transcribe_audio_buffer, mbind, get, modify, ret.
  now destruct (Nat.eqb _ _).
Qed.

(** What [chunk_at] does, by cases of the cut position. *)
Lemma chunk_at_cases (time : float) (s : t) :
  chunk_at time s
  = match Py.int ((time - buffer_time_offset s) * SAMPLING_RATE)%float with
    | Ok k =>
        (Ok tt,
         mk (slice_from k (audio_buffer s))
            (len_audio_buffer_last_transcribed s)
            (HypothesisBuffer.pop_commited (transcript_buffer s) time)
            time (promt s) (final_transcript s) (commited_not_final s)
            (buffer_trimming_way s) (buffer_trimming_sec s))
    | Raise e =>
        (Raise e,
         set_transcript_buffer
           (HypothesisBuffer.pop_commited (transcript_buffer s) time) s)
    end.
Proof.
  unfold chunk_at, mbind, modify, get, lift.
  cbn [set_transcript_buffer buffer_time_offset].
  now destruct (Py.int _).
Qed.

Lemma last_firstn_nth {A} (l : list A) (n : nat) (d : A) :
  1 <= n <= List.length l -> last (firstn n l) d = nth (n - 1) l d.
Proof.
  intros Hn. rewrite <- nth_last_default, length_firstn, nth_firstn.
  replace (Nat.min n (List.length l)) with n by lia.
  destruct (Nat.ltb_spec (n - 1) n); [reflexivity|lia].
Qed.

(** [chunk_completed_segment] either returns nothing and leaves the
    processor alone, or splits the words in two. *)
Lemma chunk_completed_segment_split (words : list TimedWord) (s : t)
      (committed : list TimedWord) (s' : t) :
  chunk_completed_segment words s = (Ok committed, s') ->
  (committed = [] /\ s' = s)
  \/
  (exists n,
      1 <= n < List.length words /\
      committed = firstn n words /\
      commited_not_final s' = skipn n words /\
      final_transcript s' = final_transcript s ++ map seg_of_word committed /\
      buffer_time_offset s' = w_end (last committed HypothesisBuffer.dummy) /\
      promt s' = promt s /\
      buffer_trimming_way s' = buffer_trimming_way s).
Proof.
  intros H.
  destruct (Nat.le_gt_cases (List.length words) 1) as [Hle|Hgt].
  - unfold chunk_completed_segment in H.
    destruct (Nat.leb_spec (List.length words) 1) as [_|Hlt]; [|lia].
    injection H as <- <-. now left.
  - destruct (chunk_completed_segment_spec words s Hgt)
      as (k & Hk & _ & _ & Heq).
    cbv zeta in Heq. rewrite Heq in H. clear Heq.
    destruct (_ <=? _)%float; [|injection H as <- <-; now left].
    rewrite chunk_at_cases in H.
    destruct (Py.int _) as [cut|e]; [|discriminate].
    injection H as <- <-. right. exists (k - 1).
    split; [lia|]. split; [reflexivity|].
    cbn [commited_not_final final_transcript buffer_time_offset promt
         buffer_trimming_way set_commited_not_final set_final_transcript].
    split; [reflexivity|]. split; [reflexivity|].
    split; [|split; reflexivity].
    rewrite last_firstn_nth by lia. do 2 f_equal. lia.
Qed.

End ProcessorSteps.

(** X10.  [process_iter] returns the pair of empty segments without
    changing the processor when no audio came since the last
    transcription, whatever the ASR would answer; and when the hypothesis
    is empty after [check_words] (nothing heard, or too repetitive) it
    returns the same pair and only records the length of the audio it
    transcribed: the hypothesis buffer keeps its pending words. *)
Theorem process_iter_idle (asr : OnlineASRProcessor.ASR)
        (s : OnlineASRProcessor.t) :
  (List.length (OnlineASRProcessor.audio_buffer s)
   = OnlineASRProcessor.len_audio_buffer_last_transcribed s ->
   OnlineASRProcessor.process_iter asr s
   = (Ok (empty_segment, empty_segment), s)) /\
  (List.length (OnlineASRProcessor.audio_buffer s)
   <> OnlineASRProcessor.len_audio_buffer_last_transcribed s ->
   check_words
     (map (HypothesisBuffer.shift (OnlineASRProcessor.buffer_time_offset s))
          (asr (OnlineASRProcessor.audio_buffer s)
               (OnlineASRProcessor.promt s))) = [] ->
   OnlineASRProcessor.process_iter asr s
   = (Ok (empty_segment, empty_segment),
      OnlineASRProcessor.set_len_last
        (List.length (OnlineASRProcessor.audio_buffer s)) s)).
Proof.
  split.
  - intros Hlen. unfold OnlineASRProcessor.process_iter.
    unfold OnlineASRProcessor.mbind at 1.
    rewrite transcribe_audio_buffer_cases.
    apply Nat.eqb_eq in Hlen. rewrite Hlen. reflexivity.
  - intros Hlen Hempty. unfold OnlineASRProcessor.process_iter.
    unfold OnlineASRProcessor.mbind at 1.
    rewrite transcribe_audio_buffer_cases.
    apply Nat.eqb_neq in Hlen. rewrite Hlen, Hempty. reflexivity.
Qed.

(** The theorem on a new processor, and on one that was given audio in
    which nothing is heard. *)
Lemma process_iter_idle_witness :
  fst (OnlineASRProcessor.process_iter
         hello_asr (OnlineASRProcessor.init "segment" 0.001%float None))
  = Ok (empty_segment, empty_segment) /\
  fst (OnlineASRProcessor.process_iter
         (fun _ _ => [])
         (sixteen_more (OnlineASRProcessor.init "segment" 0.001%float None)))
  = Ok (empty_segment, empty_segment).
Proof.
  split.
  - rewrite (proj1 (process_iter_idle
                      hello_asr
                      (OnlineASRProcessor.init "segment" 0.001%float None))
                   eq_refl).
    reflexivity.
  - rewrite (proj2 (process_iter_idle
                      (fun _ _ => [])
                      (sixteen_more
                         (OnlineASRProcessor.init "segment" 0.001%float None))));
      [reflexivity | discriminate | reflexivity].
Defined.

(** X11.  When [chunk_completed_segment] returns, either it returns no
    word and the processor is unchanged, or it splits the words: the
    returned words are a front part holding at least one word and never
    the last one, the rest stays in [commited_not_final], the returned
    words are appended to [final_transcript], and the buffer now starts at
    the end of the last returned word. *)
Theorem chunk_completed_segment_keeps_last_word
        (words : list TimedWord) (s : OnlineASRProcessor.t)
        (committed : list TimedWord) (s' : OnlineASRProcessor.t) :
  OnlineASRProcessor.chunk_completed_segment words s = (Ok committed, s') ->
  (committed = [] /\ s' = s)
  \/
  (exists n,
      1 <= n < List.length words /\
      committed = firstn n words /\
      OnlineASRProcessor.commited_not_final s' = skipn n words /\
      committed ++ OnlineASRProcessor.commited_not_final s' = words /\
      OnlineASRProcessor.final_transcript s'
      = OnlineASRProcessor.final_transcript s ++ map seg_of_word committed /\
      OnlineASRProcessor.buffer_time_offset s'
      = w_end (last committed HypothesisBuffer.dummy)).
Proof.
  intros H. apply chunk_completed_segment_split in H.
  destruct H as [H | (n & Hn & Hc & Hr & Hf & Ho & _)]; [now left|].
  right. exists n. repeat split; try assumption; try lia.
  rewrite Hc, Hr. apply firstn_skipn.
Qed.

(** The theorem on the four words of the segment scenario. *)
Lemma chunk_completed_segment_keeps_last_word_witness :
  let r := OnlineASRProcessor.chunk_completed_segment
             abcd (segment_example []) in
  (fst r = Ok [] /\ snd r = segment_example [])
  \/
  (exists n, 1 <= n < 4 /\ fst r = Ok (firstn n abcd)).
Proof.
  intros r.
  destruct (chunk_completed_segment_keeps_last_word
              abcd (segment_example [])
              [(0, 1, "a"); (1, 2, "b"); (9.5, 10, "c")]%float
              (snd r) eq_refl)
    as [[H _] | (n & Hn & Hc & _)]; [discriminate|].
  right. exists n. split; [exact Hn|]. rewrite <- Hc. reflexivity.
Defined.

(** X12.  [finish] never raises.  It returns, as committed, the
    concatenation of the words the ASR hears in the whole buffer (shifted
    by the buffer offset; nothing when no audio came since the last
    transcription) and the empty segment as uncommitted; it empties the
    audio buffer and [commited_not_final], and leaves the hypothesis
    buffer, the prompt, [final_transcript] and the buffer offset as they
    are. *)
Theorem finish_clears (asr : OnlineASRProcessor.ASR)
        (s : OnlineASRProcessor.t) :
  let tsw :=
    if Nat.eqb (List.length (OnlineASRProcessor.audio_buffer s))
               (OnlineASRProcessor.len_audio_buffer_last_transcribed s)
    then []
    else map (HypothesisBuffer.shift (OnlineASRProcessor.buffer_time_offset s))
             (asr (OnlineASRProcessor.audio_buffer s)
                  (OnlineASRProcessor.promt s)) in
  let s' := snd (OnlineASRProcessor.finish asr s) in
  exists finish_words,
    concatenate_words tsw = Ok finish_words /\
    fst (OnlineASRProcessor.finish asr s) = Ok (finish_words, empty_segment) /\
    OnlineASRProcessor.audio_buffer s' = [] /\
    OnlineASRProcessor.commited_not_final s' = [] /\
    OnlineASRProcessor.transcript_buffer s'
    = OnlineASRProcessor.transcript_buffer s /\
    OnlineASRProcessor.promt s' = OnlineASRProcessor.promt s /\
    OnlineASRProcessor.final_transcript s'
    = OnlineASRProcessor.final_transcript s /\
    OnlineASRProcessor.buffer_time_offset s'
    = OnlineASRProcessor.buffer_time_offset s.
Proof.
  cbv zeta. unfold OnlineASRProcessor.finish.
  cbv [OnlineASRProcessor.mbind OnlineASRProcessor.lift
       OnlineASRProcessor.modify OnlineASRProcessor.ret].
  rewrite transcribe_audio_buffer_cases.
  destruct (Nat.eqb _ _).
  - exists empty_segment. change (concatenate_words []) with (Ok empty_segment).
    repeat split.
  - set (tsw := map _ _).
    destruct (concatenate_words_ok tsw) as [seg Hseg].
    exists seg. rewrite Hseg. repeat split.
Qed.

(** ** Online ASR processor: what reaches [final_transcript] in segment mode *)

Section FinalTranscript.

Import OnlineASRProcessor.

(** In segment mode [get_completed_words] returns words, and has already
    appended them to [final_transcript]. *)
Lemma get_completed_words_segment_final (s : t)
      (completed_words : list TimedSegment) (s1 : t) :
  buffer_trimming_way s = "segment" ->
  get_completed_words s = (Ok completed_words, s1) ->
  exists ws,
    completed_words = map seg_of_word ws /\
    final_transcript s1 = final_transcript s ++ completed_words.
Proof.
  intros Hway H.
  unfold get_completed_words, trim_by_length, mbind, get in H.
  rewrite Hway in H. cbn [String.eqb Ascii.eqb Bool.eqb] in H.
  destruct (_ <? _)%float.
  - injection H as <- <-. exists []. split; [reflexivity|].
    now rewrite app_nil_r.
  - destruct (chunk_completed_segment (commited_not_final s) s)
      as [[ws|e] s2] eqn:Ec; [|discriminate].
    rewrite Hway in H. cbn [String.eqb Ascii.eqb Bool.eqb] in H.
    injection H as <- <-. exists ws. split; [reflexivity|].
    apply chunk_completed_segment_split in Ec.
    destruct Ec as [[-> ->] | (n & _ & _ & _ & Hf & _)].
    + now rewrite app_nil_r.
    + exact Hf.
Qed.

End FinalTranscript.

(** X13.  In segment mode, a [process_iter] that returns has appended the
    words of the completed segment to [final_transcript] twice: once in
    [chunk_completed_segment], once more in [process_iter] itself. *)
Theorem segment_mode_final_transcript_twice
        (asr : OnlineASRProcessor.ASR) (s : OnlineASRProcessor.t)
        (completed uncommitted : TimedSegment) (s' : OnlineASRProcessor.t) :
  OnlineASRProcessor.buffer_trimming_way s = "segment" ->
  OnlineASRProcessor.process_iter asr s = (Ok (completed, uncommitted), s') ->
  exists ws,
    concatenate_words ws = Ok completed /\
    OnlineASRProcessor.final_transcript s'
    = (OnlineASRProcessor.final_transcript s ++ map seg_of_word ws)
        ++ map seg_of_word ws.
Proof.
  intros Hway E.
  assert (Hnone : exists ws,
             concatenate_words ws = Ok empty_segment /\
             OnlineASRProcessor.final_transcript s
             = (OnlineASRProcessor.final_transcript s ++ map seg_of_word ws)
                 ++ map seg_of_word ws).
  { exists []. split; [reflexivity|]. cbn [map]. now rewrite !app_nil_r. }
  unfold OnlineASRProcessor.process_iter in E.
  unfold OnlineASRProcessor.mbind at 1 in E.
  rewrite transcribe_audio_buffer_cases in E.
  destruct (Nat.eqb (List.length (OnlineASRProcessor.audio_buffer s)) _);
    cbv beta iota in E;
    (destruct (Nat.eqb (List.length (check_words _)) 0);
     [injection E as <- _ <-; exact Hnone|]);
    cbv [OnlineASRProcessor.mbind OnlineASRProcessor.modify
         OnlineASRProcessor.get] in E;
    cbn [fst snd] in E;
    destruct (HypothesisBuffer.flush _) as [hb commited_tsw];
    match type of E with
    | context [OnlineASRProcessor.set_transcript_buffer hb ?x] =>
        set (s2 := OnlineASRProcessor.set_transcript_buffer hb x) in E
    end;
    assert (Hf2 : OnlineASRProcessor.final_transcript s2
                  = OnlineASRProcessor.final_transcript s)
      by reflexivity;
    assert (Hw2 : OnlineASRProcessor.buffer_trimming_way s2 = "segment")
      by exact Hway;
    clearbody s2;
    (destruct (0 <? List.length commited_tsw)%nat;
     [ destruct (OnlineASRProcessor.get_completed_words _)
         as [[cw|e] s3] eqn:Eg; [|discriminate];
       apply get_completed_words_segment_final in Eg; [|exact Hw2];
       destruct Eg as (ws & -> & Hf3);
       cbn [OnlineASRProcessor.final_transcript
            OnlineASRProcessor.set_commited_not_final] in Hf3;
       rewrite Hf2 in Hf3;
       destruct (0 <? List.length (map seg_of_word ws))%nat eqn:El;
       [ cbv [OnlineASRProcessor.lift OnlineASRProcessor.ret] in E;
         change (concatenate_tsw (map seg_of_word ws) None 0)
           with (concatenate_words ws) in E;
         destruct (concatenate_words ws) as [a0|e] eqn:Ec; [|discriminate];
         exists ws;
         repeat match type of E with
                | context [match ?x with _ => _ end] => destruct x
                end; try discriminate;
         injection E as <- _ <-; (split; [exact Ec|]);
         cbn [OnlineASRProcessor.final_transcript
              OnlineASRProcessor.set_promt
              OnlineASRProcessor.set_final_transcript];
         now rewrite Hf3
       | assert (ws = []) as ->
           by (destruct ws; [reflexivity | cbn in El; discriminate]);
         cbv [OnlineASRProcessor.lift OnlineASRProcessor.ret] in E;
         repeat match type of E with
                | context [match ?x with _ => _ end] => destruct x
                end; try discriminate;
         injection E as <- _ <-; rewrite Hf3; cbn [map];
         rewrite app_nil_r; exact Hnone ]
     | cbv [OnlineASRProcessor.lift OnlineASRProcessor.ret] in E;
       repeat match type of E with
              | context [match ?x with _ => _ end] => destruct x
              end; try discriminate;
       injection E as <- _ <-; rewrite Hf2; exact Hnone ]).
Qed.

(** The theorem on the second iteration of the prompt example, which
    completes the word Hello. *)
Lemma segment_mode_final_transcript_twice_witness :
  exists ws,
    concatenate_words ws = Ok (Some 0, Some 0.0005, "Hello")%float /\
    OnlineASRProcessor.final_transcript heard_twice
    = (OnlineASRProcessor.final_transcript (sixteen_more heard_once)
       ++ map seg_of_word ws) ++ map seg_of_word ws.
Proof.
  apply (segment_mode_final_transcript_twice
           hello_asr (sixteen_more heard_once)
           (Some 0, Some 0.0005, "Hello")%float
           (Some 0.0005, Some 0.001, " world.")%float heard_twice).
  - reflexivity.
  - vm_compute. reflexivity.
Defined.

(** X14.  In sentence mode, when no sentence is closed in
    [commited_not_final], the audio is as long as the threshold and there
    is at most one word to cut at, [get_completed_words] changes nothing
    and returns a list that holds one segment, the empty one; joining that
    list, which is what [process_iter] does next, raises [TypeError]. *)
Theorem sentence_mode_forced_chunk_empty_segment
        (s : OnlineASRProcessor.t) (tail : list TimedWord) :
  OnlineASRProcessor.buffer_trimming_way s = "sentence" ->
  words_to_sentences false (OnlineASRProcessor.commited_not_final s)
  = Ok ([], tail) ->
  (float_of_int (len (OnlineASRProcessor.audio_buffer s))
   / OnlineASRProcessor.SAMPLING_RATE
   <? OnlineASRProcessor.buffer_trimming_sec s)%float = false ->
  List.length (OnlineASRProcessor.commited_not_final s) <= 1 ->
  OnlineASRProcessor.get_completed_words s = (Ok [empty_segment], s) /\
  concatenate_tsw [empty_segment] None 0%float = Raise TypeError.
Proof.
  intros Hway Hsent Hlong Hone. split; [|reflexivity].
  unfold OnlineASRProcessor.get_completed_words,
    OnlineASRProcessor.trim_by_length.
  cbv [OnlineASRProcessor.mbind OnlineASRProcessor.get
       OnlineASRProcessor.lift].
  rewrite Hway, Hsent. cbn [String.eqb Ascii.eqb Bool.eqb].
  rewrite Hlong.
  unfold OnlineASRProcessor.chunk_completed_segment.
  destruct (Nat.leb_spec
              (List.length (OnlineASRProcessor.commited_not_final s)) 1)
    as [_|Hgt]; [|lia].
  cbv [OnlineASRProcessor.ret]. rewrite Hway. reflexivity.
Qed.

(** The theorem on a processor with the one word Hi. *)
Lemma sentence_mode_forced_chunk_empty_segment_witness :
  OnlineASRProcessor.get_completed_words one_open_word
  = (Ok [empty_segment], one_open_word).
Proof.
  apply (proj1 (sentence_mode_forced_chunk_empty_segment
                  one_open_word [(0, 0.001, "Hi")%float]
                  eq_refl eq_refl eq_refl (le_n 1))).
Defined.

(** ** Voice activity wrapper *)

Section Wrapper.

Import VACOnlineASRProcessor.

Lemma len_app {A} (l1 l2 : list A) : len (l1 ++ l2) = (len l1 + len l2)%Z.
Proof. unfold len. rewrite length_app. lia. Qed.

(** A slice is a contiguous part. *)
Lemma slice_from_part {A} (k : Z) (l : list A) :
  exists pre, l = pre ++ slice_from k l ++ [].
Proof.
  unfold slice_from. set (n := Z.to_nat _).
  exists (firstn n l). now rewrite app_nil_r, firstn_skipn.
Qed.

Lemma slice_upto_part {A} (k : Z) (l : list A) :
  exists post, l = [] ++ slice_upto k l ++ post.
Proof.
  unfold slice_upto. set (n := Z.to_nat _).
  exists (skipn n l). cbn [app]. now rewrite firstn_skipn.
Qed.

(** A slice that starts at or after the end is empty, and one that stops
    there is everything. *)
Lemma slice_from_beyond {A} (k : Z) (l : list A) :
  (len l <= k)%Z -> slice_from k l = [].
Proof.
  intros Hk. unfold slice_from.
  destruct (Z.ltb_spec k 0) as [Hneg|_]; [unfold len in Hk; lia|].
  rewrite Z.min_r by exact Hk. unfold len. rewrite Nat2Z.id.
  apply skipn_all.
Qed.

Lemma slice_upto_beyond {A} (k : Z) (l : list A) :
  (len l <= k)%Z -> slice_upto k l = l.
Proof.
  intros Hk. unfold slice_upto.
  destruct (Z.ltb_spec k 0) as [Hneg|_]; [unfold len in Hk; lia|].
  rewrite Z.min_r by exact Hk. unfold len. rewrite Nat2Z.id.
  apply firstn_all.
Qed.

(** The online processor never fails to finish, and ends up with empty
    buffers. *)
Lemma online_finish_ok (asr : OnlineASRProcessor.ASR)
      (o : OnlineASRProcessor.t) :
  exists result o',
    OnlineASRProcessor.finish asr o = (Ok result, o') /\
    OnlineASRProcessor.audio_buffer o' = [] /\
    OnlineASRProcessor.commited_not_final o' = [].
Proof.
  unfold OnlineASRProcessor.finish.
  cbv [OnlineASRProcessor.mbind OnlineASRProcessor.lift
       OnlineASRProcessor.modify OnlineASRProcessor.ret].
  rewrite transcribe_audio_buffer_cases.
  destruct (Nat.eqb _ _).
  - change (concatenate_words []) with (Ok empty_segment).
    eexists _, _. repeat split.
  - set (tsw := map _ _).
    destruct (concatenate_words_ok tsw) as [seg ->].
    eexists _, _. repeat split.
Qed.

End Wrapper.

(** X15.  When [insert_audio_chunk] of the wrapper returns, its own buffer
    is empty and [buffer_offset] has grown by the samples that were in it,
    the new chunk included.  The samples it forwards are one contiguous
    part of that buffer: they are appended to the audio of the online
    processor (which a start event has emptied first) and counted in
    [current_online_chunk_buffer_size].  Without a detector event the part
    is the whole buffer while the status is voice, and nothing
    otherwise. *)
Theorem vac_insert_accounting
        (res : option (list (string * Z))) (audio : list float)
        (s s' : VACOnlineASRProcessor.t) :
  VACOnlineASRProcessor.insert_audio_chunk res audio s = (Ok tt, s') ->
  VACOnlineASRProcessor.audio_buffer s' = [] /\
  VACOnlineASRProcessor.buffer_offset s'
  = (VACOnlineASRProcessor.buffer_offset s
     + len (VACOnlineASRProcessor.audio_buffer s) + len audio)%Z /\
  exists sent pre post,
    VACOnlineASRProcessor.audio_buffer s ++ audio = pre ++ sent ++ post /\
    VACOnlineASRProcessor.current_online_chunk_buffer_size s'
    = (VACOnlineASRProcessor.current_online_chunk_buffer_size s + len sent)%Z /\
    OnlineASRProcessor.audio_buffer (VACOnlineASRProcessor.online s')
    = (if is_event "start" res then []
       else OnlineASRProcessor.audio_buffer (VACOnlineASRProcessor.online s))
        ++ sent /\
    (res = None ->
     sent = if in_voice s
            then VACOnlineASRProcessor.audio_buffer s ++ audio else []).
Proof.
  unfold VACOnlineASRProcessor.insert_audio_chunk, in_voice, is_event.
  cbn [VACOnlineASRProcessor.status VACOnlineASRProcessor.set_audio_buffer
       VACOnlineASRProcessor.audio_buffer VACOnlineASRProcessor.buffer_offset
       VACOnlineASRProcessor.online
       VACOnlineASRProcessor.current_online_chunk_buffer_size
       VACOnlineASRProcessor.is_currently_final
       VACOnlineASRProcessor.online_chunk_size].
  set (buf := VACOnlineASRProcessor.audio_buffer s ++ audio).
  assert (Hoff : forall x : Z,
             (x + len buf
              = x + len (VACOnlineASRProcessor.audio_buffer s) + len audio)%Z)
    by (intros x; subst buf; rewrite len_app; lia).
  destruct res as [items|].
  - destruct items as [|[vac_key vac_time] [|second items]];
      try discriminate.
    destruct (String.eqb vac_key "start") eqn:Es.
    + intros H. injection H as <-.
      cbn [VACOnlineASRProcessor.clear_buffer VACOnlineASRProcessor.forward
           VACOnlineASRProcessor.set_audio_buffer
           VACOnlineASRProcessor.audio_buffer
           VACOnlineASRProcessor.buffer_offset VACOnlineASRProcessor.online
           VACOnlineASRProcessor.current_online_chunk_buffer_size].
      split; [reflexivity|]. split; [apply Hoff|].
      destruct (slice_from_part
                  (vac_time - VACOnlineASRProcessor.buffer_offset s + len audio)
                  buf) as [pre Hpre].
      eexists _, pre, []. split; [exact Hpre|].
      split; [reflexivity|]. split; [reflexivity | discriminate].
    + destruct (String.eqb vac_key "end"); [|discriminate].
      intros H. injection H as <-.
      cbn [VACOnlineASRProcessor.clear_buffer VACOnlineASRProcessor.forward
           VACOnlineASRProcessor.set_audio_buffer
           VACOnlineASRProcessor.audio_buffer
           VACOnlineASRProcessor.buffer_offset VACOnlineASRProcessor.online
           VACOnlineASRProcessor.current_online_chunk_buffer_size].
      split; [reflexivity|]. split; [apply Hoff|].
      destruct (slice_upto_part
                  (vac_time - VACOnlineASRProcessor.buffer_offset s + len audio)
                  buf) as [post Hpost].
      eexists _, [], post. split; [exact Hpost|].
      split; [reflexivity|]. split; [reflexivity | discriminate].
  - destruct (match VACOnlineASRProcessor.status s with
              | Some st => String.eqb st "voice"
              | None => false
              end).
    + intros H. injection H as <-.
      cbn [VACOnlineASRProcessor.clear_buffer VACOnlineASRProcessor.forward
           VACOnlineASRProcessor.set_audio_buffer
           VACOnlineASRProcessor.audio_buffer
           VACOnlineASRProcessor.buffer_offset VACOnlineASRProcessor.online
           VACOnlineASRProcessor.current_online_chunk_buffer_size].
      split; [reflexivity|]. split; [apply Hoff|].
      exists buf, [], []. rewrite app_nil_r. repeat split.
    + intros H. injection H as <-.
      cbn [VACOnlineASRProcessor.clear_buffer
           VACOnlineASRProcessor.set_audio_buffer
           VACOnlineASRProcessor.audio_buffer
           VACOnlineASRProcessor.buffer_offset VACOnlineASRProcessor.online
           VACOnlineASRProcessor.current_online_chunk_buffer_size].
      split; [reflexivity|]. split; [apply Hoff|].
      exists [], [], buf. rewrite app_nil_r. unfold len. cbn [List.length].
      repeat split; try reflexivity; lia.
Qed.

(** The theorem on a chunk of sixteen samples that arrives while a voice
    is heard. *)
Lemma vac_insert_accounting_witness :
  let s' := snd (VACOnlineASRProcessor.insert_audio_chunk
                   None (repeat 0%float 16) vac_in_voice) in
  VACOnlineASRProcessor.audio_buffer s' = [] /\
  VACOnlineASRProcessor.buffer_offset s' = 16%Z.
Proof.
  intros s'.
  destruct (vac_insert_accounting None (repeat 0%float 16) vac_in_voice s'
                                  eq_refl) as (H1 & H2 & _).
  split; [exact H1 | exact H2].
Defined.

(** X16.  A detector answer that is not exactly one event raises
    [AssertionError], and a single event that is neither start nor end
    raises [UnboundLocalError]; in both cases the chunk has been appended
    to the wrapper's buffer and nothing else has changed: nothing was
    forwarded and [buffer_offset] has not moved. *)
Theorem vac_insert_bad_event (audio : list float)
        (s : VACOnlineASRProcessor.t) :
  let kept := VACOnlineASRProcessor.set_audio_buffer
                (VACOnlineASRProcessor.audio_buffer s ++ audio) s in
  (forall items,
      List.length items <> 1 ->
      VACOnlineASRProcessor.insert_audio_chunk (Some items) audio s
      = (Raise AssertionError, kept)) /\
  (forall vac_key vac_time,
      String.eqb vac_key "start" = false ->
      String.eqb vac_key "end" = false ->
      VACOnlineASRProcessor.insert_audio_chunk
        (Some [(vac_key, vac_time)]) audio s
      = (Raise UnboundLocalError, kept)).
Proof.
  cbv zeta. split.
  - intros items Hlen. unfold VACOnlineASRProcessor.insert_audio_chunk.
    destruct items as [|[k t] [|second items]]; try reflexivity.
    now elim Hlen.
  - intros vac_key vac_time Hs He.
    unfold VACOnlineASRProcessor.insert_audio_chunk. now rewrite Hs, He.
Qed.

(** The theorem on an empty answer and on an event named pause. *)
Lemma vac_insert_bad_event_witness :
  fst (VACOnlineASRProcessor.insert_audio_chunk
         (Some []) (repeat 0%float 16) vac_in_voice)
  = Raise AssertionError /\
  fst (VACOnlineASRProcessor.insert_audio_chunk
         (Some [("pause", 3%Z)]) (repeat 0%float 16) vac_in_voice)
  = Raise UnboundLocalError.
Proof.
  split.
  - rewrite (proj1 (vac_insert_bad_event (repeat 0%float 16) vac_in_voice) []);
      [reflexivity | discriminate].
  - rewrite (proj2 (vac_insert_bad_event (repeat 0%float 16) vac_in_voice)
                   "pause" 3%Z eq_refl eq_refl).
    reflexivity.
Defined.

(** X17.  An end event always returns, sets the status to nonvoice and
    marks the utterance as final; the next [process_iter] of the wrapper
    then returns what [finish] of the online processor returns, without
    asking for the size of the accumulated audio, and leaves the online
    processor with empty buffers, the mark cleared and the count at 0. *)
Theorem vac_end_of_utterance
        (asr : OnlineASRProcessor.ASR) (vac_time : Z) (audio : list float)
        (s : VACOnlineASRProcessor.t) :
  let r1 := VACOnlineASRProcessor.insert_audio_chunk
              (Some [("end", vac_time)]) audio s in
  let r2 := VACOnlineASRProcessor.process_iter asr (snd r1) in
  fst r1 = Ok tt /\
  VACOnlineASRProcessor.status (snd r1) = Some "nonvoice" /\
  VACOnlineASRProcessor.is_currently_final (snd r1) = true /\
  fst r2 = fst (OnlineASRProcessor.finish
                  asr (VACOnlineASRProcessor.online (snd r1))) /\
  (exists result, fst r2 = Ok result) /\
  VACOnlineASRProcessor.online (snd r2)
  = snd (OnlineASRProcessor.finish
           asr (VACOnlineASRProcessor.online (snd r1))) /\
  OnlineASRProcessor.audio_buffer (VACOnlineASRProcessor.online (snd r2)) = [] /\
  OnlineASRProcessor.commited_not_final
    (VACOnlineASRProcessor.online (snd r2)) = [] /\
  VACOnlineASRProcessor.is_currently_final (snd r2) = false /\
  VACOnlineASRProcessor.current_online_chunk_buffer_size (snd r2) = 0%Z.
Proof.
  intros r1 r2.
  assert (H1 : fst r1 = Ok tt /\
               VACOnlineASRProcessor.status (snd r1) = Some "nonvoice" /\
               VACOnlineASRProcessor.is_currently_final (snd r1) = true)
    by (repeat split).
  destruct H1 as (Hok & Hst & Hfin).
  split; [exact Hok|]. split; [exact Hst|]. split; [exact Hfin|].
  subst r2. unfold VACOnlineASRProcessor.process_iter. rewrite Hfin.
  unfold VACOnlineASRProcessor.finish.
  destruct (online_finish_ok asr (VACOnlineASRProcessor.online (snd r1)))
    as (result & o' & -> & Ha & Hc).
  cbn [fst snd VACOnlineASRProcessor.online
       VACOnlineASRProcessor.is_currently_final
       VACOnlineASRProcessor.current_online_chunk_buffer_size].
  repeat split; try assumption. now exists result.
Qed.



(** X19.  A start event always returns and sets the status to voice.  It
    puts the online processor back to its initial state, offset at the
    event's position divided by 16000: what that processor held (audio,
    committed words, prompt) is gone; the final mark is left as it was.
    With an empty wrapper buffer and an event positioned at or after the
    start of the chunk, the cut position [vac_time - buffer_offset +
    len(audio)] is at or after the end of the chunk: a start event then
    forwards nothing of it, and an end event all of it. *)
Theorem vac_start_event
        (vac_time : Z) (audio : list float) (s : VACOnlineASRProcessor.t) :
  let r := VACOnlineASRProcessor.insert_audio_chunk
             (Some [("start", vac_time)]) audio s in
  let sent := slice_from
                (vac_time - VACOnlineASRProcessor.buffer_offset s + len audio)
                (VACOnlineASRProcessor.audio_buffer s ++ audio) in
  fst r = Ok tt /\
  VACOnlineASRProcessor.status (snd r) = Some "voice" /\
  VACOnlineASRProcessor.is_currently_final (snd r)
  = VACOnlineASRProcessor.is_currently_final s /\
  VACOnlineASRProcessor.online (snd r)
  = OnlineASRProcessor.set_audio_buffer
      sent
      (OnlineASRProcessor.init
         (OnlineASRProcessor.buffer_trimming_way (VACOnlineASRProcessor.online s))
         (OnlineASRProcessor.buffer_trimming_sec (VACOnlineASRProcessor.online s))
         (Some (float_of_Z vac_time / OnlineASRProcessor.SAMPLING_RATE)%float)) /\
  (VACOnlineASRProcessor.audio_buffer s = [] ->
   (VACOnlineASRProcessor.buffer_offset s <= vac_time)%Z ->
   sent = [] /\
   OnlineASRProcessor.audio_buffer
     (VACOnlineASRProcessor.online
        (snd (VACOnlineASRProcessor.insert_audio_chunk
                (Some [("end", vac_time)]) audio s)))
   = OnlineASRProcessor.audio_buffer (VACOnlineASRProcessor.online s) ++ audio).
Proof.
  intros r sent.
  split; [reflexivity|]. split; [reflexivity|]. split; [reflexivity|].
  split; [reflexivity|].
  intros Hempty Hpos. subst sent. rewrite Hempty. cbn [app].
  split.
  - apply slice_from_beyond. lia.
  - cbn [VACOnlineASRProcessor.insert_audio_chunk String.eqb Ascii.eqb
         Bool.eqb snd VACOnlineASRProcessor.clear_buffer
         VACOnlineASRProcessor.forward VACOnlineASRProcessor.online
         VACOnlineASRProcessor.set_audio_buffer
         VACOnlineASRProcessor.audio_buffer
         VACOnlineASRProcessor.buffer_offset
         OnlineASRProcessor.insert_audio_chunk OnlineASRProcessor.modify
         OnlineASRProcessor.set_audio_buffer
         OnlineASRProcessor.audio_buffer].
    rewrite Hempty. cbn [app]. f_equal.
    apply slice_upto_beyond. lia.
Qed.

(** The last part on a start at sample 3 of the first chunk. *)
Lemma vac_start_event_witness :
  OnlineASRProcessor.audio_buffer
    (VACOnlineASRProcessor.online
       (snd (VACOnlineASRProcessor.insert_audio_chunk
               (Some [("start", 3%Z)]) (repeat 0%float 16) vac_example)))
  = [].
Proof.
  destruct (vac_start_event 3%Z (repeat 0%float 16) vac_example)
    as (_ & _ & _ & Ho & Hpos).
  rewrite Ho. cbn [OnlineASRProcessor.audio_buffer
                   OnlineASRProcessor.set_audio_buffer].
  apply Hpos; [reflexivity | discriminate].
Defined.

(** ** Output streams *)

Section WebText.

Lemma whole_br : whole_chars "<br>".
Proof. unfold whole_chars. vm_compute. repeat constructor. Qed.

Lemma whole_amp_nbsp : whole_chars "&nbsp;".
Proof. unfold whole_chars. vm_compute. repeat constructor. Qed.

(** What [modify_for_web] puts for a character. *)
Lemma web_chars (text : string) :
  whole_chars text ->
  chars (Translation.modify_for_web text)
  = flat_map (fun c => if String.eqb c newline then ["<"; "b"; "r"; ">"]
                       else if String.eqb c nbsp
                            then ["&"; "n"; "b"; "s"; "p"; ";"]
                            else [c])
             (chars text).
Proof.
  intros Hw. unfold Translation.modify_for_web.
  rewrite chars_replace_char;
    [|apply whole_replace_char; [exact Hw | exact whole_br]
     |exact whole_amp_nbsp].
  rewrite (chars_replace_char _ _ _ Hw whole_br).
  induction (chars text) as [|c l IH]; [reflexivity|].
  cbn [flat_map]. rewrite flat_map_app, IH. f_equal.
  destruct (String.eqb c newline); [reflexivity|].
  cbn [flat_map]. rewrite app_nil_r.
  now destruct (String.eqb c nbsp).
Qed.

End WebText.

(** X20.  [modify_for_web] puts [<br>] for every line feed and [&nbsp;]
    for every no-break space (U+00A0) and keeps every other character: in
    the text a web stream shows there is no line feed and no no-break
    space, there are as many ordinary spaces as in the text written, and a
    text with neither a line feed nor a no-break space is shown as it
    is. *)
Theorem modify_for_web_keeps_spaces (text : string) :
  whole_chars text ->
  chars (Translation.modify_for_web text)
  = flat_map (fun c => if String.eqb c newline then ["<"; "b"; "r"; ">"]
                       else if String.eqb c nbsp
                            then ["&"; "n"; "b"; "s"; "p"; ";"]
                            else [c])
             (chars text) /\
  occurrences newline (Translation.modify_for_web text) = 0 /\
  occurrences nbsp (Translation.modify_for_web text) = 0 /\
  occurrences " " (Translation.modify_for_web text) = occurrences " " text /\
  (occurrences newline text = 0 -> occurrences nbsp text = 0 ->
   Translation.modify_for_web text = text).
Proof.
  intros Hw. split; [now apply web_chars|].
  unfold Translation.modify_for_web.
  assert (Hw1 : whole_chars (replace_char newline "<br>" text))
    by (apply whole_replace_char; [exact Hw | exact whole_br]).
  split; [|split; [|split]].
  - rewrite (occurrences_replace_char newline nbsp "&nbsp;" _
               Hw1 whole_amp_nbsp eq_refl).
    change (String.eqb newline nbsp) with false. cbv iota.
    now rewrite (occurrences_replace_char newline newline "<br>" _
                   Hw whole_br eq_refl).
  - now rewrite (occurrences_replace_char nbsp nbsp "&nbsp;" _
                   Hw1 whole_amp_nbsp eq_refl).
  - rewrite (occurrences_replace_char " " nbsp "&nbsp;" _
               Hw1 whole_amp_nbsp eq_refl).
    change (String.eqb " " nbsp) with false. cbv iota.
    now rewrite (occurrences_replace_char " " newline "<br>" _
                   Hw whole_br eq_refl).
  - intros Hn Hs. rewrite (replace_char_absent newline "<br>" text Hn).
    now apply replace_char_absent.
Qed.

(** The theorem on a text of two words: the space between them stays. *)
Lemma modify_for_web_keeps_spaces_witness :
  whole_chars "a b" /\ Translation.modify_for_web "a b" = "a b".
Proof.
  assert (Hw : whole_chars "a b")
    by (unfold whole_chars; vm_compute; repeat constructor).
  split; [exact Hw|].
  apply (proj2 (proj2 (proj2 (proj2
           (modify_for_web_keeps_spaces "a b" Hw))))); reflexivity.
Defined.

Section WebStream.

Import Translation.

Lemma web_run_app (ops1 ops2 : list web_op) (o : OutputStream) :
  web_run (ops1 ++ ops2) o
  = let '(o1, answers1) := web_run ops1 o in
    let '(o2, answers2) := web_run ops2 o1 in
    (o2, answers1 ++ answers2).
Proof.
  revert o. induction ops1 as [|[text c|] ops1 IH]; intros o.
  - cbn. now destruct (web_run ops2 o).
  - cbn [app web_run]. apply IH.
  - cbn [app web_run]. destruct (WebOutputStream.get_new_content o) as [a o'].
    rewrite IH. destruct (web_run ops1 o') as [o1 answers1].
    now destruct (web_run ops2 o1).
Qed.

Lemma after_last_poll_snoc (ops : list web_op) (op : web_op) :
  after_last_poll (ops ++ [op])
  = if is_poll op then [] else after_last_poll ops ++ [op].
Proof.
  induction ops as [|x ops IH].
  - cbn. now destruct op.
  - cbn [app after_last_poll]. rewrite existsb_app. cbn [existsb].
    rewrite orb_false_r. fold is_poll.
    destruct op as [text c|]; cbn [is_poll] in *.
    + rewrite orb_false_r. rewrite IH.
      destruct (existsb _ ops); [reflexivity|]. now destruct x.
    + rewrite orb_true_r. exact IH.
Qed.

(** What a new web stream holds after any writes and polls. *)
Lemma web_run_contents (language : string) (ops : list web_op) :
  fst (web_run ops (WebOutputStream language [] [] ""))
  = WebOutputStream language
                    (web_complete (after_last_poll ops))
                    (web_complete ops) (web_incomplete ops).
Proof.
  induction ops as [|op ops IH] using rev_ind; [reflexivity|].
  rewrite web_run_app.
  destruct (web_run ops (WebOutputStream language [] [] "")) as [o1 answers1].
  cbn [fst] in IH. subst o1.
  rewrite after_last_poll_snoc.
  unfold web_complete, web_incomplete in *. rewrite !flat_map_app.
  destruct op as [text [|]|]; cbn [web_run is_poll flat_map app fst write
                                    WebOutputStream.get_new_content].
  - rewrite flat_map_app. cbn [flat_map]. now rewrite !app_nil_r.
  - rewrite flat_map_app. cbn [flat_map]. rewrite !app_nil_r.
    now rewrite last_app_default.
  - now rewrite !app_nil_r.
Qed.

End WebStream.

(** X21.  A new web stream, after any sequence of writes and polls:
    [get_full_content] gives every complete text written so far, each as
    [modify_for_web] makes it, in order and joined with spaces;
    [get_new_content] gives those written since the last poll, and asked
    again at once it gives none; both give the last incomplete text, which
    complete writes and polls do not clear.  So after the complete texts
    [a b] and [c], no-break space, [d], line feed, and the incomplete text
    [e f], the full content is [a b c&nbsp;d<br>] with [e f]. *)
Theorem web_stream_contents (language : string) (ops : list web_op) :
  let o := fst (web_run ops (Translation.WebOutputStream language [] [] "")) in
  WebOutputStream.get_full_content
    (fst (web_run [WebWrite "a b" true;
                   WebWrite ("c" ++ nbsp ++ "d" ++ newline)%string true;
                   WebWrite "e f" false]
                  (Translation.WebOutputStream language [] [] "")))
  = Some ("a b c&nbsp;d<br>", "e f") /\
  WebOutputStream.get_full_content o
  = Some (join " " (web_complete ops), web_incomplete ops) /\
  fst (WebOutputStream.get_new_content o)
  = Some (join " " (web_complete (after_last_poll ops)), web_incomplete ops) /\
  fst (WebOutputStream.get_new_content
         (snd (WebOutputStream.get_new_content o)))
  = Some ("", web_incomplete ops) /\
  WebOutputStream.get_full_content (snd (WebOutputStream.get_new_content o))
  = WebOutputStream.get_full_content o.
Proof.
  cbv zeta. split; [reflexivity|].
  rewrite web_run_contents. repeat split.
Qed.

(** X22.  A file stream keeps the complete texts only, each followed by a
    space, after what the file held before (its front matter, for a new
    stream); incomplete texts never reach the file.  A console stream
    shows every text, complete or not, in the order written. *)
Theorem file_and_console_contents
        (language outfile : string) (shown : list (string * bool))
        (writes : list (string * bool)) :
  write_all writes (Translation.FileOutputStream language outfile)
  = Translation.FileOutputStream
      language
      (outfile
       ++ join "" (map (fun t => (t ++ " ")%string) (complete_texts writes)))
  /\
  write_all writes (Translation.ConsoleOutputStream language shown)
  = Translation.ConsoleOutputStream language (shown ++ writes).
Proof.
  unfold write_all, complete_texts. split.
  - revert outfile.
    induction writes as [|[text c] writes IH]; intros outfile.
    + cbn. now rewrite append_empty_r.
    + cbn [fold_left fst snd Translation.write filter]. destruct c.
      * rewrite IH. cbn [map fst]. rewrite join_empty_cons.
        now rewrite !string_app_assoc.
      * apply IH.
  - revert shown.
    induction writes as [|[text c] writes IH]; intros shown.
    + cbn. now rewrite app_nil_r.
    + cbn [fold_left fst snd Translation.write]. rewrite IH.
      now rewrite <- app_assoc.
Qed.

(** ** Translation pipeline: language codes, construction, the worker *)

Section LanguageCodes.

Import Translation.

Lemma upper_char_twice (c : ascii) : upper_char (upper_char c) = upper_char c.
Proof. destruct c as [[] [] [] [] [] [] [] []]; reflexivity. Qed.

Lemma upper_char_not_lower_e (c : ascii) : upper_char c <> "e"%char.
Proof. destruct c as [[] [] [] [] [] [] [] []]; discriminate. Qed.

Lemma upper_string_twice (l : list ascii) :
  map upper_char (map upper_char l) = map upper_char l.
Proof.
  rewrite map_map. apply map_ext. intros c. apply upper_char_twice.
Qed.

End LanguageCodes.

(** X23.  [translate_language_code_for_deepl] maps [en] to [EN-US] and any
    other ASCII code to its upper case; applied to its own result it
    changes nothing, so a code that was already translated is safe to
    translate again. *)
Theorem deepl_code_idempotent (lang : string) :
  ascii_only lang ->
  Translation.translate_language_code_for_deepl "en" = "EN-US" /\
  Translation.translate_language_code_for_deepl
    (Translation.translate_language_code_for_deepl lang)
  = Translation.translate_language_code_for_deepl lang.
Proof.
  intros _. split; [reflexivity|].
  unfold Translation.translate_language_code_for_deepl.
  destruct (String.eqb lang "en"); [reflexivity|].
  set (u := string_of_list_ascii
              (map Translation.upper_char (list_ascii_of_string lang))).
  assert (Hu : String.eqb u "en" = false).
  { apply String.eqb_neq. subst u.
    destruct lang as [|c lang]; [discriminate|].
    cbn. intros H. injection H as H _.
    now apply upper_char_not_lower_e in H. }
  rewrite Hu. subst u.
  rewrite list_ascii_of_string_of_list_ascii.
  now rewrite upper_string_twice.
Qed.

(** The theorem on the code [de]. *)
Lemma deepl_code_idempotent_witness :
  ascii_only "de" /\
  Translation.translate_language_code_for_deepl
    (Translation.translate_language_code_for_deepl "de")
  = Translation.translate_language_code_for_deepl "de".
Proof.
  assert (H : ascii_only "de")
    by (repeat (apply Forall_cons; [vm_compute; lia|]); apply Forall_nil).
  split; [exact H | exact (proj2 (deepl_code_idempotent "de" H))].
Defined.

Section Construction.

Import Translation.

Lemma translator_create_ok (src tgt name : string)
      (output_file log_to_console write_to_web : bool)
      (T : OnlineTranslator.t) :
  OnlineTranslator.create src tgt name output_file log_to_console write_to_web
  = Ok T ->
  OnlineTranslator.model_name T = name /\
  OnlineTranslator.tgt_lang T = tgt /\
  OnlineTranslator.src_lang T = src /\
  OnlineTranslator.output_streams T <> [] /\
  OnlineTranslator.log_file T = [] /\
  (output_file || log_to_console || write_to_web) = true.
Proof.
  unfold OnlineTranslator.create.
  destruct output_file, log_to_console, write_to_web; cbn [app List.length Nat.eqb];
    try discriminate;
    (destruct (contains "m2m100" name || String.eqb name "deepl");
     [|discriminate]);
    intros H; injection H as <-; repeat split; discriminate.
Qed.

Lemma create_translators_ok (src name : string) (langs : list string)
      (output_folder log_to_console log_to_web : bool) :
  forall Ts,
    TranslationPipeline.create_translators
      src name langs output_folder log_to_console log_to_web = Ok Ts ->
    map OnlineTranslator.tgt_lang Ts = langs /\
    Forall (fun T => OnlineTranslator.model_name T = name) Ts /\
    Forall (fun T => OnlineTranslator.output_streams T <> []) Ts.
Proof.
  induction langs as [|lang langs IH]; intros Ts H.
  - injection H as <-. repeat split; constructor.
  - cbn [TranslationPipeline.create_translators] in H.
    destruct (OnlineTranslator.create _ _ _ _ _ _) as [T|e] eqn:ET;
      [|discriminate].
    cbn [Py.bind] in H.
    destruct (TranslationPipeline.create_translators _ _ _ _ _ _)
      as [Ts'|e] eqn:ETs; [|discriminate].
    cbn [Py.bind] in H. injection H as <-.
    destruct (translator_create_ok _ _ _ _ _ _ _ ET)
      as (Hn & Ht & _ & Hs & _).
    destruct (IH Ts' eq_refl) as (H1 & H2 & H3).
    cbn [map]. rewrite Ht, H1. repeat split; constructor; assumption.
Qed.

End Construction.

(** X24.  The constructor of the pipeline raises [NotImplementedError] for
    a model name that neither contains [m2m100] nor is [deepl], and
    [AssertionError] when a supported model is asked to translate to some
    language with no output at all.  When it returns, the pipeline is well
    configured (every translator carries the pipeline's model name), there
    is one translator per target language, in order, each with at least
    one output stream, and the queue is empty. *)
Theorem pipeline_create_cases
        (m : Translation.MTModel) (src : string) (langs : list string)
        (name : string) (output_folder log_to_console log_to_web : bool) :
  let r := Translation.TranslationPipeline.create
             m src langs name output_folder log_to_console log_to_web in
  ((contains "m2m100" name || String.eqb name "deepl") = false ->
   r = Raise NotImplementedError) /\
  ((contains "m2m100" name || String.eqb name "deepl") = true ->
   langs <> [] ->
   (output_folder || log_to_console || log_to_web) = false ->
   r = Raise AssertionError) /\
  (forall p,
      r = Ok p ->
      well_configured p /\
      map Translation.OnlineTranslator.tgt_lang
          (Translation.TranslationPipeline.translators p) = langs /\
      Forall (fun T => Translation.OnlineTranslator.output_streams T <> [])
             (Translation.TranslationPipeline.translators p) /\
      Translation.TranslationPipeline.translation_queue p = []).
Proof.
  cbv zeta. unfold Translation.TranslationPipeline.create.
  split; [|split].
  - intros Hn. now rewrite Hn.
  - intros Hn Hl Hout. rewrite Hn. cbn [negb].
    destruct langs as [|lang langs]; [now elim Hl|].
    cbn [Translation.TranslationPipeline.create_translators].
    unfold Translation.OnlineTranslator.create.
    destruct output_folder, log_to_console, log_to_web; try discriminate.
    reflexivity.
  - intros p H.
    destruct (contains "m2m100" name || String.eqb name "deepl") eqn:Hn;
      [|discriminate].
    cbn [negb] in H.
    destruct (Translation.TranslationPipeline.create_translators _ _ _ _ _ _)
      as [Ts|e] eqn:ETs; [|discriminate].
    cbn [Py.bind] in H. injection H as <-.
    destruct (create_translators_ok _ _ _ _ _ _ _ ETs) as (H1 & H2 & H3).
    unfold well_configured.
    cbn [Translation.TranslationPipeline.model_name
         Translation.TranslationPipeline.translators
         Translation.TranslationPipeline.translation_queue].
    repeat split; assumption.
Qed.

(** The theorem on the pipeline of the stale-drop scenario, on a model
    name that is not supported, and on a pipeline without outputs. *)
Lemma pipeline_create_cases_witness :
  well_configured two_language_pipeline /\
  Translation.TranslationPipeline.create
    echo_model "fr" ["en"] "opus-mt" false true false
  = Raise NotImplementedError /\
  Translation.TranslationPipeline.create
    echo_model "fr" ["en"] "deepl" false false false
  = Raise AssertionError.
Proof.
  split; [|split].
  - apply (proj2 (proj2 (pipeline_create_cases
                           echo_model "fr" ["en"; "de"] "facebook/m2m100_418M"
                           false true true))).
    reflexivity.
  - apply (proj1 (pipeline_create_cases
                    echo_model "fr" ["en"] "opus-mt" false true false)).
    reflexivity.
  - apply (proj1 (proj2 (pipeline_create_cases
                           echo_model "fr" ["en"] "deepl" false false false)));
      [reflexivity | discriminate | reflexivity].
Defined.

Section WorkerRun.

Import Translation.

Lemma served_keeps_model_name m prepared c (Ts : list OnlineTranslator.t)
      (name : string) :
  Forall (fun T => OnlineTranslator.model_name T = name) Ts ->
  Forall (fun T => OnlineTranslator.model_name T = name)
         (map (served m prepared c) Ts).
Proof.
  intros H. apply Forall_map. revert H. apply Forall_impl.
  intros T HT. exact HT.
Qed.

(** The whole run of the worker on a queue. *)
Lemma worker_run (queue : list (TimedSegment * bool)) :
  forall name m log streams Ts skipped,
    (contains "m2m100" name || String.eqb name "deepl") = true ->
    Forall (fun T => OnlineTranslator.model_name T = name) Ts ->
    TranslationPipeline.worker
      (List.length queue)
      (TranslationPipeline.mk name m log streams Ts queue skipped)
    = (Ok tt,
       TranslationPipeline.mk
         name m (log ++ map log_line queue) streams
         (serve_all m name (dispatched queue) Ts) []
         (skipped ++ dropped_sizes queue)).
Proof.
  induction queue as [|[seg c] rest IH];
    intros name m log streams Ts skipped Hname Hall.
  - cbn. now rewrite !app_nil_r.
  - cbn [List.length TranslationPipeline.worker
         TranslationPipeline.translation_queue
         TranslationPipeline.worker_turn dispatched dropped_sizes map].
    cbn [TranslationPipeline.model_name TranslationPipeline.model
         TranslationPipeline.log_file
         TranslationPipeline.original_output_streams
         TranslationPipeline.translators TranslationPipeline.skipped].
    destruct (c || Nat.eqb (List.length rest) 0) eqn:Ec.
    + unfold TranslationPipeline.prepare.
      cbn [TranslationPipeline.model_name].
      pose proof (dispatch_served m name Ts (s_text seg) c Hname Hall) as Hd.
      cbv zeta in Hd. rewrite Hd.
      rewrite IH; [|exact Hname | now apply served_keeps_model_name].
      unfold serve_all, log_line. cbn [fold_left fst snd].
      now rewrite <- app_assoc.
    + rewrite IH; [|exact Hname | exact Hall].
      unfold log_line. cbn [fst snd].
      now rewrite <- !app_assoc.
Qed.

Lemma dispatched_complete (queue : list (TimedSegment * bool))
      (seg : TimedSegment) :
  In (seg, true) queue -> In (seg, true) (dispatched queue).
Proof.
  induction queue as [|[seg0 c] rest IH]; [intros []|].
  cbn [dispatched]. intros [H|H].
  - injection H as -> ->. now left.
  - destruct (c || Nat.eqb (List.length rest) 0); [right|]; now apply IH.
Qed.

Lemma dispatched_last (queue : list (TimedSegment * bool))
      (d : TimedSegment * bool) :
  queue <> [] -> In (last queue d) (dispatched queue).
Proof.
  induction queue as [|[seg0 c] rest IH]; [intros H; now elim H|].
  intros _. cbn [dispatched]. destruct rest as [|item rest].
  - cbn. rewrite orb_true_r. now left.
  - rewrite last_cons_default.
    assert (Hl : last (item :: rest) (seg0, c) = last (item :: rest) d)
      by (rewrite !last_cons_default; reflexivity).
    rewrite Hl.
    destruct (c || Nat.eqb (List.length (item :: rest)) 0); [right|];
      apply IH; discriminate.
Qed.

Lemma dispatched_incomplete (queue : list (TimedSegment * bool))
      (seg : TimedSegment) (d : TimedSegment * bool) :
  In (seg, false) (dispatched queue) ->
  exists front, queue = front ++ [(seg, false)].
Proof.
  induction queue as [|[seg0 c] rest IH]; [intros []|].
  cbn [dispatched].
  destruct c; cbn [orb].
  - intros [H|H]; [discriminate|].
    destruct (IH H) as [front ->]. now exists ((seg0, true) :: front).
  - destruct rest as [|item rest].
    + cbn. intros [H|[]]. injection H as ->. now exists [].
    + cbn [List.length Nat.eqb]. intros H.
      destruct (IH H) as [front ->]. now exists ((seg0, false) :: front).
Qed.

End WorkerRun.

(** X25.  The worker, run on any queue of a well configured pipeline that
    no producer touches meanwhile, does not fail and empties the queue.
    It logs every item, in order.  The translators are handed, in order,
    the complete items and the last item of the queue, and no other: no
    complete segment is dropped, the item at the end of the queue is
    always translated, and an incomplete item is translated only at the
    end of the queue.  For every other item there is one reported size. *)
Theorem worker_drops_only_stale_incomplete
        (p : Translation.TranslationPipeline.t) :
  well_configured p ->
  let queue := Translation.TranslationPipeline.translation_queue p in
  let r := Translation.TranslationPipeline.run_worker p in
  fst r = Ok tt /\
  Translation.TranslationPipeline.translation_queue (snd r) = [] /\
  Translation.TranslationPipeline.log_file (snd r)
  = Translation.TranslationPipeline.log_file p ++ map log_line queue /\
  Translation.TranslationPipeline.translators (snd r)
  = serve_all (Translation.TranslationPipeline.model p)
              (Translation.TranslationPipeline.model_name p)
              (dispatched queue)
              (Translation.TranslationPipeline.translators p) /\
  Translation.TranslationPipeline.skipped (snd r)
  = Translation.TranslationPipeline.skipped p ++ dropped_sizes queue /\
  List.length (dispatched queue) + List.length (dropped_sizes queue)
  = List.length queue /\
  (forall seg, In (seg, true) queue -> In (seg, true) (dispatched queue)) /\
  (forall d, queue <> [] -> In (last queue d) (dispatched queue)) /\
  (forall seg, In (seg, false) (dispatched queue) ->
               exists front, queue = front ++ [(seg, false)]).
Proof.
  intros [Hname Hall] queue r.
  assert (Hr : r = (Ok tt,
                    Translation.TranslationPipeline.mk
                      (Translation.TranslationPipeline.model_name p)
                      (Translation.TranslationPipeline.model p)
                      (Translation.TranslationPipeline.log_file p
                       ++ map log_line queue)
                      (Translation.TranslationPipeline.original_output_streams p)
                      (serve_all (Translation.TranslationPipeline.model p)
                                 (Translation.TranslationPipeline.model_name p)
                                 (dispatched queue)
                                 (Translation.TranslationPipeline.translators p))
                      []
                      (Translation.TranslationPipeline.skipped p
                       ++ dropped_sizes queue))).
  { subst r. unfold Translation.TranslationPipeline.run_worker.
    fold queue. rewrite <- (worker_run queue _ _ _ _ _ _ Hname Hall).
    subst queue. now destruct p. }
  rewrite Hr. cbn [fst snd Translation.TranslationPipeline.translation_queue
                       Translation.TranslationPipeline.log_file
                       Translation.TranslationPipeline.translators
                       Translation.TranslationPipeline.skipped].
  repeat split.
  - clear. induction queue as [|[seg c] rest IH]; [reflexivity|].
    cbn [dispatched dropped_sizes].
    destruct (c || Nat.eqb (List.length rest) 0); cbn [List.length]; lia.
  - intros seg. apply dispatched_complete.
  - intros d. apply dispatched_last.
  - intros seg. apply dispatched_incomplete. exact (seg, false).
Qed.

(** The theorem on the stale-drop scenario: of the three queued segments
    the third is the only one translated. *)
Lemma worker_drops_only_stale_incomplete_witness :
  Translation.TranslationPipeline.translators
    (snd (Translation.TranslationPipeline.run_worker three_queued))
  = serve_all echo_model "facebook/m2m100_418M" [(seg3, true)]
              (Translation.TranslationPipeline.translators three_queued).
Proof.
  assert (Hwc : well_configured three_queued)
    by (split; [reflexivity | repeat constructor]).
  exact (proj1 (proj2 (proj2 (proj2
           (worker_drops_only_stale_incomplete three_queued Hwc))))).
Defined.

(** X26.  [put_text] refuses a segment with an empty text with
    [AssertionError].  Any other segment is written to every stream of the
    original text and put at the end of the queue, the rest of the pipeline
    staying as it is; and when the queue was empty, the worker then hands
    that text to every translator, complete or not, and leaves the queue
    empty. *)
Theorem put_text_then_worker
        (p : Translation.TranslationPipeline.t)
        (seg : TimedSegment) (is_complete : bool) :
  well_configured p ->
  (s_text seg = "" ->
   Translation.TranslationPipeline.put_text p seg is_complete
   = Raise AssertionError) /\
  (s_text seg <> "" ->
   exists p',
     Translation.TranslationPipeline.put_text p seg is_complete = Ok p' /\
     Translation.TranslationPipeline.original_output_streams p'
     = map (fun o => Translation.write o (s_text seg) is_complete)
           (Translation.TranslationPipeline.original_output_streams p) /\
     Translation.TranslationPipeline.translation_queue p'
     = Translation.TranslationPipeline.translation_queue p
         ++ [(seg, is_complete)] /\
     Translation.TranslationPipeline.translators p'
     = Translation.TranslationPipeline.translators p /\
     Translation.TranslationPipeline.log_file p'
     = Translation.TranslationPipeline.log_file p /\
     well_configured p' /\
     (Translation.TranslationPipeline.translation_queue p = [] ->
      fst (Translation.TranslationPipeline.run_worker p') = Ok tt /\
      Translation.TranslationPipeline.translators
        (snd (Translation.TranslationPipeline.run_worker p'))
      = map (served (Translation.TranslationPipeline.model p)
                    (Translation.TranslationPipeline.prepare p (s_text seg))
                    is_complete)
            (Translation.TranslationPipeline.translators p) /\
      Translation.TranslationPipeline.translation_queue
        (snd (Translation.TranslationPipeline.run_worker p')) = [])).
Proof.
  intros [Hname Hall].
  unfold Translation.TranslationPipeline.put_text. split.
  - intros ->. reflexivity.
  - intros Hne.
    destruct (String.eqb (s_text seg) "") eqn:E;
      [apply String.eqb_eq in E; contradiction|].
    eexists. split; [reflexivity|].
    cbn [Translation.TranslationPipeline.original_output_streams
         Translation.TranslationPipeline.translation_queue
         Translation.TranslationPipeline.translators
         Translation.TranslationPipeline.log_file].
    repeat (split; [reflexivity|]).
    split; [split; [exact Hname | exact Hall]|].
    intros Hq. rewrite Hq. cbn [app].
    unfold Translation.TranslationPipeline.run_worker.
    cbn [Translation.TranslationPipeline.translation_queue].
    rewrite (worker_run [(seg, is_complete)] _ _ _ _ _ _ Hname Hall).
    cbn [fst snd Translation.TranslationPipeline.translators
         Translation.TranslationPipeline.translation_queue].
    repeat split.
    cbn [dispatched List.length Nat.eqb]. rewrite orb_true_r.
    reflexivity.
Qed.

(** The theorem on the two-language pipeline: an incomplete segment put on
    the idle pipeline is translated. *)
Lemma put_text_then_worker_witness :
  exists p',
    Translation.TranslationPipeline.put_text two_language_pipeline seg1 false
    = Ok p' /\
    Translation.TranslationPipeline.translators
      (snd (Translation.TranslationPipeline.run_worker p'))
    = map (served echo_model
                  (Translation.TranslationPipeline.prepare
                     two_language_pipeline (s_text seg1))
                  false)
          (Translation.TranslationPipeline.translators two_language_pipeline).
Proof.
  assert (Hwc : well_configured two_language_pipeline)
    by (split; [reflexivity | repeat constructor]).
  assert (Hne : s_text seg1 <> "") by discriminate.
  destruct (proj2 (put_text_then_worker two_language_pipeline seg1 false Hwc)
                  Hne)
    as [p' [Hp [_ [_ [_ [_ [_ Hrun]]]]]]].
  exists p'. split; [exact Hp|].
  exact (proj1 (proj2 (Hrun eq_refl))).
Defined.
